(** * OAuth 1.0a request signing and the Zaim API client

    A shallow embedding of [src/utils/oauth-signature.ts] (the signer) and
    [src/core/zaim-api-client.ts] (the client that drives it), together
    with the parts of the JavaScript platform those two files call into:
    UTF-16 strings, [encodeURIComponent], property enumeration order of
    ordinary objects, [Array.prototype.sort], [URLSearchParams] and JSON
    values.

    Platform functions whose result depends on tables that are not part of
    the repository ([String.prototype.localeCompare], [toUpperCase], the
    HMAC of [crypto], [Number::toString]) are section variables. *)

From Stdlib Require Import List NArith ZArith Bool String Ascii Lia.
From Stdlib Require Import Permutation Sorted.
Import ListNotations.

Local Open Scope N_scope.

(* ================================================================== *)
(** * Part I. Definitions                                              *)
(* ================================================================== *)

(** ** JavaScript strings

    A JavaScript string is a finite sequence of UTF-16 code units. *)

Definition code_unit := N.
Definition jsstring := list code_unit.

Definition unit_of_ascii (a : ascii) : code_unit := N_of_ascii a.

(** [js "abc"] is the JavaScript string literal ['abc'] (ASCII only). *)
Definition js (s : string) : jsstring := map unit_of_ascii (list_ascii_of_string s).

Definition jsstring_eqb (a b : jsstring) : bool :=
  if list_eq_dec N.eq_dec a b then true else false.

(** The inclusive range test used throughout the character classes. *)
Definition in_range (lo hi c : N) : bool := (lo <=? c) && (c <=? hi).

Definition is_upper (c : code_unit) : bool := in_range 65 90 c.
Definition is_lower (c : code_unit) : bool := in_range 97 122 c.
Definition is_digit (c : code_unit) : bool := in_range 48 57 c.
Definition is_alnum (c : code_unit) : bool := is_upper c || is_lower c || is_digit c.

Definition mem_unit (c : code_unit) (s : jsstring) : bool := existsb (N.eqb c) s.

(** The characters the code and the platform single out. *)
Definition SPACE : code_unit := 32.
Definition DQUOTE : code_unit := 34.
Definition HASH : code_unit := 35.
Definition PERCENT : code_unit := 37.
Definition AMP : code_unit := 38.
Definition PLUS : code_unit := 43.
Definition EQUALS : code_unit := 61.
Definition QUESTION : code_unit := 63.

(** [s.startsWith(p)] *)
Fixpoint startsWith (p s : jsstring) : bool :=
  match p, s with
  | [], _ => true
  | _ :: _, [] => false
  | a :: p', b :: s' => (a =? b) && startsWith p' s'
  end.

(** [s.includes(p)] *)
Fixpoint includes (p s : jsstring) : bool :=
  startsWith p s ||
  match s with
  | [] => false
  | _ :: s' => includes p s'
  end.

(** [parts.join(sep)] on an array of strings. *)
Fixpoint join (sep : jsstring) (parts : list jsstring) : jsstring :=
  match parts with
  | [] => []
  | [p] => p
  | p :: rest => p ++ sep ++ join sep rest
  end.

(** [s.split(sep)] for a one-code-unit separator: the pieces between
    every occurrence of [sep]; never the empty array. *)
Fixpoint split (sep : code_unit) (s : jsstring) : list jsstring :=
  match s with
  | [] => [[]]
  | c :: s' =>
      if c =? sep then [] :: split sep s'
      else match split sep s' with
           | [] => [[c]]
           | p :: ps => (c :: p) :: ps
           end
  end.

(** Decimal digits of a non-negative integer, as [Number::toString]
    prints an integral value below 2^53. *)
Fixpoint decimal_digits (fuel : nat) (n : N) : jsstring :=
  match fuel with
  | O => []
  | S fuel' =>
      if n <? 10 then [48 + n]
      else decimal_digits fuel' (n / 10) ++ [48 + n mod 10]
  end.

Definition N_toString (n : N) : jsstring := decimal_digits (S (N.to_nat (N.log2 n))) n.

(** ** Completions: a value, or a thrown JavaScript value *)

(** What a [throw] carries: an [Error] instance (of any subclass, named
    by [name]) with its [message], or some value that is not an [Error]. *)
Inductive thrown : Type :=
| ErrorObject (name message : jsstring)
| NonError.

Inductive completion (A : Type) : Type :=
| Normal (a : A)
| Throw (e : thrown).
Arguments Normal {A} a.
Arguments Throw {A} e.

Definition bind {A B} (c : completion A) (k : A -> completion B) : completion B :=
  match c with
  | Normal a => k a
  | Throw e => Throw e
  end.

Notation "x <- c ;; k" := (bind c (fun x => k))
  (at level 61, c at next level, right associativity).

(** [array.map(f)] where [f] may throw: elements are visited left to
    right and the first throw aborts the loop. *)
Section MapM.
Context {A B : Type} (f : A -> completion B).

Fixpoint mapM (l : list A) : completion (list B) :=
  match l with
  | [] => Normal []
  | a :: l' => b <- f a ;; bs <- mapM l' ;; Normal (b :: bs)
  end.
End MapM.

Definition new_Error (message : jsstring) : thrown := ErrorObject (js "Error") message.

(** ** UTF-16 and UTF-8 *)

Definition is_leading_surrogate (c : code_unit) : bool := in_range 0xD800 0xDBFF c.
Definition is_trailing_surrogate (c : code_unit) : bool := in_range 0xDC00 0xDFFF c.

(** The UTF-8 transformation of a code point. *)
Definition utf8_octets (cp : N) : list N :=
  if cp <? 0x80 then [cp]
  else if cp <? 0x800 then [0xC0 + cp / 64; 0x80 + cp mod 64]
  else if cp <? 0x10000 then
    [0xE0 + cp / 4096; 0x80 + (cp / 64) mod 64; 0x80 + cp mod 64]
  else
    [0xF0 + cp / 262144; 0x80 + (cp / 4096) mod 64;
     0x80 + (cp / 64) mod 64; 0x80 + cp mod 64].

Definition hex_digit (d : N) : code_unit := if d <? 10 then 48 + d else 55 + d.

(** ["%XX"] with upper-case hexadecimal digits. *)
Definition percent_octet (b : N) : jsstring := [PERCENT; hex_digit (b / 16); hex_digit (b mod 16)].

Definition percent_octets (bs : list N) : jsstring := flat_map percent_octet bs.

(** ** encodeURIComponent (ECMA-262, Encode)

    The unescaped set of [encodeURIComponent] is the alphanumerics and
    the marks [- _ . ! ~ * ' ( )]. *)
Definition uriMark : jsstring := js "-_.!~*'()".

Definition uriUnescaped (c : code_unit) : bool := is_alnum c || mem_unit c uriMark.

Definition URIError_malformed : thrown := ErrorObject (js "URIError") (js "URI malformed").

Fixpoint encodeURIComponent (s : jsstring) : completion jsstring :=
  match s with
  | [] => Normal []
  | c :: rest =>
      if uriUnescaped c then
        r <- encodeURIComponent rest ;; Normal (c :: r)
      else if is_trailing_surrogate c then Throw URIError_malformed
      else if is_leading_surrogate c then
        match rest with
        | [] => Throw URIError_malformed
        | d :: rest' =>
            if is_trailing_surrogate d then
              r <- encodeURIComponent rest' ;;
              Normal (percent_octets
                        (utf8_octets ((c - 0xD800) * 0x400 + (d - 0xDC00) + 0x10000)) ++ r)
            else Throw URIError_malformed
        end
      else
        r <- encodeURIComponent rest ;; Normal (percent_octets (utf8_octets c) ++ r)
  end.

(** A string is well formed when it has no unpaired surrogate. *)
Fixpoint isWellFormed (s : jsstring) : bool :=
  match s with
  | [] => true
  | c :: rest =>
      if is_trailing_surrogate c then false
      else if is_leading_surrogate c then
        match rest with
        | [] => false
        | d :: rest' => is_trailing_surrogate d && isWellFormed rest'
        end
      else isWellFormed rest
  end.


(** ** Ordinary objects used as string-keyed maps

    An object is the list of its own enumerable string-keyed properties
    in creation order, without repeated keys. *)

Definition JSObject (V : Type) := list (jsstring * V).

Definition has_key {V} (k : jsstring) (o : JSObject V) : bool :=
  existsb (fun kv => jsstring_eqb k (fst kv)) o.

(** [o[k]] on an own property; [None] is [undefined]. *)
Fixpoint obj_get {V} (o : JSObject V) (k : jsstring) : option V :=
  match o with
  | [] => None
  | (k', v) :: o' => if jsstring_eqb k k' then Some v else obj_get o' k
  end.

(** CreateDataProperty: an existing property keeps its position and
    takes the new value, a new property is added last. *)
Fixpoint CreateDataProperty {V} (o : JSObject V) (k : jsstring) (v : V) : JSObject V :=
  match o with
  | [] => [(k, v)]
  | (k', v') :: o' =>
      if jsstring_eqb k k' then (k', v) :: o'
      else (k', v') :: CreateDataProperty o' k v
  end.

Definition PROTO : jsstring := js "__proto__".

(** The assignment [o[k] = v] of a primitive value [v] on an object made
    by an object literal.  The key ["__proto__"] reaches the accessor
    inherited from [Object.prototype], whose setter ignores a value that
    is neither an object nor [null]; no own property is created. *)
Definition Set_property {V} (o : JSObject V) (k : jsstring) (v : V) : JSObject V :=
  if jsstring_eqb k PROTO then o else CreateDataProperty o k v.

(** Numeric value of a digit string. *)
Definition digits_value (s : jsstring) : N := fold_left (fun acc c => 10 * acc + (c - 48)) s 0.

(** An array index is a canonical numeric string below 2^32 - 1. *)
Definition array_index (k : jsstring) : option N :=
  match k with
  | [] => None
  | c :: rest =>
      if forallb is_digit k && (negb (c =? 48) || match rest with [] => true | _ => false end)
         && (digits_value k <=? 4294967294)
      then Some (digits_value k) else None
  end.

Definition index_of_key (k : jsstring) : N :=
  match array_index k with Some n => n | None => 0 end.

Definition is_index_key (k : jsstring) : bool :=
  match array_index k with Some _ => true | None => false end.

Fixpoint insert_by_index {V} (kv : jsstring * V) (l : JSObject V) : JSObject V :=
  match l with
  | [] => [kv]
  | kv' :: l' =>
      if index_of_key (fst kv) <=? index_of_key (fst kv') then kv :: l
      else kv' :: insert_by_index kv l'
  end.

(** OrdinaryOwnPropertyKeys: array indices in ascending numeric order,
    then the other string keys in creation order. *)
Definition Object_entries {V} (o : JSObject V) : list (jsstring * V) :=
  fold_right insert_by_index [] (filter (fun kv => is_index_key (fst kv)) o)
  ++ filter (fun kv => negb (is_index_key (fst kv))) o.

Definition Object_keys {V} (o : JSObject V) : list jsstring := map fst (Object_entries o).

(** Object spread [{...a, ...b}] onto the properties collected so far. *)
Definition spread_into {V} (acc src : JSObject V) : JSObject V :=
  fold_left (fun o kv => CreateDataProperty o (fst kv) (snd kv)) (Object_entries src) acc.

(** ** Array.prototype.sort

    With a consistent comparator the result of [sort] is the stable
    sorted arrangement; this is the stable insertion sort.  [cmp x y > 0]
    moves [x] behind [y]. *)
Section ArraySort.
Context {A : Type} (cmp : A -> A -> Z).

Fixpoint sort_insert (x : A) (l : list A) : list A :=
  match l with
  | [] => [x]
  | y :: l' => if (0 <? cmp x y)%Z then y :: sort_insert x l' else x :: l
  end.

Definition Array_sort (l : list A) : list A := fold_right sort_insert [] l.

(** [x] may stand before [y]. *)
Definition cmp_le (x y : A) : Prop := (cmp x y <= 0)%Z.
End ArraySort.

(** ** The signer: src/utils/oauth-signature.ts *)

Section Signer.
(** [a.localeCompare(b)]: negative, zero or positive. *)
Variable localeCompare : jsstring -> jsstring -> Z.
(** [s.toUpperCase()] *)
Variable toUpperCase : jsstring -> jsstring.
(** [crypto.createHmac('sha1', key).update(data).digest('base64')] *)
Variable hmac_sha1_base64 : jsstring -> jsstring -> jsstring.

Definition encode_entry (kv : jsstring * jsstring) : completion (jsstring * jsstring) :=
  k <- encodeURIComponent (fst kv) ;;
  v <- encodeURIComponent (snd kv) ;;
  Normal (k, v).

Definition compare_keys (a b : jsstring * jsstring) : Z := localeCompare (fst a) (fst b).

Definition format_pair (kv : jsstring * jsstring) : jsstring := fst kv ++ [EQUALS] ++ snd kv.

Definition normalizeParameters (parameters : JSObject jsstring) : completion jsstring :=
  encoded <- mapM encode_entry (Object_entries parameters) ;;
  Normal (join [AMP] (map format_pair (Array_sort compare_keys encoded))).

Definition constructBaseString (method url normalizedParams : jsstring) : completion jsstring :=
  let m := toUpperCase method in
  u <- encodeURIComponent url ;;
  p <- encodeURIComponent normalizedParams ;;
  Normal (join [AMP] [m; u; p]).

(** [tokenSecret] is optional; an absent or empty one is falsy. *)
Definition constructSigningKey (consumerSecret : jsstring) (tokenSecret : option jsstring)
  : completion jsstring :=
  encodedConsumerSecret <- encodeURIComponent consumerSecret ;;
  encodedTokenSecret <-
    match tokenSecret with
    | Some (c :: t) => encodeURIComponent (c :: t)
    | Some [] | None => Normal []
    end ;;
  Normal (encodedConsumerSecret ++ [AMP] ++ encodedTokenSecret).

Definition generateOAuthSignature (method url : jsstring) (parameters : JSObject jsstring)
    (consumerSecret : jsstring) (tokenSecret : option jsstring) : completion jsstring :=
  normalizedParams <- normalizeParameters parameters ;;
  baseString <- constructBaseString method url normalizedParams ;;
  signingKey <- constructSigningKey consumerSecret tokenSecret ;;
  Normal (hmac_sha1_base64 signingKey baseString).
End Signer.

(** ** URLSearchParams (URL Standard, application/x-www-form-urlencoded) *)

Definition REPLACEMENT : N := 0xFFFD.

(** The scalar values of a string; an unpaired surrogate reads as U+FFFD,
    as in the conversion of a string to a USVString. *)
Fixpoint scalar_values (s : jsstring) : list N :=
  match s with
  | [] => []
  | c :: rest =>
      if is_trailing_surrogate c then REPLACEMENT :: scalar_values rest
      else if is_leading_surrogate c then
        match rest with
        | [] => [REPLACEMENT]
        | d :: rest' =>
            if is_trailing_surrogate d
            then ((c - 0xD800) * 0x400 + (d - 0xDC00) + 0x10000) :: scalar_values rest'
            else REPLACEMENT :: scalar_values rest
        end
      else c :: scalar_values rest
  end.

Definition utf16_units (cp : N) : jsstring :=
  if cp <? 0x10000 then [cp]
  else [0xD800 + (cp - 0x10000) / 0x400; 0xDC00 + (cp - 0x10000) mod 0x400].

Definition utf16_encode (cps : list N) : jsstring := flat_map utf16_units cps.

Definition toUSVString (s : jsstring) : jsstring := utf16_encode (scalar_values s).

Definition utf8_encode (s : jsstring) : list N := flat_map utf8_octets (scalar_values s).

(** Bytes left as they are by the urlencoded serializer: the ASCII
    alphanumerics and [* - . _]. *)
Definition urlencoded_safe (b : N) : bool := is_alnum b || mem_unit b (js "*-._").

Definition urlencoded_byte (b : N) : jsstring :=
  if b =? SPACE then [PLUS]
  else if urlencoded_safe b then [b]
  else percent_octet b.

Definition urlencoded_string (s : jsstring) : jsstring := flat_map urlencoded_byte (utf8_encode s).

(** A [URLSearchParams] object is its list of name-value pairs. *)
Definition URLSearchParams := list (jsstring * jsstring).

Definition URLSearchParams_append (l : URLSearchParams) (name value : jsstring) : URLSearchParams :=
  l ++ [(toUSVString name, toUSVString value)].

Definition URLSearchParams_toString (l : URLSearchParams) : jsstring :=
  join [AMP] (map (fun nv => urlencoded_string (fst nv) ++ [EQUALS] ++ urlencoded_string (snd nv)) l).

Definition hex_value (c : N) : option N :=
  if is_digit c then Some (c - 48)
  else if in_range 65 70 c then Some (c - 55)
  else if in_range 97 102 c then Some (c - 87)
  else None.

Fixpoint percent_decode (bs : list N) : list N :=
  match bs with
  | [] => []
  | b :: rest =>
      if b =? PERCENT then
        match rest with
        | h :: l :: rest' =>
            match hex_value h, hex_value l with
            | Some x, Some y => (16 * x + y) :: percent_decode rest'
            | _, _ => b :: percent_decode rest
            end
        | _ => b :: percent_decode rest
        end
      else b :: percent_decode rest
  end.

(** The UTF-8 decoder of the Encoding Standard, errors replaced. *)
Record utf8_state := {
  u8_code_point : N;
  u8_seen : N;
  u8_needed : N;
  u8_lower : N;
  u8_upper : N
}.

Definition u8_initial : utf8_state :=
  {| u8_code_point := 0; u8_seen := 0; u8_needed := 0; u8_lower := 0x80; u8_upper := 0xBF |}.

Definition u8_lead (b : N) : list N * utf8_state :=
  if b <=? 0x7F then ([b], u8_initial)
  else if in_range 0xC2 0xDF b then
    ([], {| u8_code_point := b mod 32; u8_seen := 0; u8_needed := 1;
            u8_lower := 0x80; u8_upper := 0xBF |})
  else if in_range 0xE0 0xEF b then
    ([], {| u8_code_point := b mod 16; u8_seen := 0; u8_needed := 2;
            u8_lower := if b =? 0xE0 then 0xA0 else 0x80;
            u8_upper := if b =? 0xED then 0x9F else 0xBF |})
  else if in_range 0xF0 0xF4 b then
    ([], {| u8_code_point := b mod 8; u8_seen := 0; u8_needed := 3;
            u8_lower := if b =? 0xF0 then 0x90 else 0x80;
            u8_upper := if b =? 0xF4 then 0x8F else 0xBF |})
  else ([REPLACEMENT], u8_initial).

Definition u8_step (st : utf8_state) (b : N) : list N * utf8_state :=
  if u8_needed st =? 0 then u8_lead b
  else if negb (in_range (u8_lower st) (u8_upper st) b) then
    let '(out, st') := u8_lead b in (REPLACEMENT :: out, st')
  else
    let cp := u8_code_point st * 64 + b mod 64 in
    if u8_seen st + 1 =? u8_needed st then ([cp], u8_initial)
    else ([], {| u8_code_point := cp; u8_seen := u8_seen st + 1; u8_needed := u8_needed st;
                 u8_lower := 0x80; u8_upper := 0xBF |}).

Fixpoint utf8_decode_from (st : utf8_state) (bs : list N) : list N :=
  match bs with
  | [] => if u8_needed st =? 0 then [] else [REPLACEMENT]
  | b :: rest => let '(out, st') := u8_step st b in out ++ utf8_decode_from st' rest
  end.

Definition utf8_decode (bs : list N) : jsstring := utf16_encode (utf8_decode_from u8_initial bs).

Definition plus_to_space (bs : list N) : list N := map (fun b => if b =? PLUS then SPACE else b) bs.

Definition urlencoded_component (bs : list N) : jsstring :=
  utf8_decode (percent_decode (plus_to_space bs)).

(** The part before the first [sep] and, when there is one, the part
    after it. *)
Fixpoint cut_at (sep : N) (bs : list N) : list N * option (list N) :=
  match bs with
  | [] => ([], None)
  | b :: rest =>
      if b =? sep then ([], Some rest)
      else let '(n, v) := cut_at sep rest in (b :: n, v)
  end.

Definition urlencoded_parse_sequence (bs : list N) : jsstring * jsstring :=
  let '(n, v) := cut_at EQUALS bs in
  (urlencoded_component n, urlencoded_component (match v with Some v' => v' | None => [] end)).

Definition nonempty {A} (l : list A) : bool := match l with [] => false | _ => true end.

(** [new URLSearchParams(init)] for a string [init]. *)
Definition URLSearchParams_parse (init : jsstring) : URLSearchParams :=
  let init' := match init with c :: rest => if c =? QUESTION then rest else init | [] => [] end in
  map urlencoded_parse_sequence (filter nonempty (split AMP (utf8_encode init'))).

(** The query component of a URL string (URL Standard): what follows the
    first ['?'], up to a ['#']; a ['#'] before any ['?'] starts the
    fragment. *)
Definition url_query (url : jsstring) : option jsstring :=
  snd (cut_at QUESTION (fst (cut_at HASH url))).

(** ** String.prototype.trim *)

(** WhiteSpace and LineTerminator code points. *)
Definition is_white_space (c : code_unit) : bool :=
  in_range 0x09 0x0D c || (c =? 0x20) || (c =? 0xA0) || (c =? 0x1680)
  || in_range 0x2000 0x200A c || (c =? 0x2028) || (c =? 0x2029)
  || (c =? 0x202F) || (c =? 0x205F) || (c =? 0x3000) || (c =? 0xFEFF).

Fixpoint trimStart (s : jsstring) : jsstring :=
  match s with
  | [] => []
  | c :: rest => if is_white_space c then trimStart rest else s
  end.

Definition trim (s : jsstring) : jsstring := rev (trimStart (rev (trimStart s))).

(** ** Types: src/types/oauth.ts *)

Record OAuthConfig := {
  consumerKey : jsstring;
  consumerSecret : jsstring;
  accessToken : jsstring;
  accessTokenSecret : jsstring
}.

Inductive HttpMethod := GET | POST | PUT | DELETE.

Definition HttpMethod_string (m : HttpMethod) : jsstring :=
  match m with
  | GET => js "GET"
  | POST => js "POST"
  | PUT => js "PUT"
  | DELETE => js "DELETE"
  end.

(** ** TokenStorage.validateConfig: src/utils/token-storage.ts *)

Definition TokenStorage_validateConfig (config : OAuthConfig) : bool :=
  nonempty (consumerKey config) && nonempty (consumerSecret config)
  && nonempty (accessToken config) && nonempty (accessTokenSecret config)
  && nonempty (trim (consumerKey config)) && nonempty (trim (consumerSecret config))
  && nonempty (trim (accessToken config)) && nonempty (trim (accessTokenSecret config)).

(** ** The client: src/core/zaim-api-client.ts *)

Record ZaimApiClient := {
  config : OAuthConfig;
  baseUrl : jsstring
}.

Definition validateConfig (config : OAuthConfig) : completion unit :=
  if negb (nonempty (consumerKey config)) then Throw (new_Error (js "consumerKey is required"))
  else if negb (nonempty (consumerSecret config)) then
    Throw (new_Error (js "consumerSecret is required"))
  else if negb (nonempty (accessToken config)) then
    Throw (new_Error (js "accessToken is required"))
  else if negb (nonempty (accessTokenSecret config)) then
    Throw (new_Error (js "accessTokenSecret is required"))
  else Normal tt.

(** [new ZaimApiClient(config)] *)
Definition new_ZaimApiClient (config : OAuthConfig) : completion ZaimApiClient :=
  _ <- validateConfig config ;;
  Normal {| config := config; baseUrl := js "https://api.zaim.net" |}.

(** The per-call values drawn from [Math.random] and [Date.now]. *)
Record CallEnv := {
  nonce : jsstring;
  timestamp : jsstring
}.

(** What [generateAuthHeader] hands to [generateOAuthSignature]. *)
Record SignerCall := {
  sc_method : jsstring;
  sc_url : jsstring;
  sc_parameters : JSObject jsstring;
  sc_consumerSecret : jsstring;
  sc_tokenSecret : option jsstring
}.

Record RequestInit := {
  ri_method : HttpMethod;
  ri_headers : JSObject jsstring;
  ri_body : option jsstring
}.

Section Client.
Variable localeCompare : jsstring -> jsstring -> Z.
Variable toUpperCase : jsstring -> jsstring.
Variable hmac_sha1_base64 : jsstring -> jsstring -> jsstring.

(** The Number type with [Number::toString] and [ToBoolean]. *)
Variable number : Type.
Variable Number_toString : number -> jsstring.
Variable Number_toBoolean : number -> bool.

(** [RequestParameters = Record<string, string | number | boolean>] *)
Inductive param_value :=
| PString (s : jsstring)
| PNumber (n : number)
| PBoolean (b : bool).

Definition RequestParameters := JSObject param_value.

(** [String(value)] *)
Definition String_of (v : param_value) : jsstring :=
  match v with
  | PString s => s
  | PNumber n => Number_toString n
  | PBoolean true => js "true"
  | PBoolean false => js "false"
  end.

(** A parsed JSON text. *)
#[warnings="-register-all"] Inductive JSON :=
| JNull
| JBoolean (b : bool)
| JNumber (n : number)
| JString (s : jsstring)
| JArray (items : list JSON)
| JObject (properties : list (jsstring * JSON)).

(** A fetch [Response]: its status and what [response.json()] settles to. *)
Record Response := {
  status : N;
  json : completion JSON
}.

(** [response.ok]: the status is an ok status, 200 to 299. *)
Definition ok (r : Response) : bool := in_range 200 299 (status r).

Variable fetch : jsstring -> RequestInit -> completion Response.

Variable this : ZaimApiClient.

Definition buildUrl (endpoint : jsstring) (queryParams : option RequestParameters) : jsstring :=
  let url := baseUrl this ++ endpoint in
  match queryParams with
  | Some q =>
      if (0 <? List.length (Object_keys q))%nat then
        let searchParams :=
          fold_left (fun sp kv => URLSearchParams_append sp (fst kv) (String_of (snd kv)))
                    (Object_entries q) [] in
        url ++ [QUESTION] ++ URLSearchParams_toString searchParams
      else url
  | None => url
  end.

(** The pairs [buildUrl] appends to its [URLSearchParams]. *)
Definition sent_query (queryParams : RequestParameters) : URLSearchParams :=
  map (fun kv => (toUSVString (fst kv), toUSVString (String_of (snd kv))))
      (Object_entries queryParams).

Definition buildRequestParameters (data : option RequestParameters) : JSObject jsstring :=
  match data with
  | None => []
  | Some d =>
      fold_left (fun params kv => Set_property params (fst kv) (String_of (snd kv)))
                (Object_entries d) []
  end.

Definition oauthParams (env : CallEnv) : JSObject jsstring :=
  [ (js "oauth_consumer_key", consumerKey (config this));
    (js "oauth_nonce", nonce env);
    (js "oauth_signature_method", js "HMAC-SHA1");
    (js "oauth_timestamp", timestamp env);
    (js "oauth_token", accessToken (config this));
    (js "oauth_version", js "1.0") ].

(** [const [baseUrl, queryString] = url.split('?')] *)
Definition url_baseUrl (url : jsstring) : jsstring := nth 0 (split QUESTION url) [].
Definition url_queryString (url : jsstring) : option jsstring := nth_error (split QUESTION url) 1.

Definition extractQueryParams (url : jsstring) : JSObject jsstring :=
  match url_queryString url with
  | Some (c :: qs) =>
      fold_left (fun q kv => Set_property q (fst kv) (snd kv))
                (URLSearchParams_parse (c :: qs)) []
  | Some [] | None => []
  end.

Definition allParams (env : CallEnv) (url : jsstring) (requestParams : JSObject jsstring)
  : JSObject jsstring :=
  spread_into (spread_into (spread_into [] (oauthParams env)) requestParams)
              (extractQueryParams url).

Definition signerCall (env : CallEnv) (method : HttpMethod) (url : jsstring)
    (requestParams : JSObject jsstring) : SignerCall :=
  {| sc_method := HttpMethod_string method;
     sc_url := url_baseUrl url;
     sc_parameters := allParams env url requestParams;
     sc_consumerSecret := consumerSecret (config this);
     sc_tokenSecret := Some (accessTokenSecret (config this)) |}.

(** Signing covers the query parameters that are sent: every pair in
    the query of the URL handed to [fetch] is in the parameter set handed
    to the signer. *)
Definition covers_sent_query (env : CallEnv) (method : HttpMethod) (endpoint : jsstring)
    (data : option RequestParameters) (queryParams : RequestParameters) : Prop :=
  forall qs,
    url_query (buildUrl endpoint (Some queryParams)) = Some qs ->
    forall k v,
      In (k, v) (URLSearchParams_parse qs) ->
      obj_get (sc_parameters (signerCall env method (buildUrl endpoint (Some queryParams))
                                (buildRequestParameters data))) k = Some v.

Definition header_part (kv : jsstring * jsstring) : completion jsstring :=
  v <- encodeURIComponent (snd kv) ;;
  Normal (fst kv ++ [EQUALS; DQUOTE] ++ v ++ [DQUOTE]).

Definition buildAuthorizationHeader (oauthParams : JSObject jsstring) : completion jsstring :=
  headerParts <- mapM header_part (Object_entries oauthParams) ;;
  Normal (js "OAuth " ++ join (js ", ") headerParts).

Definition oauthParamsWithSignature (env : CallEnv) (signature : jsstring) : JSObject jsstring :=
  CreateDataProperty (spread_into [] (oauthParams env)) (js "oauth_signature") signature.

Definition generateAuthHeader (env : CallEnv) (method : HttpMethod) (url : jsstring)
    (requestParams : JSObject jsstring) : completion jsstring :=
  let call := signerCall env method url requestParams in
  signature <- generateOAuthSignature localeCompare toUpperCase hmac_sha1_base64
                 (sc_method call) (sc_url call) (sc_parameters call)
                 (sc_consumerSecret call) (sc_tokenSecret call) ;;
  buildAuthorizationHeader (oauthParamsWithSignature env signature).

Definition form_pair (kv : jsstring * jsstring) : completion jsstring :=
  k <- encodeURIComponent (fst kv) ;;
  v <- encodeURIComponent (snd kv) ;;
  Normal (k ++ [EQUALS] ++ v).

Definition encodeFormData (params : JSObject jsstring) : completion jsstring :=
  parts <- mapM form_pair (Object_entries params) ;;
  Normal (join [AMP] parts).

(** [value.name] for a parsed JSON value: reading a property of
    [null] throws, a primitive or an array has no such property. *)
Definition GetV (value : JSON) (name : jsstring) : completion (option JSON) :=
  match value with
  | JNull =>
      Throw (ErrorObject (js "TypeError")
               (js "Cannot read properties of null (reading '" ++ name ++ js "')"))
  | JObject properties => Normal (obj_get properties name)
  | _ => Normal None
  end.

Definition ToBoolean (v : option JSON) : bool :=
  match v with
  | None | Some JNull => false
  | Some (JBoolean b) => b
  | Some (JNumber n) => Number_toBoolean n
  | Some (JString s) => nonempty s
  | Some (JArray _) | Some (JObject _) => true
  end.

(** [ToString].  An array prints as its elements joined by commas, a
    [null] element as the empty string.  An object made by [JSON.parse]
    prints as ["[object Object]"] through [Object.prototype.toString],
    unless it has an own property [toString], which is not callable and
    leaves [ToPrimitive] without a primitive. *)
Fixpoint ToString (v : JSON) : completion jsstring :=
  match v with
  | JNull => Normal (js "null")
  | JBoolean true => Normal (js "true")
  | JBoolean false => Normal (js "false")
  | JNumber n => Normal (Number_toString n)
  | JString s => Normal s
  | JArray items =>
      parts <- mapM (fun item => match item with
                                 | JNull => Normal []
                                 | _ => ToString item
                                 end) items ;;
      Normal (join (js ",") parts)
  | JObject properties =>
      if has_key (js "toString") properties
      then Throw (ErrorObject (js "TypeError") (js "Cannot convert object to primitive value"))
      else Normal (js "[object Object]")
  end.

(** [errorData.message || errorData.error || 'Unknown error'] *)
Definition errorMessage_of (errorData : JSON) : completion JSON :=
  message <- GetV errorData (js "message") ;;
  if ToBoolean message then
    Normal (match message with Some m => m | None => JNull end)
  else
    error <- GetV errorData (js "error") ;;
    if ToBoolean error then
      Normal (match error with Some e => e | None => JNull end)
    else Normal (JString (js "Unknown error")).

Definition handleResponse (response : Response) : completion JSON :=
  let responseData :=
    match json response with
    | Normal data => data
    | Throw _ => JObject []
    end in
  if negb (ok response) then
    errorMessage <- errorMessage_of responseData ;;
    text <- ToString errorMessage ;;
    Throw (new_Error (js "Zaim API Error: " ++ N_toString (status response)
                        ++ js " - " ++ text))
  else Normal responseData.

Definition sends_body (method : HttpMethod) : bool :=
  match method with POST | PUT => true | GET | DELETE => false end.

(** The [try] block of [request] up to the call of [fetch]: the URL and
    the options [fetch] is called with. *)
Definition prepare_request (env : CallEnv) (method : HttpMethod) (endpoint : jsstring)
    (data queryParams : option RequestParameters) : completion (jsstring * RequestInit) :=
  let url := buildUrl endpoint queryParams in
  let requestParams := buildRequestParameters data in
  authHeader <- generateAuthHeader env method url requestParams ;;
  let headers := [(js "Authorization", authHeader); (js "User-Agent", js "Zaim-MCP-Client/1.0")] in
  requestOptions <-
    (match data with
     | Some _ =>
         if sends_body method then
           body <- encodeFormData requestParams ;;
           Normal {| ri_method := method;
                     ri_headers := CreateDataProperty headers (js "Content-Type")
                                     (js "application/x-www-form-urlencoded");
                     ri_body := Some body |}
         else Normal {| ri_method := method; ri_headers := headers; ri_body := None |}
     | None => Normal {| ri_method := method; ri_headers := headers; ri_body := None |}
     end) ;;
  Normal (url, requestOptions).

(** The [try] block of [request]. *)
Definition request_try (env : CallEnv) (method : HttpMethod) (endpoint : jsstring)
    (data queryParams : option RequestParameters) : completion JSON :=
  call <- prepare_request env method endpoint data queryParams ;;
  response <- fetch (fst call) (snd call) ;;
  handleResponse response.

(** The [catch] block of [request]. *)
Definition request_catch (error : thrown) : thrown :=
  match error with
  | ErrorObject name message =>
      if includes (js "Zaim API Error") message then error
      else new_Error (js "Network error occurred: " ++ message)
  | NonError => new_Error (js "Unknown network error occurred")
  end.

Definition request (env : CallEnv) (method : HttpMethod) (endpoint : jsstring)
    (data queryParams : option RequestParameters) : completion JSON :=
  match request_try env method endpoint data queryParams with
  | Normal r => Normal r
  | Throw error => Throw (request_catch error)
  end.

Definition get env endpoint params := request env GET endpoint None params.
Definition post env endpoint data := request env POST endpoint data None.
Definition put env endpoint data := request env PUT endpoint data None.
Definition delete env endpoint := request env DELETE endpoint None None.
End Client.

Arguments JNull {number}.
Arguments JBoolean {number} b.
Arguments JNumber {number} n.
Arguments JString {number} s.
Arguments JArray {number} items.
Arguments JObject {number} properties.
Arguments PString {number} s.
Arguments PNumber {number} n.
Arguments PBoolean {number} b.
Arguments Build_Response {number} status json.
Arguments status {number} r.
Arguments json {number} r.
Arguments ok {number} r.

(** The error [handleResponse] raises for an error status. *)
Definition api_error (status : N) (message : jsstring) : thrown :=
  new_Error (js "Zaim API Error: " ++ N_toString status ++ js " - " ++ message).

(** The marker the [catch] block of [request] looks for. *)
Definition API_ERROR_MARKER : jsstring := js "Zaim API Error".

(** ** Orderings the specification refers to *)

(** Lexicographic comparison by UTF-16 code unit; on the ASCII output of
    [encodeURIComponent] this is the byte ordering of RFC 5849, 3.4.1.3.2. *)
Fixpoint code_unit_compare (a b : jsstring) : Z :=
  match a, b with
  | [], [] => 0%Z
  | [], _ :: _ => (-1)%Z
  | _ :: _, [] => 1%Z
  | x :: a', y :: b' =>
      if x <? y then (-1)%Z else if y <? x then 1%Z else code_unit_compare a' b'
  end.

(** The unreserved characters of RFC 3986: letters, digits, [- . _ ~]. *)
Definition rfc3986_unreserved (c : code_unit) : bool := is_alnum c || mem_unit c (js "-._~").

(** An alphabetical comparator: a letter sorts before the next letter of
    the alphabet whatever its case, lower case first; the other ASCII
    characters come before the letters and the remaining code units after
    them, by code unit. *)
Definition alphabetic_weight (c : code_unit) : N :=
  if is_lower c then 128 + 2 * (c - 97)
  else if is_upper c then 129 + 2 * (c - 65)
  else if c <? 128 then c
  else c + 52.

Definition alphabetic_compare (a b : jsstring) : Z :=
  code_unit_compare (map alphabetic_weight a) (map alphabetic_weight b).

(** ASCII upper-casing. *)
Definition ascii_toUpperCase (s : jsstring) : jsstring :=
  map (fun c => if is_lower c then c - 32 else c) s.

(** A code unit is 16 bits wide. *)
Definition valid_string (s : jsstring) : Prop := Forall (fun c => c < 65536) s.

(** The alphabet of [encodeURIComponent]'s output. *)
Definition uri_char (c : code_unit) : bool := uriUnescaped c || (c =? PERCENT).

(** ** A concrete platform for closed examples

    Integral numbers printed in decimal, a constant digest, ASCII
    upper-casing and the alphabetical comparator above. *)

Definition sample_hmac (key data : jsstring) : jsstring := js "c2lnbmF0dXJl".

Definition N_toBoolean (n : N) : bool := negb (n =? 0).

Definition sample_config : OAuthConfig :=
  {| consumerKey := js "test_consumer_key";
     consumerSecret := js "test_consumer_secret";
     accessToken := js "test_access_token";
     accessTokenSecret := js "test_access_token_secret" |}.

Definition sample_client : ZaimApiClient :=
  {| config := sample_config; baseUrl := js "https://api.zaim.net" |}.

Definition sample_env : CallEnv := {| nonce := js "kllo9940pd9333jh"; timestamp := js "1191242096" |}.

(** The client over the concrete platform and a given transport. *)
Definition sample_request (fetch : jsstring -> RequestInit -> completion (Response N)) :=
  request alphabetic_compare ascii_toUpperCase sample_hmac N N_toString N_toBoolean
          fetch sample_client sample_env.

Definition sample_prepare_request :=
  prepare_request alphabetic_compare ascii_toUpperCase sample_hmac N N_toString
                  sample_client sample_env.

(** Sample inputs. *)

Definition blank_config : OAuthConfig :=
  {| consumerKey := js " "; consumerSecret := js "secret";
     accessToken := js "token"; accessTokenSecret := js "token_secret" |}.

Definition empty_config : OAuthConfig :=
  {| consumerKey := []; consumerSecret := js "secret";
     accessToken := js "token"; accessTokenSecret := js "token_secret" |}.

Definition null_body_response {number : Type} : Response number :=
  {| status := 500; json := Normal JNull |}.

Definition null_TypeError : thrown :=
  ErrorObject (js "TypeError") (js "Cannot read properties of null (reading 'message')").

(** The error of [fetch] for a URL that does not parse (Node 22). *)
Definition marked_transport_error : thrown :=
  ErrorObject (js "TypeError")
    (js "Failed to parse URL from https://api.zaim.netZaim API Error").

Definition rejecting_fetch (e : thrown) (url : jsstring) (options : RequestInit)
  : completion (Response N) := Throw e.

(** The characters of a serialized name or value. *)
Definition urlencoded_char (c : code_unit) : bool :=
  (c =? PLUS) || urlencoded_safe c || (c =? PERCENT).

(** A Unicode scalar value: a code point that is not a surrogate. *)
Definition is_scalar (cp : N) : Prop := cp < 0x110000 /\ ~ (0xD800 <= cp <= 0xDFFF).

(** The percent-encoding of RFC 3986 in the words of the specification:
    letters, digits and [- . _ ~] stay as they are, every other character
    becomes the percent-escaped octets of its UTF-8 encoding.  This is the
    yardstick the code's [encodeURIComponent] is compared with; no
    function of the source computes it. *)
Definition rfc3986_percent_encode (s : jsstring) : jsstring :=
  flat_map (fun cp => if rfc3986_unreserved cp then [cp] else percent_octets (utf8_octets cp))
           (scalar_values s).

(** The marks [encodeURIComponent] leaves alone beyond the unreserved set. *)
Definition five_marks : jsstring := js "!*'()".

Definition has_no_mark (s : jsstring) : bool :=
  forallb (fun c => negb (mem_unit c five_marks)) s.

(** Names and values are strings of 16-bit code units. *)
Definition entries_valid_strings (p : JSObject jsstring) : Prop :=
  Forall (fun kv => valid_string (fst kv) /\ valid_string (snd kv)) p.

(** The token secret as [constructSigningKey] reads it: absent is empty. *)
Definition secret_or_empty (tokenSecret : option jsstring) : jsstring :=
  match tokenSecret with Some s => s | None => [] end.

(** A string of 16-bit code units without unpaired surrogate. *)
Definition usv_string (s : jsstring) : Prop := valid_string s /\ isWellFormed s = true.

(** A lone leading surrogate. *)
Definition lone_surrogate : jsstring := [0xD83D].


(** No string handed to the signer has an unpaired surrogate. *)
Definition signer_strings_wellformed (url : jsstring) (parameters : JSObject jsstring)
    (consumerSecret : jsstring) (tokenSecret : option jsstring) : bool :=
  forallb (fun kv => isWellFormed (fst kv) && isWellFormed (snd kv)) parameters
  && isWellFormed url && isWellFormed consumerSecret
  && isWellFormed (secret_or_empty tokenSecret).

(** ** TokenStorage: src/utils/token-storage.ts

    [process.env] is an object from variable names to strings. *)

Definition REQUIRED_ENV_VARS : list jsstring :=
  [js "ZAIM_CONSUMER_KEY"; js "ZAIM_CONSUMER_SECRET";
   js "ZAIM_ACCESS_TOKEN"; js "ZAIM_ACCESS_TOKEN_SECRET"].

Definition getRequiredEnvVars : list jsstring := REQUIRED_ENV_VARS.

(** [!value || value.trim() === ''] *)
Definition env_var_missing (value : option jsstring) : bool :=
  match value with
  | None => true
  | Some v => negb (nonempty v) || negb (nonempty (trim v))
  end.

Definition getRequiredEnvVar (process_env : JSObject jsstring) (varName : jsstring)
  : completion jsstring :=
  let value := obj_get process_env varName in
  if env_var_missing value then
    Throw (new_Error (js "Missing required environment variable: " ++ varName))
  else Normal (trim (match value with Some v => v | None => [] end)).

Definition getOAuthConfig (process_env : JSObject jsstring) : completion OAuthConfig :=
  consumerKey <- getRequiredEnvVar process_env (js "ZAIM_CONSUMER_KEY") ;;
  consumerSecret <- getRequiredEnvVar process_env (js "ZAIM_CONSUMER_SECRET") ;;
  accessToken <- getRequiredEnvVar process_env (js "ZAIM_ACCESS_TOKEN") ;;
  accessTokenSecret <- getRequiredEnvVar process_env (js "ZAIM_ACCESS_TOKEN_SECRET") ;;
  Normal {| consumerKey := consumerKey; consumerSecret := consumerSecret;
            accessToken := accessToken; accessTokenSecret := accessTokenSecret |}.

Record EnvironmentCheckResult := {
  isValid : bool;
  missingVars : list jsstring;
  message : jsstring
}.

Definition checkEnvironment (process_env : JSObject jsstring) : EnvironmentCheckResult :=
  let missingVars :=
    filter (fun varName => env_var_missing (obj_get process_env varName)) REQUIRED_ENV_VARS in
  match missingVars with
  | [] => {| isValid := true; missingVars := [];
             message := js "All required environment variables are set" |}
  | _ :: _ => {| isValid := false; missingVars := missingVars;
                 message := js "Missing required environment variables: "
                            ++ join (js ", ") missingVars |}
  end.

(** [process.env[varName]], the empty string standing for [undefined]. *)
Definition env_value (process_env : JSObject jsstring) (varName : jsstring) : jsstring :=
  match obj_get process_env varName with Some v => v | None => [] end.

Definition createZaimApiClient (process_env : JSObject jsstring) : completion ZaimApiClient :=
  config <- getOAuthConfig process_env ;;
  new_ZaimApiClient config.

(** ** A call site: getMoneyRecordsTool, src/tools/money/money-read-tools.ts *)

(** A string literal of the source that is not ASCII, from its UTF-8 text. *)
Definition jsu (s : string) : jsstring := utf8_decode (js s).

Inductive RecordMode := payment | income | transfer.

Definition RecordMode_string (m : RecordMode) : jsstring :=
  match m with
  | payment => js "payment"
  | income => js "income"
  | transfer => js "transfer"
  end.

Section MoneyReadTools.
Variable localeCompare : jsstring -> jsstring -> Z.
Variable toUpperCase : jsstring -> jsstring.
Variable hmac_sha1_base64 : jsstring -> jsstring -> jsstring.
Variable number : Type.
Variable Number_toString : number -> jsstring.
Variable Number_toBoolean : number -> bool.
Variable fetch : jsstring -> RequestInit -> completion (Response number).

Record GetMoneyRecordsInput := {
  in_mode : option RecordMode;
  in_start_date : option jsstring;
  in_end_date : option jsstring;
  in_category_id : option number;
  in_limit : option number;
  in_page : option number
}.

Record GetMoneyRecordsOutput := {
  out_records : list (JSON number);
  out_count : N;
  out_success : bool;
  out_message : jsstring
}.

(** [if (input.x) { params.x = input.x; }] for a string and for a number. *)
Definition add_string_param (name : jsstring) (value : option jsstring)
    (params : RequestParameters number) : RequestParameters number :=
  match value with
  | Some (c :: v) => Set_property params name (PString (c :: v))
  | Some [] | None => params
  end.

Definition add_number_param (name : jsstring) (value : option number)
    (params : RequestParameters number) : RequestParameters number :=
  match value with
  | Some n => if Number_toBoolean n then Set_property params name (PNumber n) else params
  | None => params
  end.

(** The query parameters the tool builds from its input. *)
Definition getMoneyRecords_params (input : GetMoneyRecordsInput) : RequestParameters number :=
  let params := [] in
  let params := add_string_param (js "mode") (option_map RecordMode_string (in_mode input)) params in
  let params := add_string_param (js "start_date") (in_start_date input) params in
  let params := add_string_param (js "end_date") (in_end_date input) params in
  let params := add_number_param (js "category_id") (in_category_id input) params in
  let params := add_number_param (js "limit") (in_limit input) params in
  add_number_param (js "page") (in_page input) params.

(** [typeof value === 'object'] *)
Definition typeof_object (value : JSON number) : bool :=
  match value with
  | JNull | JArray _ | JObject _ => true
  | _ => false
  end.

(** [response.money] when it is an array. *)
Definition money_array (response : JSON number) : option (list (JSON number)) :=
  match response with
  | JObject properties =>
      match obj_get properties (js "money") with
      | Some (JArray records) => Some records
      | _ => None
      end
  | _ => None
  end.

(** [!response || typeof response !== 'object' || !Array.isArray(response.money)] *)
Definition invalid_money_response (response : JSON number) : bool :=
  negb (ToBoolean number Number_toBoolean (Some response))
  || negb (typeof_object response)
  || match money_array response with Some _ => false | None => true end.

Definition getMoneyRecordsTool (process_env : JSObject jsstring) (env : CallEnv)
    (input : GetMoneyRecordsInput) : GetMoneyRecordsOutput :=
  match
    (client <- createZaimApiClient process_env ;;
     get localeCompare toUpperCase hmac_sha1_base64 number Number_toString Number_toBoolean
         fetch client env (js "/v2/home/money") (Some (getMoneyRecords_params input)))
  with
  | Normal response =>
      if invalid_money_response response then
        {| out_records := []; out_count := 0; out_success := false;
           out_message := jsu "記録の取得に失敗しました: 無効なレスポンス形式" |}
      else
        let records := match money_array response with Some r => r | None => [] end in
        {| out_records := records;
           out_count := N.of_nat (List.length records);
           out_success := true;
           out_message := N_toString (N.of_nat (List.length records))
                          ++ jsu "件の記録を取得しました" |}
  | Throw error =>
      let errorMessage :=
        match error with
        | ErrorObject _ message => message
        | NonError => jsu "不明なエラー"
        end in
      {| out_records := []; out_count := 0; out_success := false;
         out_message := jsu "記録の取得に失敗しました: " ++ errorMessage |}
  end.
End MoneyReadTools.

(** ** Other call sites: money-write-tools.ts, money-delete-tools.ts,
       auth/user-tools.ts

    A field that may be [undefined] is [None]; the value [null] of a
    result is [Some JNull]. *)

Section RecordTools.
Variable localeCompare : jsstring -> jsstring -> Z.
Variable toUpperCase : jsstring -> jsstring.
Variable hmac_sha1_base64 : jsstring -> jsstring -> jsstring.
Variable number : Type.
Variable Number_toString : number -> jsstring.
Variable Number_toBoolean : number -> bool.
Variable fetch : jsstring -> RequestInit -> completion (Response number).

Local Abbreviation truthy := (ToBoolean number Number_toBoolean).

(** [error instanceof Error ? error.message : '不明なエラー'] *)
Definition errorMessage_or_unknown (error : thrown) : jsstring :=
  match error with
  | ErrorObject _ message => message
  | NonError => jsu "不明なエラー"
  end.

(** [!response || typeof response !== 'object' || !response[name]]; the
    property is read only from a value that is not [null]. *)
Definition lacks_property (response : JSON number) (name : jsstring) : completion bool :=
  if negb (truthy (Some response)) || negb (typeof_object number response) then Normal true
  else value <- GetV number response name ;; Normal (negb (truthy value)).

(** [Array.isArray(money) ? money[0] : money] *)
Definition first_or_self (money : JSON number) : option (JSON number) :=
  match money with
  | JArray items => nth_error items 0
  | _ => Some money
  end.

(** *** createPaymentTool *)

Record CreatePaymentInput := {
  pay_amount : number;
  pay_date : jsstring;
  pay_category_id : number;
  pay_genre_id : option number;
  pay_from_account_id : option number;
  pay_place : option jsstring;
  pay_comment : option jsstring;
  pay_name : option jsstring
}.

Record CreateMoneyRecordOutput := {
  cr_record : option (JSON number);
  cr_success : bool;
  cr_message : jsstring
}.

(** [if (input.x !== undefined) body.x = input.x;] *)
Definition set_defined_number (name : jsstring) (value : option number)
    (body : RequestParameters number) : RequestParameters number :=
  match value with
  | Some n => Set_property body name (PNumber n)
  | None => body
  end.

Definition set_defined_string (name : jsstring) (value : option jsstring)
    (body : RequestParameters number) : RequestParameters number :=
  match value with
  | Some s => Set_property body name (PString s)
  | None => body
  end.

Definition createPayment_body (input : CreatePaymentInput) : RequestParameters number :=
  let body := [(js "amount", PNumber (pay_amount input));
               (js "date", PString (pay_date input));
               (js "category_id", PNumber (pay_category_id input))] in
  let body := set_defined_number (js "genre_id") (pay_genre_id input) body in
  let body := set_defined_number (js "from_account_id") (pay_from_account_id input) body in
  let body := set_defined_string (js "place") (pay_place input) body in
  let body := set_defined_string (js "comment") (pay_comment input) body in
  set_defined_string (js "name") (pay_name input) body.

Definition createPaymentTool (process_env : JSObject jsstring) (env : CallEnv)
    (input : CreatePaymentInput) : CreateMoneyRecordOutput :=
  match
    (client <- createZaimApiClient process_env ;;
     response <- post localeCompare toUpperCase hmac_sha1_base64 number Number_toString
                   Number_toBoolean fetch client env (js "/v2/home/money/payment")
                   (Some (createPayment_body input)) ;;
     invalid <- lacks_property response (js "money") ;;
     if invalid then
       Normal {| cr_record := Some JNull; cr_success := false;
                 cr_message := jsu "支出記録の作成に失敗しました: 無効なレスポンス形式" |}
     else
       money <- GetV number response (js "money") ;;
       Normal {| cr_record := match money with
                              | Some m => first_or_self m
                              | None => None
                              end;
                 cr_success := true;
                 cr_message := jsu "支出記録を作成しました" |})
  with
  | Normal output => output
  | Throw error =>
      {| cr_record := Some JNull; cr_success := false;
         cr_message := jsu "支出記録の作成に失敗しました: " ++ errorMessage_or_unknown error |}
  end.

(** *** deleteMoneyRecordTool *)

Record DeleteMoneyRecordInput := {
  del_id : number;
  del_mode : RecordMode
}.

Record DeleteMoneyRecordOutput := {
  deleted_record : option (JSON number);
  del_success : bool;
  del_message : jsstring
}.

(** [`/v2/home/money/${input.mode}/${input.id}`] *)
Definition deleteMoneyRecord_endpoint (input : DeleteMoneyRecordInput) : jsstring :=
  js "/v2/home/money/" ++ RecordMode_string (del_mode input) ++ js "/"
  ++ Number_toString (del_id input).

Definition deleteMoneyRecordTool (process_env : JSObject jsstring) (env : CallEnv)
    (input : DeleteMoneyRecordInput) : DeleteMoneyRecordOutput :=
  match
    (client <- createZaimApiClient process_env ;;
     response <- delete localeCompare toUpperCase hmac_sha1_base64 number Number_toString
                   Number_toBoolean fetch client env (deleteMoneyRecord_endpoint input) ;;
     invalid <- lacks_property response (js "money") ;;
     if invalid then
       Normal {| deleted_record := Some JNull; del_success := false;
                 del_message := jsu "記録の削除に失敗しました: 無効なレスポンス形式" |}
     else
       money <- GetV number response (js "money") ;;
       Normal {| deleted_record := money; del_success := true;
                 del_message := jsu "記録を削除しました" |})
  with
  | Normal output => output
  | Throw error =>
      {| deleted_record := Some JNull; del_success := false;
         del_message := jsu "記録の削除に失敗しました: " ++ errorMessage_or_unknown error |}
  end.

(** *** checkAuthStatusTool *)

Record AuthUser := {
  user_id : option (JSON number);
  user_login : option (JSON number);
  user_name : option (JSON number)
}.

(** [auth_user] is [None] for [null]. *)
Record CheckAuthStatusOutput := {
  isAuthenticated : bool;
  auth_user : option AuthUser;
  auth_message : jsstring
}.

Definition checkAuthStatusTool (process_env : JSObject jsstring) (env : CallEnv)
  : CheckAuthStatusOutput :=
  match
    (client <- createZaimApiClient process_env ;;
     response <- get localeCompare toUpperCase hmac_sha1_base64 number Number_toString
                   Number_toBoolean fetch client env (js "/v2/home/user/verify") None ;;
     invalid <- lacks_property response (js "me") ;;
     if invalid then
       Normal {| isAuthenticated := false; auth_user := None;
                 auth_message := jsu "認証に失敗しました: 無効なレスポンス形式" |}
     else
       me <- GetV number response (js "me") ;;
       let userData := match me with Some u => u | None => JNull end in
       id <- GetV number userData (js "id") ;;
       name <- (if truthy id then GetV number userData (js "name") else Normal None) ;;
       if negb (truthy id) || negb (truthy name) then
         Normal {| isAuthenticated := false; auth_user := None;
                   auth_message := jsu "認証に失敗しました: 無効なユーザーデータ" |}
       else
         login <- GetV number userData (js "login") ;;
         Normal {| isAuthenticated := true;
                   auth_user :=
                     Some {| user_id := id;
                             user_login := if truthy login then login else Some (JString []);
                             user_name := name |};
                   auth_message := jsu "認証に成功しました" |})
  with
  | Normal output => output
  | Throw error =>
      {| isAuthenticated := false; auth_user := None;
         auth_message := jsu "認証に失敗しました: " ++ errorMessage_or_unknown error |}
  end.
End RecordTools.

Arguments cr_record {number} c.
Arguments cr_success {number} c.
Arguments cr_message {number} c.
Arguments deleted_record {number} d.
Arguments del_success {number} d.
Arguments del_message {number} d.
Arguments del_id {number} d.
Arguments del_mode {number} d.
Arguments isAuthenticated {number} c.
Arguments auth_user {number} c.
Arguments auth_message {number} c.
Arguments user_id {number} a.
Arguments user_login {number} a.
Arguments user_name {number} a.

Arguments in_mode {number} g.
Arguments in_start_date {number} g.
Arguments in_end_date {number} g.
Arguments in_category_id {number} g.
Arguments in_limit {number} g.
Arguments in_page {number} g.
Arguments out_records {number} g.
Arguments out_count {number} g.
Arguments out_success {number} g.
Arguments out_message {number} g.

(** An environment with the four variables set, and a search. *)
Definition sample_process_env : JSObject jsstring :=
  [(js "ZAIM_CONSUMER_KEY", js " test_consumer_key");
   (js "ZAIM_CONSUMER_SECRET", js "test_consumer_secret");
   (js "ZAIM_ACCESS_TOKEN", js "test_access_token");
   (js "ZAIM_ACCESS_TOKEN_SECRET", js "test_access_token_secret ")].

Definition sample_input : GetMoneyRecordsInput N :=
  {| in_mode := Some payment;
     in_start_date := Some (js "2024-01-01");
     in_end_date := Some [];
     in_category_id := None;
     in_limit := Some 0;
     in_page := Some 2 |}.

(* ================================================================== *)
(** * Part II. Properties                                              *)
(* ================================================================== *)

(** ** Completions *)

Lemma bind_Normal {A B} (c : completion A) (k : A -> completion B) (b : B) :
  bind c k = Normal b -> exists a, c = Normal a /\ k a = Normal b.
Proof. destruct c as [a|e]; simpl; intros H; [eauto | discriminate]. Qed.

Lemma bind_Throw {A B} (c : completion A) (k : A -> completion B) (e : thrown) :
  bind c k = Throw e -> c = Throw e \/ exists a, c = Normal a /\ k a = Throw e.
Proof. destruct c as [a|e']; simpl; intros H; [right; eauto | left; congruence]. Qed.

Lemma jsstring_eqb_eq (a b : jsstring) : jsstring_eqb a b = true <-> a = b.
Proof. unfold jsstring_eqb; destruct (list_eq_dec N.eq_dec a b); split; congruence. Qed.

Lemma jsstring_eqb_refl (a : jsstring) : jsstring_eqb a a = true.
Proof. now apply jsstring_eqb_eq. Qed.

Lemma jsstring_eqb_neq (a b : jsstring) : jsstring_eqb a b = false <-> a <> b.
Proof. unfold jsstring_eqb; destruct (list_eq_dec N.eq_dec a b); split; congruence. Qed.

(** ** UTF-8: decoding what was encoded *)

Ltac Zify.zify_post_hook ::= Z.to_euclidean_division_equations.

Lemma in_range_true lo hi c : lo <= c <= hi -> in_range lo hi c = true.
Proof. unfold in_range. intros [H1 H2]. apply andb_true_iff. split; apply N.leb_le; assumption. Qed.

Lemma in_range_false lo hi c : c < lo \/ hi < c -> in_range lo hi c = false.
Proof. unfold in_range. intros [H|H]; apply andb_false_iff; [left|right]; apply N.leb_gt; assumption. Qed.

Lemma in_range_spec lo hi c : in_range lo hi c = true <-> lo <= c <= hi.
Proof. unfold in_range. rewrite andb_true_iff, !N.leb_le. reflexivity. Qed.

Lemma u8_lead_1 b : b <= 0x7F -> u8_lead b = ([b], u8_initial).
Proof. intros H. unfold u8_lead. apply N.leb_le in H. rewrite H. reflexivity. Qed.

Lemma u8_lead_2 b :
  0xC2 <= b <= 0xDF ->
  u8_lead b = ([], {| u8_code_point := b mod 32; u8_seen := 0; u8_needed := 1;
                       u8_lower := 0x80; u8_upper := 0xBF |}).
Proof.
  intros H. unfold u8_lead.
  replace (b <=? 0x7F) with false by (symmetry; apply N.leb_gt; lia).
  rewrite in_range_true by lia. reflexivity.
Qed.

Lemma u8_lead_3 b :
  0xE0 <= b <= 0xEF ->
  u8_lead b = ([], {| u8_code_point := b mod 16; u8_seen := 0; u8_needed := 2;
                       u8_lower := if b =? 0xE0 then 0xA0 else 0x80;
                       u8_upper := if b =? 0xED then 0x9F else 0xBF |}).
Proof.
  intros H. unfold u8_lead.
  replace (b <=? 0x7F) with false by (symmetry; apply N.leb_gt; lia).
  rewrite (in_range_false 0xC2 0xDF) by lia.
  rewrite in_range_true by lia. reflexivity.
Qed.

Lemma u8_lead_4 b :
  0xF0 <= b <= 0xF4 ->
  u8_lead b = ([], {| u8_code_point := b mod 8; u8_seen := 0; u8_needed := 3;
                       u8_lower := if b =? 0xF0 then 0x90 else 0x80;
                       u8_upper := if b =? 0xF4 then 0x8F else 0xBF |}).
Proof.
  intros H. unfold u8_lead.
  replace (b <=? 0x7F) with false by (symmetry; apply N.leb_gt; lia).
  rewrite (in_range_false 0xC2 0xDF) by lia.
  rewrite (in_range_false 0xE0 0xEF) by lia.
  rewrite in_range_true by lia. reflexivity.
Qed.

(** A continuation byte inside the window of a state that needs more. *)
Lemma u8_step_more st b :
  u8_seen st + 1 < u8_needed st -> u8_lower st <= b <= u8_upper st ->
  u8_step st b =
  ([], {| u8_code_point := u8_code_point st * 64 + b mod 64;
          u8_seen := u8_seen st + 1; u8_needed := u8_needed st;
          u8_lower := 0x80; u8_upper := 0xBF |}).
Proof.
  intros Hn Hb. unfold u8_step.
  replace (u8_needed st =? 0) with false by (symmetry; apply N.eqb_neq; lia).
  rewrite in_range_true by assumption.
  replace (u8_seen st + 1 =? u8_needed st) with false by (symmetry; apply N.eqb_neq; lia).
  reflexivity.
Qed.

(** The last continuation byte completes the code point. *)
Lemma u8_step_last st b :
  u8_seen st + 1 = u8_needed st -> u8_lower st <= b <= u8_upper st ->
  u8_step st b = ([u8_code_point st * 64 + b mod 64], u8_initial).
Proof.
  intros Hn Hb. unfold u8_step.
  replace (u8_needed st =? 0) with false by (symmetry; apply N.eqb_neq; lia).
  rewrite in_range_true by assumption.
  apply N.eqb_eq in Hn. rewrite Hn. reflexivity.
Qed.

Ltac u8_side := cbn [u8_lower u8_upper u8_needed u8_seen u8_code_point]; lia.

Lemma utf8_decode_octets cp rest :
  is_scalar cp ->
  utf8_decode_from u8_initial (utf8_octets cp ++ rest) = cp :: utf8_decode_from u8_initial rest.
Proof.
  intros [Hlt Hns]. unfold utf8_octets.
  destruct (N.ltb_spec cp 0x80) as [H1|H1]; [|destruct (N.ltb_spec cp 0x800) as [H2|H2];
    [|destruct (N.ltb_spec cp 0x10000) as [H3|H3]]];
    cbn [app utf8_decode_from]; unfold u8_step at 1; cbn [u8_needed u8_initial N.eqb].
  - rewrite u8_lead_1 by lia. reflexivity.
  - rewrite u8_lead_2 by lia.
    rewrite u8_step_last by u8_side.
    cbn [u8_code_point app]. f_equal. lia.
  - rewrite u8_lead_3 by lia.
    rewrite u8_step_more.
    2: u8_side.
    2: { cbn [u8_lower u8_upper].
         destruct (N.eqb_spec (224 + cp / 4096) 224); destruct (N.eqb_spec (224 + cp / 4096) 237); lia. }
    rewrite u8_step_last by u8_side.
    cbn [u8_code_point app]. f_equal. lia.
  - rewrite u8_lead_4 by lia.
    rewrite u8_step_more.
    2: u8_side.
    2: { cbn [u8_lower u8_upper].
         destruct (N.eqb_spec (240 + cp / 262144) 240); destruct (N.eqb_spec (240 + cp / 262144) 244); lia. }
    rewrite u8_step_more by u8_side.
    rewrite u8_step_last by u8_side.
    cbn [u8_code_point app]. f_equal. lia.
Qed.
Lemma list_ind2 {A} (P : list A -> Prop) :
  P [] -> (forall a, P [a]) -> (forall a b l, P l -> P (b :: l) -> P (a :: b :: l)) ->
  forall l, P l.
Proof.
  intros H0 H1 H2 l.
  enough (H : P l /\ forall a, P (a :: l)) by apply H.
  induction l as [|b l [IH1 IH2]]; split; auto.
Qed.

Lemma replacement_scalar : is_scalar REPLACEMENT.
Proof. unfold is_scalar, REPLACEMENT. lia. Qed.

Lemma scalar_values_scalar (s : jsstring) :
  valid_string s -> Forall is_scalar (scalar_values s).
Proof.
  induction s as [| c | c d s IH1 IH2] using list_ind2; intros Hv.
  - constructor.
  - inversion_clear Hv as [|? ? Hc _]. simpl.
    destruct (is_trailing_surrogate c) eqn:Ht; [repeat constructor; apply replacement_scalar|].
    destruct (is_leading_surrogate c) eqn:Hl; [repeat constructor; apply replacement_scalar|].
    repeat constructor; unfold is_trailing_surrogate, is_leading_surrogate in *.
    + lia.
    + intros Hr. 
      destruct (N.le_gt_cases c 0xDBFF).
      * rewrite in_range_true in Hl by lia. discriminate.
      * rewrite in_range_true in Ht by lia. discriminate.
  - inversion Hv as [|? ? Hc Hv']; subst. inversion Hv' as [|? ? Hd Hv'']; subst.
    specialize (IH1 Hv''). specialize (IH2 Hv').
    change (scalar_values (c :: d :: s)) with
      (if is_trailing_surrogate c then REPLACEMENT :: scalar_values (d :: s)
       else if is_leading_surrogate c then
              if is_trailing_surrogate d
              then ((c - 0xD800) * 0x400 + (d - 0xDC00) + 0x10000) :: scalar_values s
              else REPLACEMENT :: scalar_values (d :: s)
            else c :: scalar_values (d :: s)).
    destruct (is_trailing_surrogate c) eqn:Ht.
    { constructor; [apply replacement_scalar | assumption]. }
    destruct (is_leading_surrogate c) eqn:Hl.
    + destruct (is_trailing_surrogate d) eqn:Hd'.
      * constructor; [|assumption].
        apply in_range_spec in Hl. apply in_range_spec in Hd'. unfold is_scalar. lia.
      * constructor; [apply replacement_scalar | assumption].
    + constructor; [|assumption].
      unfold is_trailing_surrogate, is_leading_surrogate in *. split; [lia|].
      intros Hr. destruct (N.le_gt_cases c 0xDBFF).
      * rewrite in_range_true in Hl by lia. discriminate.
      * rewrite in_range_true in Ht by lia. discriminate.
Qed.

Lemma utf8_decode_from_octets (cps : list N) :
  Forall is_scalar cps -> utf8_decode_from u8_initial (flat_map utf8_octets cps) = cps.
Proof.
  induction 1 as [|cp cps Hcp _ IH]; [reflexivity|].
  cbn [flat_map]. rewrite utf8_decode_octets by assumption. now rewrite IH.
Qed.

(** Decoding the UTF-8 encoding of a string gives the string back, with
    unpaired surrogates replaced. *)
Lemma utf8_decode_encode (s : jsstring) :
  valid_string s -> utf8_decode (utf8_encode s) = toUSVString s.
Proof.
  intros Hv. unfold utf8_decode, utf8_encode, toUSVString.
  now rewrite utf8_decode_from_octets by (apply scalar_values_scalar; assumption).
Qed.

Lemma toUSVString_wellformed (s : jsstring) :
  valid_string s -> isWellFormed s = true -> toUSVString s = s.
Proof.
  unfold toUSVString.
  induction s as [| c | c d s IH1 IH2] using list_ind2; intros Hv Hw.
  - reflexivity.
  - inversion_clear Hv as [|? ? Hc _]. simpl in *.
    destruct (is_trailing_surrogate c); [discriminate|].
    destruct (is_leading_surrogate c); [discriminate|].
    simpl. unfold utf16_units. replace (c <? 65536) with true by (symmetry; apply N.ltb_lt; lia).
    reflexivity.
  - inversion Hv as [|? ? Hc Hv']; subst. inversion Hv' as [|? ? Hd Hv'']; subst.
    specialize (IH1 Hv''). specialize (IH2 Hv').
    change (isWellFormed (c :: d :: s)) with
      (if is_trailing_surrogate c then false
       else if is_leading_surrogate c then is_trailing_surrogate d && isWellFormed s
            else isWellFormed (d :: s)) in Hw.
    change (scalar_values (c :: d :: s)) with
      (if is_trailing_surrogate c then REPLACEMENT :: scalar_values (d :: s)
       else if is_leading_surrogate c then
              if is_trailing_surrogate d
              then ((c - 0xD800) * 0x400 + (d - 0xDC00) + 0x10000) :: scalar_values s
              else REPLACEMENT :: scalar_values (d :: s)
            else c :: scalar_values (d :: s)).
    destruct (is_trailing_surrogate c) eqn:Ht; [discriminate|].
    destruct (is_leading_surrogate c) eqn:Hl.
    + apply andb_true_iff in Hw as [Hd' Hw]. rewrite Hd'.
      cbn [utf16_encode flat_map]. fold (utf16_encode (scalar_values s)).
      rewrite IH1 by assumption.
      apply in_range_spec in Hl. apply in_range_spec in Hd'.
      unfold utf16_units.
      replace (_ <? 65536) with false by (symmetry; apply N.ltb_ge; lia).
      cbn [app]. f_equal; [|f_equal]; lia.
    + cbn [utf16_encode flat_map]. fold (utf16_encode (scalar_values (d :: s))).
      rewrite IH2 by assumption.
      unfold utf16_units. replace (c <? 65536) with true by (symmetry; apply N.ltb_lt; lia).
      reflexivity.
Qed.

(** ** Percent-decoding what was percent-encoded *)

Lemma hex_value_hex_digit (d : N) : d < 16 -> hex_value (hex_digit d) = Some d.
Proof.
  intros Hd. unfold hex_digit, hex_value, is_digit.
  destruct (N.ltb_spec d 10).
  - rewrite in_range_true by lia. f_equal. lia.
  - rewrite in_range_false by lia. rewrite in_range_true by lia. f_equal. lia.
Qed.

Lemma percent_decode_octet (b : N) (rest : list N) :
  b < 256 -> percent_decode (percent_octet b ++ rest) = b :: percent_decode rest.
Proof.
  intros Hb. unfold percent_octet. cbn [app percent_decode].
  change (PERCENT =? PERCENT) with true. cbv iota.
  rewrite !hex_value_hex_digit by lia. f_equal. lia.
Qed.

Lemma percent_decode_octets (bs rest : list N) :
  Forall (fun b => b < 256) bs ->
  percent_decode (percent_octets bs ++ rest) = bs ++ percent_decode rest.
Proof.
  induction 1 as [|b bs Hb _ IH]; [reflexivity|].
  unfold percent_octets in *. cbn [flat_map]. rewrite <- app_assoc.
  rewrite percent_decode_octet by assumption. cbn [app]. now rewrite IH.
Qed.

Lemma percent_decode_literal (c : N) (rest : list N) :
  c <> PERCENT -> percent_decode (c :: rest) = c :: percent_decode rest.
Proof. intros Hc. cbn [percent_decode]. apply N.eqb_neq in Hc. now rewrite Hc. Qed.

Lemma utf8_octets_bytes (cp : N) :
  cp < 0x110000 -> Forall (fun b => b < 256) (utf8_octets cp).
Proof.
  intros Hcp. unfold utf8_octets.
  destruct (N.ltb_spec cp 0x80); [|destruct (N.ltb_spec cp 0x800); [|destruct (N.ltb_spec cp 0x10000)]];
    repeat constructor; lia.
Qed.

(** The characters [encodeURIComponent] keeps are ASCII and none is ['%']. *)
Lemma uriUnescaped_ascii (c : code_unit) : uriUnescaped c = true -> c < 128 /\ c <> PERCENT.
Proof.
  unfold uriUnescaped, is_alnum, is_upper, is_lower, is_digit, mem_unit, uriMark, PERCENT.
  cbn [js list_ascii_of_string map existsb unit_of_ascii N_of_ascii N_of_digits].
  rewrite !orb_true_iff, !in_range_spec, !N.eqb_eq. cbn. lia.
Qed.

Lemma hex_digit_uri_char (d : N) : d < 16 -> uri_char (hex_digit d) = true.
Proof.
  intros Hd. unfold uri_char, uriUnescaped, is_alnum, is_upper, is_digit, hex_digit.
  destruct (N.ltb_spec d 10).
  - rewrite (in_range_true 48 57) by lia. now rewrite !orb_true_r.
  - rewrite (in_range_true 65 90) by lia. reflexivity.
Qed.

Lemma percent_octets_uri_chars (bs : list N) :
  Forall (fun b => b < 256) bs -> Forall (fun c => uri_char c = true) (percent_octets bs).
Proof.
  induction 1 as [|b bs Hb _ IH]; [constructor|].
  unfold percent_octets in *. cbn [flat_map]. apply Forall_app. split; [|assumption].
  unfold percent_octet. repeat constructor; try (apply hex_digit_uri_char; lia).
Qed.

(** ** What [encodeURIComponent] returns *)

Lemma encodeURIComponent_cons (c : code_unit) (rest : jsstring) :
  encodeURIComponent (c :: rest) =
  if uriUnescaped c then r <- encodeURIComponent rest ;; Normal (c :: r)
  else if is_trailing_surrogate c then Throw URIError_malformed
  else if is_leading_surrogate c then
    match rest with
    | [] => Throw URIError_malformed
    | d :: rest' =>
        if is_trailing_surrogate d then
          r <- encodeURIComponent rest' ;;
          Normal (percent_octets
                    (utf8_octets ((c - 0xD800) * 0x400 + (d - 0xDC00) + 0x10000)) ++ r)
        else Throw URIError_malformed
    end
  else r <- encodeURIComponent rest ;; Normal (percent_octets (utf8_octets c) ++ r).
Proof. reflexivity. Qed.

Lemma scalar_values_cons (c : code_unit) (rest : jsstring) :
  scalar_values (c :: rest) =
  if is_trailing_surrogate c then REPLACEMENT :: scalar_values rest
  else if is_leading_surrogate c then
    match rest with
    | [] => [REPLACEMENT]
    | d :: rest' =>
        if is_trailing_surrogate d
        then ((c - 0xD800) * 0x400 + (d - 0xDC00) + 0x10000) :: scalar_values rest'
        else REPLACEMENT :: scalar_values rest
    end
  else c :: scalar_values rest.
Proof. reflexivity. Qed.

Lemma isWellFormed_cons (c : code_unit) (rest : jsstring) :
  isWellFormed (c :: rest) =
  if is_trailing_surrogate c then false
  else if is_leading_surrogate c then
    match rest with
    | [] => false
    | d :: rest' => is_trailing_surrogate d && isWellFormed rest'
    end
  else isWellFormed rest.
Proof. reflexivity. Qed.

Lemma uriUnescaped_not_surrogate (c : code_unit) :
  uriUnescaped c = true -> is_trailing_surrogate c = false /\ is_leading_surrogate c = false.
Proof.
  intros H. apply uriUnescaped_ascii in H as [H _].
  unfold is_trailing_surrogate, is_leading_surrogate. split; apply in_range_false; lia.
Qed.

Lemma utf8_octets_ascii (c : N) : c < 128 -> utf8_octets c = [c].
Proof. intros H. unfold utf8_octets. apply N.ltb_lt in H. now rewrite H. Qed.

(** The result of [encodeURIComponent] is over its output alphabet, and
    percent-decoding it gives the UTF-8 encoding of the argument, which
    has no unpaired surrogate. *)
Lemma encodeURIComponent_Normal (s r : jsstring) :
  valid_string s -> encodeURIComponent s = Normal r ->
  percent_decode r = utf8_encode s /\ isWellFormed s = true
  /\ Forall (fun c => uri_char c = true) r.
Proof.
  unfold utf8_encode. revert r.
  induction s as [| c | c d s IH1 IH2] using list_ind2; intros r Hv Hr.
  - inversion Hr; subst. repeat split; constructor.
  - inversion_clear Hv as [|? ? Hc _].
    rewrite encodeURIComponent_cons in Hr. rewrite scalar_values_cons, isWellFormed_cons.
    destruct (uriUnescaped c) eqn:Hu.
    + destruct (uriUnescaped_not_surrogate c Hu) as [-> ->].
      destruct (uriUnescaped_ascii c Hu) as [Hlt Hne].
      simpl in Hr. inversion Hr; subst.
      rewrite percent_decode_literal by assumption. cbn [flat_map percent_decode scalar_values].
      rewrite utf8_octets_ascii by assumption.
      repeat split; try reflexivity. repeat constructor. unfold uri_char. now rewrite Hu.
    + destruct (is_trailing_surrogate c); [discriminate|].
      destruct (is_leading_surrogate c); [discriminate|].
      simpl in Hr. inversion Hr; subst. rewrite app_nil_r.
      assert (Hb : Forall (fun b => b < 256) (utf8_octets c)) by (apply utf8_octets_bytes; lia).
      rewrite <- (app_nil_r (percent_octets _)) at 1.
      rewrite percent_decode_octets by assumption.
      cbn [flat_map percent_decode scalar_values].
      repeat split; try reflexivity. now apply percent_octets_uri_chars.
  - inversion Hv as [|? ? Hc Hv']; subst. inversion Hv' as [|? ? Hd Hv'']; subst.
    rewrite encodeURIComponent_cons in Hr. rewrite scalar_values_cons, isWellFormed_cons.
    destruct (uriUnescaped c) eqn:Hu.
    + destruct (uriUnescaped_not_surrogate c Hu) as [-> ->].
      destruct (uriUnescaped_ascii c Hu) as [Hlt Hne].
      apply bind_Normal in Hr as (r' & Hr' & Hr). inversion Hr; subst.
      destruct (IH2 r' Hv' Hr') as (Hdec & Hwf & Hch).
      rewrite percent_decode_literal by assumption. cbn [flat_map].
      rewrite utf8_octets_ascii by assumption. rewrite Hdec.
      repeat split; try assumption; try reflexivity.
      constructor; [|assumption]. unfold uri_char. now rewrite Hu.
    + destruct (is_trailing_surrogate c) eqn:Ht; [discriminate|].
      destruct (is_leading_surrogate c) eqn:Hl.
      * destruct (is_trailing_surrogate d) eqn:Hd'; [|discriminate].
        apply bind_Normal in Hr as (r' & Hr' & Hr). inversion Hr; subst.
        destruct (IH1 r' Hv'' Hr') as (Hdec & Hwf & Hch).
        apply in_range_spec in Hl. apply in_range_spec in Hd'.
        assert (Hb : Forall (fun b => b < 256)
                       (utf8_octets ((c - 0xD800) * 0x400 + (d - 0xDC00) + 0x10000)))
          by (apply utf8_octets_bytes; lia).
        rewrite percent_decode_octets by assumption. cbn [flat_map]. rewrite Hdec.
        repeat split; try assumption; try reflexivity.
        apply Forall_app. split; [now apply percent_octets_uri_chars | assumption].
      * apply bind_Normal in Hr as (r' & Hr' & Hr). inversion Hr; subst.
        destruct (IH2 r' Hv' Hr') as (Hdec & Hwf & Hch).
        assert (Hb : Forall (fun b => b < 256) (utf8_octets c)) by (apply utf8_octets_bytes; lia).
        rewrite percent_decode_octets by assumption. cbn [flat_map]. rewrite Hdec.
        repeat split; try assumption; try reflexivity.
        apply Forall_app. split; [now apply percent_octets_uri_chars | assumption].
Qed.

(** [encodeURIComponent] is injective where it returns. *)
Lemma encodeURIComponent_inj (s1 s2 r : jsstring) :
  valid_string s1 -> valid_string s2 ->
  encodeURIComponent s1 = Normal r -> encodeURIComponent s2 = Normal r -> s1 = s2.
Proof.
  intros Hv1 Hv2 H1 H2.
  destruct (encodeURIComponent_Normal s1 r Hv1 H1) as (Hd1 & Hw1 & _).
  destruct (encodeURIComponent_Normal s2 r Hv2 H2) as (Hd2 & Hw2 & _).
  rewrite <- (toUSVString_wellformed s1), <- (toUSVString_wellformed s2) by assumption.
  rewrite <- !utf8_decode_encode by assumption. congruence.
Qed.

(** The only error [encodeURIComponent] raises is the URIError. *)
Lemma encodeURIComponent_Throw (s : jsstring) (e : thrown) :
  encodeURIComponent s = Throw e -> e = URIError_malformed.
Proof.
  revert e. induction s as [| c | c d s IH1 IH2] using list_ind2; intros e He.
  - discriminate.
  - rewrite encodeURIComponent_cons in He.
    destruct (uriUnescaped c); [discriminate|].
    destruct (is_trailing_surrogate c); [congruence|].
    destruct (is_leading_surrogate c); [congruence|discriminate].
  - rewrite encodeURIComponent_cons in He.
    destruct (uriUnescaped c).
    { apply bind_Throw in He as [He|(a & _ & He)]; [now apply IH2|discriminate]. }
    destruct (is_trailing_surrogate c); [congruence|].
    destruct (is_leading_surrogate c).
    + destruct (is_trailing_surrogate d); [|congruence].
      apply bind_Throw in He as [He|(a & _ & He)]; [now apply IH1|discriminate].
    + apply bind_Throw in He as [He|(a & _ & He)]; [now apply IH2|discriminate].
Qed.

(** [encodeURIComponent] returns on every string without unpaired surrogate. *)
Lemma encodeURIComponent_wellformed (s : jsstring) :
  isWellFormed s = true -> exists r, encodeURIComponent s = Normal r.
Proof.
  induction s as [| c | c d s IH1 IH2] using list_ind2; intros Hw.
  - now exists [].
  - rewrite isWellFormed_cons in Hw. rewrite encodeURIComponent_cons.
    destruct (uriUnescaped c); [simpl; eauto|].
    destruct (is_trailing_surrogate c); [discriminate|].
    destruct (is_leading_surrogate c); [discriminate|]. simpl; eauto.
  - rewrite isWellFormed_cons in Hw. rewrite encodeURIComponent_cons.
    destruct (uriUnescaped c) eqn:Hu.
    + destruct (uriUnescaped_not_surrogate c Hu) as [Ht Hl]. rewrite Ht, Hl in Hw.
      destruct (IH2 Hw) as [r ->]. simpl; eauto.
    + destruct (is_trailing_surrogate c); [discriminate|].
      destruct (is_leading_surrogate c).
      * apply andb_true_iff in Hw as [-> Hw]. destruct (IH1 Hw) as [r ->]. simpl; eauto.
      * destruct (IH2 Hw) as [r ->]. simpl; eauto.
Qed.

Lemma valid_string_js (s : string) : valid_string (js s).
Proof.
  unfold valid_string, js. apply Forall_map. apply Forall_forall. intros a _.
  unfold unit_of_ascii. pose proof (N_ascii_bounded a). lia.
Qed.

(** ** Lists: permutations, keys, sorting *)

Lemma mapM_Normal {A B} (f : A -> completion B) (l : list A) (r : list B) :
  mapM f l = Normal r -> Forall2 (fun a b => f a = Normal b) l r.
Proof.
  revert r. induction l as [|a l IH]; intros r H.
  - inversion H. constructor.
  - cbn [mapM] in H. apply bind_Normal in H as (b & Hb & H).
    apply bind_Normal in H as (bs & Hbs & H). inversion H; subst.
    constructor; auto.
Qed.

(** Mapping a function that throws a single error over the permutation
    of a list: both throw, or both return, permutation for permutation. *)
Lemma mapM_Permutation {A B} (f : A -> completion B) (e0 : thrown) (l1 l2 : list A) :
  (forall a e, f a = Throw e -> e = e0) ->
  Permutation l1 l2 ->
  (mapM f l1 = Throw e0 /\ mapM f l2 = Throw e0)
  \/ exists r1 r2, mapM f l1 = Normal r1 /\ mapM f l2 = Normal r2 /\ Permutation r1 r2.
Proof.
  intros Hf. induction 1 as [| x l1 l2 _ IH | x y l | l1 l2 l3 _ IH1 _ IH2].
  - right. exists [], []. repeat split; constructor.
  - cbn [mapM]. destruct (f x) as [b|e] eqn:Hx.
    + destruct IH as [[-> ->]|(r1 & r2 & -> & -> & Hp)].
      * left. split; reflexivity.
      * right. exists (b :: r1), (b :: r2). repeat split. now constructor.
    + left. rewrite (Hf x e Hx). split; reflexivity.
  - cbn [mapM].
    destruct (f x) as [b|e] eqn:Hx; destruct (f y) as [c|e'] eqn:Hy;
      try rewrite (Hf x e Hx); try rewrite (Hf y e' Hy); cbn [bind].
    + destruct (mapM f l) as [r|e] eqn:Hl.
      * right. exists (c :: b :: r), (b :: c :: r). repeat split. constructor.
      * left. assert (e = e0) as ->.
        { clear -Hf Hl. revert e Hl. induction l as [|a l IH]; intros e Hl; [discriminate|].
          cbn [mapM] in Hl. apply bind_Throw in Hl as [Hl|(b & _ & Hl)]; [eauto|].
          apply bind_Throw in Hl as [Hl|(bs & _ & Hl)]; [eauto|discriminate]. }
        split; reflexivity.
    + left. split; reflexivity.
    + left. split; reflexivity.
    + left. split; reflexivity.
  - destruct IH1 as [[H1 H2]|(r1 & r2 & H1 & H2 & Hp)];
      destruct IH2 as [[H3 H4]|(r3 & r4 & H3 & H4 & Hp')]; try congruence.
    + left. split; assumption.
    + right. exists r1, r4. repeat split; try assumption.
      rewrite H2 in H3. inversion H3; subst. eapply Permutation_trans; eassumption.
Qed.

Lemma NoDup_keys_eq {V} (l : list (jsstring * V)) (x y : jsstring * V) :
  NoDup (map fst l) -> In x l -> In y l -> fst x = fst y -> x = y.
Proof.
  induction l as [|z l IH]; intros Hnd Hx Hy Hk; [contradiction|].
  cbn [map] in Hnd. inversion Hnd as [|? ? Hz Hnd']; subst.
  destruct Hx as [->|Hx], Hy as [->|Hy]; auto.
  - exfalso. apply Hz. rewrite Hk. now apply in_map.
  - exfalso. apply Hz. rewrite <- Hk. now apply in_map.
Qed.

Lemma Forall2_NoDup_keys {V W} (R : jsstring * V -> jsstring * W -> Prop)
    (l : list (jsstring * V)) (r : list (jsstring * W)) :
  (forall a b a' b', R a b -> R a' b' -> fst b = fst b' -> fst a = fst a') ->
  Forall2 R l r -> NoDup (map fst l) -> NoDup (map fst r).
Proof.
  intros Hinj. induction 1 as [|a b l r Hab Hlr IH]; intros Hnd; [constructor|].
  cbn [map] in *. inversion Hnd as [|? ? Ha Hnd']; subst.
  constructor; [|auto].
  intros Hin. apply Ha. apply in_map_iff in Hin as (b' & Hk & Hb').
  clear -Hinj Hab Hlr Hk Hb'. induction Hlr as [|a' b'' l r Hab' Hlr IH]; [contradiction|].
  destruct Hb' as [->|Hb'].
  - left. symmetry. eapply Hinj; eauto.
  - right. auto.
Qed.

Section SortProperties.
Context {A : Type} (cmp : A -> A -> Z).

Hypothesis cmp_flip : forall x y, (0 < cmp x y)%Z -> (cmp y x < 0)%Z.
Hypothesis cmp_trans : forall x y z, (cmp_le cmp) x y -> (cmp_le cmp) y z -> (cmp_le cmp) x z.

Lemma sort_insert_Permutation (x : A) (l : list A) : Permutation (sort_insert cmp x l) (x :: l).
Proof.
  induction l as [|y l IH]; cbn [sort_insert]; [reflexivity|].
  destruct (0 <? cmp x y)%Z; [|reflexivity].
  rewrite IH. apply perm_swap.
Qed.

Lemma Array_sort_Permutation (l : list A) : Permutation (Array_sort cmp l) l.
Proof.
  induction l as [|x l IH]; cbn [Array_sort fold_right]; [reflexivity|].
  fold (Array_sort cmp l). rewrite sort_insert_Permutation. now constructor.
Qed.

Lemma sort_insert_sorted (x : A) (l : list A) :
  StronglySorted (cmp_le cmp) l -> StronglySorted (cmp_le cmp) (sort_insert cmp x l).
Proof.
  induction 1 as [|y l Hl IH Hy]; cbn [sort_insert].
  - repeat constructor.
  - destruct (0 <? cmp x y)%Z eqn:Hc.
    + apply Z.ltb_lt in Hc. constructor; [assumption|].
      rewrite Forall_forall in *. intros z Hz.
      apply (Permutation_in _ (sort_insert_Permutation x l)) in Hz.
      destruct Hz as [<-|Hz]; [|auto].
      unfold cmp_le. specialize (cmp_flip x y Hc). lia.
    + apply Z.ltb_ge in Hc. constructor; [now constructor|].
      constructor; [exact Hc|].
      rewrite Forall_forall in *. intros z Hz. eapply cmp_trans; [exact Hc|auto].
Qed.

Lemma Array_sort_sorted (l : list A) : StronglySorted (cmp_le cmp) (Array_sort cmp l).
Proof.
  induction l as [|x l IH]; cbn [Array_sort fold_right]; [constructor|].
  now apply sort_insert_sorted.
Qed.

(** Two sorted arrangements of the same elements coincide when no two
    distinct elements tie. *)
Lemma sorted_Permutation_eq (l1 l2 : list A) :
  (forall x y, In x l1 -> In y l1 -> (cmp_le cmp) x y -> (cmp_le cmp) y x -> x = y) ->
  StronglySorted (cmp_le cmp) l1 -> StronglySorted (cmp_le cmp) l2 -> Permutation l1 l2 -> l1 = l2.
Proof.
  revert l2. induction l1 as [|x l1 IH]; intros l2 Hanti H1 H2 Hp.
  - apply Permutation_nil in Hp. now subst.
  - destruct l2 as [|y l2]; [symmetry in Hp; now apply Permutation_nil in Hp|].
    inversion H1 as [|? ? H1' Hx]; subst. inversion H2 as [|? ? H2' Hy]; subst.
    rewrite Forall_forall in Hx, Hy.
    assert (Hxy : x = y).
    { assert (Hyin : In y (x :: l1))
        by (apply (Permutation_in _ (Permutation_sym Hp)); now left).
      assert (Hxin : In x (y :: l2)) by (apply (Permutation_in _ Hp); now left).
      destruct Hyin as [->|Hyin]; [reflexivity|].
      destruct Hxin as [->|Hxin]; [reflexivity|].
      apply Hanti; [now left | now right | auto | auto]. }
    subst y. f_equal. apply IH; auto.
    + intros a b Ha Hb. apply Hanti; now right.
    + eapply Permutation_cons_inv; eassumption.
Qed.

Lemma Array_sort_Permutation_eq (l1 l2 : list A) :
  (forall x y, In x l1 -> In y l1 -> (cmp_le cmp) x y -> (cmp_le cmp) y x -> x = y) ->
  Permutation l1 l2 -> Array_sort cmp l1 = Array_sort cmp l2.
Proof.
  intros Hanti Hp. apply sorted_Permutation_eq; try apply Array_sort_sorted.
  - intros x y Hx Hy. apply Hanti; eapply Permutation_in; try eassumption;
      apply Array_sort_Permutation.
  - rewrite !Array_sort_Permutation. assumption.
Qed.
End SortProperties.

(** ** The code-unit comparator is a consistent comparator *)

Lemma code_unit_compare_flip (a b : jsstring) :
  (0 < code_unit_compare a b)%Z -> (code_unit_compare b a < 0)%Z.
Proof.
  revert b. induction a as [|x a IH]; intros [|y b]; cbn [code_unit_compare]; try lia.
  destruct (N.ltb_spec x y), (N.ltb_spec y x); try lia. apply IH.
Qed.

Lemma code_unit_compare_trans (a b c : jsstring) :
  (code_unit_compare a b <= 0)%Z -> (code_unit_compare b c <= 0)%Z ->
  (code_unit_compare a c <= 0)%Z.
Proof.
  revert b c. induction a as [|x a IH]; intros [|y b] [|z c]; cbn [code_unit_compare]; try lia.
  destruct (N.ltb_spec x y), (N.ltb_spec y x), (N.ltb_spec y z), (N.ltb_spec z y),
    (N.ltb_spec x z), (N.ltb_spec z x); try lia.
  apply IH.
Qed.

Lemma code_unit_compare_ties (a b : jsstring) :
  (code_unit_compare a b <= 0)%Z -> (code_unit_compare b a <= 0)%Z -> a = b.
Proof.
  revert b. induction a as [|x a IH]; intros [|y b]; cbn [code_unit_compare]; try lia.
  - reflexivity.
  - destruct (N.ltb_spec x y), (N.ltb_spec y x); try lia.
    intros H1 H2. f_equal; [lia|now apply IH].
Qed.

(** ** Property enumeration order *)

Lemma insert_by_index_Permutation {V} (kv : jsstring * V) (l : JSObject V) :
  Permutation (insert_by_index kv l) (kv :: l).
Proof.
  induction l as [|kv' l IH]; cbn [insert_by_index]; [reflexivity|].
  destruct (index_of_key (fst kv) <=? index_of_key (fst kv')); [reflexivity|].
  rewrite IH. apply perm_swap.
Qed.

Lemma filter_partition_Permutation {X} (f : X -> bool) (l : list X) :
  Permutation (filter f l ++ filter (fun x => negb (f x)) l) l.
Proof.
  induction l as [|x l IH]; [reflexivity|].
  cbn [filter]. destruct (f x); cbn [negb app].
  - now constructor.
  - rewrite <- Permutation_middle. now constructor.
Qed.

(** [Object.entries] lists every own property once. *)
Lemma Object_entries_Permutation {V} (o : JSObject V) : Permutation (Object_entries o) o.
Proof.
  unfold Object_entries.
  rewrite <- (filter_partition_Permutation (fun kv => is_index_key (fst kv)) o) at 3.
  apply Permutation_app_tail.
  induction (filter (fun kv => is_index_key (fst kv)) o) as [|kv l IH]; [reflexivity|].
  cbn [fold_right]. rewrite insert_by_index_Permutation. now constructor.
Qed.

Lemma Object_entries_NoDup {V} (o : JSObject V) :
  NoDup (map fst o) -> NoDup (map fst (Object_entries o)).
Proof.
  intros H. eapply Permutation_NoDup; [|exact H].
  apply Permutation_map, Permutation_sym, Object_entries_Permutation.
Qed.

(** ** Objects as maps *)

Lemma obj_get_None {V} (o : JSObject V) (k : jsstring) :
  obj_get o k = None <-> ~ In k (map fst o).
Proof.
  induction o as [|[k' v] o IH]; cbn [obj_get map fst In]; [tauto|].
  destruct (jsstring_eqb k k') eqn:E.
  - apply jsstring_eqb_eq in E. subst. split; [discriminate|tauto].
  - apply jsstring_eqb_neq in E. rewrite IH. split; [intros H [H'|H']; auto|tauto].
Qed.

Lemma obj_get_Some {V} (o : JSObject V) (k : jsstring) (v : V) :
  NoDup (map fst o) -> (obj_get o k = Some v <-> In (k, v) o).
Proof.
  induction o as [|[k' v'] o IH]; cbn [obj_get map fst In]; intros Hnd.
  - split; [discriminate|contradiction].
  - inversion Hnd as [|? ? Hk Hnd']; subst.
    destruct (jsstring_eqb k k') eqn:E.
    + apply jsstring_eqb_eq in E. subst k'. split.
      * intros H. inversion H. now left.
      * intros [H|H]; [now inversion H|].
        exfalso. apply Hk. change k with (fst (k, v)). now apply in_map.
    + apply jsstring_eqb_neq in E. rewrite (IH Hnd'). split; [tauto|].
      intros [H|H]; [inversion H; congruence|assumption].
Qed.

Lemma obj_get_Permutation {V} (o1 o2 : JSObject V) (k : jsstring) :
  NoDup (map fst o1) -> Permutation o1 o2 -> obj_get o1 k = obj_get o2 k.
Proof.
  intros Hnd Hp.
  assert (Hnd2 : NoDup (map fst o2))
    by (eapply Permutation_NoDup; [apply Permutation_map; eassumption|assumption]).
  destruct (obj_get o1 k) as [v|] eqn:E1.
  - symmetry. apply (obj_get_Some o2 k v Hnd2).
    apply (Permutation_in _ Hp). now apply (obj_get_Some o1 k v Hnd).
  - symmetry. apply obj_get_None. intros Hin. apply obj_get_None in E1. apply E1.
    eapply Permutation_in; [apply Permutation_map, Permutation_sym; eassumption|assumption].
Qed.

Lemma obj_get_CreateDataProperty {V} (o : JSObject V) (k k' : jsstring) (v : V) :
  obj_get (CreateDataProperty o k v) k' = if jsstring_eqb k' k then Some v else obj_get o k'.
Proof.
  induction o as [|[k0 v0] o IH]; cbn [CreateDataProperty obj_get].
  - reflexivity.
  - destruct (jsstring_eqb k k0) eqn:E; cbn [obj_get].
    + apply jsstring_eqb_eq in E. subst k0. destruct (jsstring_eqb k' k); reflexivity.
    + rewrite IH. destruct (jsstring_eqb k' k0) eqn:E'; [|reflexivity].
      apply jsstring_eqb_eq in E'. subst k0.
      destruct (jsstring_eqb k' k) eqn:E''; [|reflexivity].
      apply jsstring_eqb_eq in E''. subst. rewrite jsstring_eqb_refl in E. discriminate.
Qed.

Lemma CreateDataProperty_keys {V} (o : JSObject V) (k : jsstring) (v : V) :
  map fst (CreateDataProperty o k v) = if has_key k o then map fst o else map fst o ++ [k].
Proof.
  unfold has_key. induction o as [|[k0 v0] o IH]; cbn [CreateDataProperty map fst existsb app].
  - reflexivity.
  - destruct (jsstring_eqb k k0) eqn:E; cbn [map fst orb]; [reflexivity|].
    rewrite IH. destruct (existsb _ o); reflexivity.
Qed.

Lemma has_key_In {V} (o : JSObject V) (k : jsstring) :
  has_key k o = true <-> In k (map fst o).
Proof.
  unfold has_key. rewrite existsb_exists, in_map_iff. split.
  - intros (kv & Hin & E). apply jsstring_eqb_eq in E. eauto.
  - intros (kv & E & Hin). exists kv. split; [assumption|]. now apply jsstring_eqb_eq.
Qed.

Lemma CreateDataProperty_NoDup {V} (o : JSObject V) (k : jsstring) (v : V) :
  NoDup (map fst o) -> NoDup (map fst (CreateDataProperty o k v)).
Proof.
  intros Hnd. rewrite CreateDataProperty_keys.
  destruct (has_key k o) eqn:E; [assumption|].
  apply NoDup_app; [assumption | repeat constructor; intros [] |].
  intros x Hx [<-|[]]. apply has_key_In in Hx. congruence.
Qed.

Lemma Set_property_NoDup {V} (o : JSObject V) (k : jsstring) (v : V) :
  NoDup (map fst o) -> NoDup (map fst (Set_property o k v)).
Proof.
  unfold Set_property. destruct (jsstring_eqb k PROTO); [auto|apply CreateDataProperty_NoDup].
Qed.

Lemma fold_Set_property_NoDup {V X} (key : X -> jsstring) (val : X -> V) (l : list X)
    (acc : JSObject V) :
  NoDup (map fst acc) ->
  NoDup (map fst (fold_left (fun o x => Set_property o (key x) (val x)) l acc)).
Proof.
  revert acc. induction l as [|x l IH]; intros acc H; cbn [fold_left]; [assumption|].
  apply IH. now apply Set_property_NoDup.
Qed.


(** Properties defined one after the other: the key is looked up in the
    list of definitions first, then in the object they were added to. *)
Lemma obj_get_fold_CreateDataProperty {V} (l acc : JSObject V) (k : jsstring) :
  NoDup (map fst l) ->
  obj_get (fold_left (fun o kv => CreateDataProperty o (fst kv) (snd kv)) l acc) k
  = match obj_get l k with Some v => Some v | None => obj_get acc k end.
Proof.
  revert acc. induction l as [|[k1 v1] l IH]; intros acc Hnd; cbn [fold_left]; [reflexivity|].
  cbn [map fst] in Hnd. inversion Hnd as [|? ? Hk1 Hnd']; subst.
  rewrite IH by assumption. cbn [obj_get fst snd]. rewrite obj_get_CreateDataProperty.
  destruct (jsstring_eqb k k1) eqn:E; [|reflexivity].
  apply jsstring_eqb_eq in E. subst k1.
  apply obj_get_None in Hk1. now rewrite Hk1.
Qed.

(** Spread: the properties of the source win over those collected before. *)
Lemma obj_get_spread_into {V} (acc src : JSObject V) (k : jsstring) :
  NoDup (map fst src) ->
  obj_get (spread_into acc src) k
  = match obj_get src k with Some v => Some v | None => obj_get acc k end.
Proof.
  intros Hnd. unfold spread_into.
  rewrite obj_get_fold_CreateDataProperty by now apply Object_entries_NoDup.
  rewrite (obj_get_Permutation (Object_entries src) src)
    by (try apply Object_entries_NoDup; try apply Object_entries_Permutation; assumption).
  reflexivity.
Qed.


(** ** URLSearchParams: parsing what was serialized *)

Lemma scalar_values_utf16_encode (cps : list N) :
  Forall is_scalar cps -> scalar_values (utf16_encode cps) = cps.
Proof.
  induction 1 as [|cp cps [Hlt Hns] _ IH]; [reflexivity|].
  unfold utf16_encode in *. cbn [flat_map]. unfold utf16_units.
  destruct (N.ltb_spec cp 0x10000) as [H|H]; cbn [app].
  - rewrite scalar_values_cons.
    unfold is_trailing_surrogate, is_leading_surrogate.
    rewrite (in_range_false 0xDC00 0xDFFF) by lia.
    rewrite (in_range_false 0xD800 0xDBFF) by lia. f_equal. exact IH.
  - rewrite scalar_values_cons.
    unfold is_trailing_surrogate, is_leading_surrogate.
    rewrite (in_range_false 0xDC00 0xDFFF (55296 + _)) by lia.
    rewrite (in_range_true 0xD800 0xDBFF) by lia.
    rewrite (in_range_true 0xDC00 0xDFFF) by lia.
    f_equal; [lia | exact IH].
Qed.

(** Conversion to a USVString does not change the UTF-8 encoding. *)
Lemma utf8_encode_toUSVString (s : jsstring) :
  valid_string s -> utf8_encode (toUSVString s) = utf8_encode s.
Proof.
  intros Hv. unfold utf8_encode, toUSVString.
  now rewrite scalar_values_utf16_encode by now apply scalar_values_scalar.
Qed.

Lemma utf8_encode_bytes (s : jsstring) :
  valid_string s -> Forall (fun b => b < 256) (utf8_encode s).
Proof.
  intros Hv. unfold utf8_encode. apply scalar_values_scalar in Hv.
  induction Hv as [|cp cps [Hlt _] _ IH]; [constructor|].
  cbn [flat_map]. apply Forall_app. split; [now apply utf8_octets_bytes|assumption].
Qed.

Lemma utf8_encode_ascii (s : jsstring) :
  Forall (fun c => c < 128) s -> utf8_encode s = s.
Proof.
  unfold utf8_encode. induction 1 as [|c s Hc _ IH]; [reflexivity|].
  rewrite scalar_values_cons. unfold is_trailing_surrogate, is_leading_surrogate.
  rewrite (in_range_false 0xDC00 0xDFFF) by lia.
  rewrite (in_range_false 0xD800 0xDBFF) by lia.
  cbn [flat_map]. rewrite utf8_octets_ascii by assumption. cbn [app]. now rewrite IH.
Qed.


Lemma urlencoded_char_ascii (c : code_unit) :
  urlencoded_char c = true -> c < 128 /\ c <> AMP /\ c <> EQUALS /\ c <> QUESTION.
Proof.
  unfold urlencoded_char, urlencoded_safe, is_alnum, is_upper, is_lower, is_digit, mem_unit,
    PLUS, PERCENT, AMP, EQUALS, QUESTION.
  cbn [js list_ascii_of_string map existsb unit_of_ascii N_of_ascii N_of_digits].
  rewrite !orb_true_iff, !in_range_spec, !N.eqb_eq. cbn. lia.
Qed.

Lemma urlencoded_safe_literal (b : N) :
  urlencoded_safe b = true -> b <> PLUS /\ b <> PERCENT /\ b <> SPACE.
Proof.
  unfold urlencoded_safe, is_alnum, is_upper, is_lower, is_digit, mem_unit, PLUS, PERCENT, SPACE.
  cbn [js list_ascii_of_string map existsb unit_of_ascii N_of_ascii N_of_digits].
  rewrite !orb_true_iff, !in_range_spec, !N.eqb_eq. cbn. lia.
Qed.

Lemma hex_digit_safe (d : N) : d < 16 -> urlencoded_safe (hex_digit d) = true.
Proof.
  intros Hd. unfold urlencoded_safe, is_alnum, is_upper, is_digit, hex_digit.
  destruct (N.ltb_spec d 10).
  - rewrite (in_range_true 48 57) by lia. now rewrite !orb_true_r.
  - rewrite (in_range_true 65 90) by lia. reflexivity.
Qed.

Lemma urlencoded_byte_chars (b : N) :
  b < 256 -> Forall (fun c => urlencoded_char c = true) (urlencoded_byte b).
Proof.
  intros Hb. unfold urlencoded_byte.
  destruct (b =? SPACE); [repeat constructor|].
  destruct (urlencoded_safe b) eqn:Hs.
  - repeat constructor. unfold urlencoded_char. rewrite Hs. now rewrite orb_true_r.
  - unfold percent_octet. repeat constructor; unfold urlencoded_char;
      rewrite hex_digit_safe by lia; now rewrite orb_true_r.
Qed.

Lemma urlencoded_string_chars (s : jsstring) :
  valid_string s -> Forall (fun c => urlencoded_char c = true) (urlencoded_string s).
Proof.
  intros Hv. unfold urlencoded_string. apply utf8_encode_bytes in Hv.
  induction Hv as [|b bs Hb _ IH]; [constructor|].
  cbn [flat_map]. apply Forall_app. split; [now apply urlencoded_byte_chars|assumption].
Qed.

Lemma plus_to_space_app (a b : list N) :
  plus_to_space (a ++ b) = plus_to_space a ++ plus_to_space b.
Proof. apply map_app. Qed.

(** Decoding one serialized byte. *)
Lemma urlencoded_byte_decode (b : N) (rest : list N) :
  b < 256 ->
  percent_decode (plus_to_space (urlencoded_byte b) ++ rest) = b :: percent_decode rest.
Proof.
  intros Hb. unfold urlencoded_byte.
  destruct (N.eqb_spec b SPACE) as [->|Hsp]; [reflexivity|].
  destruct (urlencoded_safe b) eqn:Hs.
  - destruct (urlencoded_safe_literal b Hs) as (Hp & Hpc & _).
    cbn [plus_to_space map app]. apply N.eqb_neq in Hp. rewrite Hp.
    now apply percent_decode_literal.
  - unfold percent_octet. cbn [plus_to_space map].
    change (PERCENT =? PLUS) with false. cbv iota.
    destruct (urlencoded_safe_literal _ (hex_digit_safe (b / 16) ltac:(lia))) as (Hp1 & _).
    destruct (urlencoded_safe_literal _ (hex_digit_safe (b mod 16) ltac:(lia))) as (Hp2 & _).
    apply N.eqb_neq in Hp1, Hp2. rewrite Hp1, Hp2.
    apply (percent_decode_octet b rest Hb).
Qed.

Lemma urlencoded_bytes_decode (bs : list N) :
  Forall (fun b => b < 256) bs ->
  percent_decode (plus_to_space (flat_map urlencoded_byte bs)) = bs.
Proof.
  induction 1 as [|b bs Hb _ IH]; [reflexivity|].
  cbn [flat_map]. rewrite plus_to_space_app, urlencoded_byte_decode by assumption.
  now rewrite IH.
Qed.

(** A serialized name or value parses back to the string, as a USVString. *)
Lemma urlencoded_component_string (s : jsstring) :
  valid_string s -> urlencoded_component (urlencoded_string s) = toUSVString s.
Proof.
  intros Hv. unfold urlencoded_component, urlencoded_string.
  rewrite urlencoded_bytes_decode by now apply utf8_encode_bytes.
  now apply utf8_decode_encode.
Qed.

Lemma cut_at_app (sep : N) (n v : list N) :
  ~ In sep n -> cut_at sep (n ++ sep :: v) = (n, Some v).
Proof.
  induction n as [|b n IH]; intros Hn; cbn [app cut_at].
  - now rewrite N.eqb_refl.
  - destruct (N.eqb_spec b sep) as [->|_]; [exfalso; apply Hn; now left|].
    rewrite IH; [reflexivity|]. intros H. apply Hn. now right.
Qed.

Lemma split_no_sep (sep : code_unit) (s : jsstring) : ~ In sep s -> split sep s = [s].
Proof.
  induction s as [|c s IH]; intros Hs; cbn [split]; [reflexivity|].
  destruct (N.eqb_spec c sep) as [->|_]; [exfalso; apply Hs; now left|].
  rewrite IH; [reflexivity|]. intros H. apply Hs. now right.
Qed.

Lemma split_app (sep : code_unit) (a b : jsstring) :
  ~ In sep a -> split sep (a ++ sep :: b) = a :: split sep b.
Proof.
  induction a as [|c a IH]; intros Ha; cbn [app split].
  - now rewrite N.eqb_refl.
  - destruct (N.eqb_spec c sep) as [->|_]; [exfalso; apply Ha; now left|].
    rewrite IH; [reflexivity|]. intros H. apply Ha. now right.
Qed.

Lemma split_join (sep : code_unit) (parts : list jsstring) :
  parts <> [] -> Forall (fun p => ~ In sep p) parts -> split sep (join [sep] parts) = parts.
Proof.
  induction parts as [|p parts IH]; intros Hne Hparts; [congruence|].
  inversion Hparts as [|? ? Hp Hrest]; subst.
  destruct parts as [|q parts]; cbn [join].
  - now apply split_no_sep.
  - cbn [app]. rewrite split_app by assumption. f_equal. apply IH; [discriminate|assumption].
Qed.

Lemma urlencoded_string_toUSVString (s : jsstring) :
  valid_string s -> urlencoded_string (toUSVString s) = urlencoded_string s.
Proof. intros Hv. unfold urlencoded_string. now rewrite utf8_encode_toUSVString. Qed.

Lemma serialized_pair_chars (nv : jsstring * jsstring) :
  valid_string (fst nv) -> valid_string (snd nv) ->
  Forall (fun c => c < 128 /\ c <> AMP /\ c <> QUESTION)
         (urlencoded_string (fst nv) ++ [EQUALS] ++ urlencoded_string (snd nv)).
Proof.
  intros Hn Hv.
  assert (H : forall s, valid_string s ->
                        Forall (fun c => c < 128 /\ c <> AMP /\ c <> QUESTION) (urlencoded_string s)).
  { intros s Hs. apply urlencoded_string_chars in Hs. rewrite Forall_forall in *.
    intros c Hc. destruct (urlencoded_char_ascii c (Hs c Hc)) as (? & ? & ? & ?). auto. }
  apply Forall_app. split; [auto|]. constructor; [|cbn [app]; auto].
  unfold EQUALS, AMP, QUESTION. lia.
Qed.

Lemma join_chars (P : code_unit -> Prop) (sep : code_unit) (parts : list jsstring) :
  P sep -> Forall (Forall P) parts -> Forall P (join [sep] parts).
Proof.
  intros Hsep. induction 1 as [|p parts Hp Hparts IH]; [constructor|].
  destruct parts as [|q parts]; cbn [join]; [assumption|].
  apply Forall_app. split; [assumption|]. cbn [app]. constructor; assumption.
Qed.

Lemma urlencoded_parse_sequence_pair (nv : jsstring * jsstring) :
  valid_string (fst nv) -> valid_string (snd nv) ->
  urlencoded_parse_sequence (urlencoded_string (fst nv) ++ [EQUALS] ++ urlencoded_string (snd nv))
  = (toUSVString (fst nv), toUSVString (snd nv)).
Proof.
  intros Hn Hv. unfold urlencoded_parse_sequence. cbn [app].
  rewrite cut_at_app.
  - now rewrite !urlencoded_component_string.
  - intros Hin. apply urlencoded_string_chars in Hn. rewrite Forall_forall in Hn.
    destruct (urlencoded_char_ascii _ (Hn _ Hin)) as (_ & _ & He & _). congruence.
Qed.

(** Parsing the serialization of a list of pairs gives the pairs back,
    as USVStrings. *)
Lemma URLSearchParams_parse_toString (l : URLSearchParams) :
  Forall (fun nv => valid_string (fst nv) /\ valid_string (snd nv)) l ->
  URLSearchParams_parse (URLSearchParams_toString l)
  = map (fun nv => (toUSVString (fst nv), toUSVString (snd nv))) l.
Proof.
  intros Hl. destruct l as [|nv0 l0]; [reflexivity|].
  remember (nv0 :: l0) as l eqn:El.
  set (ser := fun nv : jsstring * jsstring =>
                urlencoded_string (fst nv) ++ [EQUALS] ++ urlencoded_string (snd nv)).
  assert (Hparts : Forall (Forall (fun c => c < 128 /\ c <> AMP /\ c <> QUESTION)) (map ser l)).
  { apply Forall_map. eapply Forall_impl; [|exact Hl].
    intros nv [Hn Hv]. now apply serialized_pair_chars. }
  assert (Hqs : Forall (fun c => c < 128 /\ c <> QUESTION) (URLSearchParams_toString l)).
  { apply join_chars; [unfold AMP, QUESTION; lia|].
    eapply Forall_impl; [|exact Hparts]. intros p Hp.
    eapply Forall_impl; [|exact Hp]. cbn beta. tauto. }
  unfold URLSearchParams_parse.
  assert (Hinit : match URLSearchParams_toString l with
                  | c :: rest => if c =? QUESTION then rest else URLSearchParams_toString l
                  | [] => []
                  end = URLSearchParams_toString l).
  { destruct (URLSearchParams_toString l) as [|c rest]; [reflexivity|].
    inversion Hqs as [|? ? [_ Hc] _]; subst.
    apply N.eqb_neq in Hc. now rewrite Hc. }
  rewrite Hinit. clear Hinit.
  rewrite utf8_encode_ascii by (eapply Forall_impl; [|exact Hqs]; cbn beta; tauto).
  unfold URLSearchParams_toString. fold ser.
  rewrite split_join.
  - assert (Hne : filter nonempty (map ser l) = map ser l).
    { apply forallb_filter_id. apply forallb_forall. intros p Hp.
      apply in_map_iff in Hp as (nv & <- & _). unfold ser.
      destruct (urlencoded_string (fst nv)); reflexivity. }
    rewrite Hne, map_map. apply map_ext_in. intros nv Hnv.
    rewrite Forall_forall in Hl. destruct (Hl nv Hnv).
    now apply urlencoded_parse_sequence_pair.
  - subst l. discriminate.
  - eapply Forall_impl; [|exact Hparts]. intros p Hp Hin.
    rewrite Forall_forall in Hp. destruct (Hp _ Hin) as (_ & Hamp & _). congruence.
Qed.

(** The serialization does not change when the pairs are converted to
    USVStrings first, as [append] does. *)
Lemma URLSearchParams_toString_USV (l : URLSearchParams) :
  Forall (fun nv => valid_string (fst nv) /\ valid_string (snd nv)) l ->
  URLSearchParams_toString (map (fun nv => (toUSVString (fst nv), toUSVString (snd nv))) l)
  = URLSearchParams_toString l.
Proof.
  intros Hl. unfold URLSearchParams_toString. f_equal. rewrite map_map.
  apply map_ext_in. intros nv Hnv. rewrite Forall_forall in Hl. destruct (Hl nv Hnv).
  cbn [fst snd]. now rewrite !urlencoded_string_toUSVString.
Qed.

Lemma fold_left_append {X} (f : X -> jsstring * jsstring) (l : list X) (acc : URLSearchParams) :
  fold_left (fun sp x => sp ++ [f x]) l acc = acc ++ map f l.
Proof.
  revert acc. induction l as [|x l IH]; intros acc; cbn [fold_left map].
  - now rewrite app_nil_r.
  - rewrite IH, <- app_assoc. reflexivity.
Qed.

(** ** The merged parameter set *)

Section MergedParameters.
Variable number : Type.
Variable Number_toString : number -> jsstring.
Variable this : ZaimApiClient.

Local Abbreviation body_of := (buildRequestParameters number Number_toString).

Lemma oauthParams_NoDup (env : CallEnv) : NoDup (map fst (oauthParams this env)).
Proof.
  cbn [oauthParams map fst].
  repeat constructor; cbn [In]; intros H; decompose [or] H; try discriminate; assumption.
Qed.

Lemma spread_oauthParams (env : CallEnv) : spread_into [] (oauthParams this env) = oauthParams this env.
Proof. reflexivity. Qed.

Lemma buildRequestParameters_NoDup (data : option (RequestParameters number)) :
  NoDup (map fst (body_of data)).
Proof.
  destruct data as [d|]; cbn [buildRequestParameters map]; [|constructor].
  apply fold_Set_property_NoDup with (key := fst) (val := fun kv => String_of number Number_toString (snd kv)).
  constructor.
Qed.

Lemma extractQueryParams_NoDup (url : jsstring) : NoDup (map fst (extractQueryParams url)).
Proof.
  unfold extractQueryParams. destruct (url_queryString url) as [[|c qs]|]; try constructor.
  apply fold_Set_property_NoDup with (key := fst) (val := snd). constructor.
Qed.

(** The merged set looks a name up in the query parameters first, then in
    the body parameters, then in the OAuth parameters. *)
Lemma obj_get_allParams (env : CallEnv) (url : jsstring) (requestParams : JSObject jsstring)
    (k : jsstring) :
  NoDup (map fst requestParams) ->
  obj_get (allParams this env url requestParams) k
  = match obj_get (extractQueryParams url) k with
    | Some v => Some v
    | None => match obj_get requestParams k with
              | Some v => Some v
              | None => obj_get (oauthParams this env) k
              end
    end.
Proof.
  intros Hnd. unfold allParams.
  rewrite obj_get_spread_into by apply extractQueryParams_NoDup.
  rewrite obj_get_spread_into by assumption.
  rewrite spread_oauthParams. reflexivity.
Qed.
End MergedParameters.

(** ** Insertion-order independence of [normalizeParameters] (C1) *)

Lemma encode_entry_Throw (kv : jsstring * jsstring) (e : thrown) :
  encode_entry kv = Throw e -> e = URIError_malformed.
Proof.
  unfold encode_entry. intros H.
  apply bind_Throw in H as [H|(k & _ & H)]; [now apply encodeURIComponent_Throw in H|].
  apply bind_Throw in H as [H|(v & _ & H)]; [now apply encodeURIComponent_Throw in H|].
  discriminate.
Qed.

Lemma encode_entry_Normal (kv ekv : jsstring * jsstring) :
  encode_entry kv = Normal ekv ->
  encodeURIComponent (fst kv) = Normal (fst ekv) /\ encodeURIComponent (snd kv) = Normal (snd ekv).
Proof.
  unfold encode_entry. intros H.
  apply bind_Normal in H as (k & Hk & H). apply bind_Normal in H as (v & Hv & H).
  inversion H; subst. auto.
Qed.

Section Normalization.
Variable localeCompare : jsstring -> jsstring -> Z.

(** [localeCompare] is a consistent comparator that tells the strings
    over the output alphabet of [encodeURIComponent] apart. *)
Hypothesis localeCompare_flip :
  forall a b, (0 < localeCompare a b)%Z -> (localeCompare b a < 0)%Z.
Hypothesis localeCompare_trans :
  forall a b c, (localeCompare a b <= 0)%Z -> (localeCompare b c <= 0)%Z ->
                (localeCompare a c <= 0)%Z.
Hypothesis localeCompare_ties :
  forall a b, Forall (fun c => uri_char c = true) a -> Forall (fun c => uri_char c = true) b ->
              (localeCompare a b <= 0)%Z -> (localeCompare b a <= 0)%Z -> a = b.

Lemma normalizeParameters_Permutation :
  forall p1 p2 : JSObject jsstring,
    NoDup (map fst p1) ->
    Forall (fun kv => valid_string (fst kv)) p1 ->
    Permutation p1 p2 ->
    normalizeParameters localeCompare p1 = normalizeParameters localeCompare p2.
Proof.
  intros p1 p2 Hnd Hvalid Hperm.
  assert (Hoe : Permutation (Object_entries p1) (Object_entries p2)).
  { rewrite !Object_entries_Permutation. assumption. }
  unfold normalizeParameters.
  destruct (mapM_Permutation encode_entry URIError_malformed _ _ encode_entry_Throw Hoe)
    as [[-> ->]|(r1 & r2 & H1 & H2 & Hr)]; [reflexivity|].
  rewrite H1, H2. cbn [bind]. do 3 f_equal.
  apply Array_sort_Permutation_eq; [| | |assumption].
  - intros x y. unfold compare_keys. apply localeCompare_flip.
  - intros x y z. unfold cmp_le, compare_keys. apply localeCompare_trans.
  - intros x y Hx Hy Hxy Hyx. unfold cmp_le, compare_keys in Hxy, Hyx.
    apply mapM_Normal in H1.
    assert (Hvalid' : Forall (fun kv => valid_string (fst kv)) (Object_entries p1)).
    { rewrite Forall_forall in *. intros kv Hkv. apply Hvalid.
      eapply Permutation_in; [apply Object_entries_Permutation|assumption]. }
    assert (Huri : forall z, In z r1 -> Forall (fun c => uri_char c = true) (fst z)).
    { clear -H1 Hvalid'. induction H1 as [|a b l r Hab _ IH]; intros z Hz; [contradiction|].
      inversion Hvalid' as [|? ? Ha Hl]; subst.
      destruct Hz as [<-|Hz]; [|auto].
      apply encode_entry_Normal in Hab as [Hk _].
      now apply (encodeURIComponent_Normal _ _ Ha Hk). }
    apply (NoDup_keys_eq r1); try assumption.
    + assert (Hinj : Forall2 (fun a b => valid_string (fst a) /\ encode_entry a = Normal b)
                             (Object_entries p1) r1).
      { clear -H1 Hvalid'. induction H1; inversion Hvalid'; subst; constructor; auto. }
      eapply Forall2_NoDup_keys; [|exact Hinj|now apply Object_entries_NoDup].
      intros a b a' b' [Ha Hab] [Ha' Hab'] Hk.
      apply encode_entry_Normal in Hab as [Hab _]. apply encode_entry_Normal in Hab' as [Hab' _].
      rewrite <- Hk in Hab'. eapply encodeURIComponent_inj; eassumption.
    + apply localeCompare_ties; auto.
Qed.

(** On strings without unpaired surrogates [normalizeParameters] returns. *)
Lemma normalizeParameters_returns (p : JSObject jsstring) :
  Forall (fun kv => isWellFormed (fst kv) = true /\ isWellFormed (snd kv) = true) p ->
  exists output, normalizeParameters localeCompare p = Normal output.
Proof.
  intros Hp. unfold normalizeParameters.
  assert (H : exists encoded, mapM encode_entry (Object_entries p) = Normal encoded).
  { assert (Hp' : Forall (fun kv => isWellFormed (fst kv) = true /\ isWellFormed (snd kv) = true)
                         (Object_entries p)).
    { rewrite Forall_forall in *. intros kv Hkv. apply Hp.
      eapply Permutation_in; [apply Object_entries_Permutation|assumption]. }
    induction Hp' as [|kv l [Hk Hv] _ [encoded IH]]; [now exists []|].
    destruct (encodeURIComponent_wellformed _ Hk) as [k' Hk'].
    destruct (encodeURIComponent_wellformed _ Hv) as [v' Hv'].
    exists ((k', v') :: encoded). cbn [mapM]. unfold encode_entry at 1.
    rewrite Hk', Hv'. cbn [bind]. now rewrite IH. }
  destruct H as [encoded ->]. cbn [bind]. eauto.
Qed.

(** C1. Two parameter objects with the same properties, created in
    different orders, normalize to the same result: the same string, and
    a string it is whenever no name or value has an unpaired surrogate
    (both calls raise the URIError otherwise); in particular
    [{b:"2", a:"1"}] and [{a:"1", b:"2"}] give one and the same string. *)
Theorem normalizeParameters_insertion_order :
  (forall p1 p2 : JSObject jsstring,
      NoDup (map fst p1) ->
      Forall (fun kv => valid_string (fst kv)) p1 ->
      Permutation p1 p2 ->
      normalizeParameters localeCompare p1 = normalizeParameters localeCompare p2)
  /\ (forall p : JSObject jsstring,
         Forall (fun kv => isWellFormed (fst kv) = true /\ isWellFormed (snd kv) = true) p ->
         exists output, normalizeParameters localeCompare p = Normal output)
  /\ exists output,
      normalizeParameters localeCompare [(js "b", js "2"); (js "a", js "1")] = Normal output
      /\ normalizeParameters localeCompare [(js "a", js "1"); (js "b", js "2")] = Normal output.
Proof.
  split; [exact normalizeParameters_Permutation|].
  split; [exact normalizeParameters_returns|].
  destruct (normalizeParameters_returns [(js "a", js "1"); (js "b", js "2")]) as [output Hout].
  { repeat constructor. }
  exists output. split; [|exact Hout].
  rewrite <- Hout. apply normalizeParameters_Permutation.
  - repeat constructor; cbn; intros H; decompose [or] H; try discriminate; assumption.
  - repeat constructor; apply valid_string_js.
  - apply perm_swap.
Qed.
End Normalization.

Lemma normalizeParameters_insertion_order_witness :
  exists output,
    normalizeParameters code_unit_compare [(js "b", js "2"); (js "a", js "1")] = Normal output
    /\ normalizeParameters code_unit_compare [(js "a", js "1"); (js "b", js "2")] = Normal output.
Proof.
  apply (normalizeParameters_insertion_order code_unit_compare).
  - apply code_unit_compare_flip.
  - apply code_unit_compare_trans.
  - intros a b _ _. apply code_unit_compare_ties.
Defined.

(** ** Percent-encoding in [normalizeParameters] (C2) *)

(** What [encodeURIComponent] leaves alone is the RFC 3986 unreserved set
    and, beyond it, the five marks [! * ' ( )]. *)
Lemma uriUnescaped_rfc3986 (c : code_unit) :
  uriUnescaped c = rfc3986_unreserved c || mem_unit c (js "!*'()").
Proof.
  unfold uriUnescaped, rfc3986_unreserved, uriMark, mem_unit; simpl.
  destruct (is_alnum c); simpl; [reflexivity|].
  repeat match goal with |- context [?a =? ?b] => destruct (a =? b) end; reflexivity.
Qed.

(** C2. On the code, [normalizeParameters] escapes ['&'], ['='] and the
    space as the specification says, but the value ["!*'()"], whose five
    characters are all outside the RFC 3986 unreserved set, comes out
    unescaped. *)
Theorem normalizeParameters_keeps_five_marks :
  forall localeCompare,
    normalizeParameters localeCompare [(js "special_chars", js "test&param=value")]
    = Normal (js "special_chars=test%26param%3Dvalue")
    /\ normalizeParameters localeCompare [(js "test_param", js "test value with spaces")]
       = Normal (js "test_param=test%20value%20with%20spaces")
    /\ normalizeParameters localeCompare [(js "k", js "!*'()")] = Normal (js "k=!*'()")
    /\ forallb (fun c => negb (rfc3986_unreserved c)) (js "!*'()") = true.
Proof.
  intros localeCompare. split; [|split; [|split]]; reflexivity.
Qed.

(** ** Ordering in [normalizeParameters] (C3) *)

(** What the code does: with a consistent comparator the output lists
    the encoded pairs, each once, in an order in which [localeCompare]
    never puts a later key before an earlier one. *)
Lemma normalizeParameters_sorted (localeCompare : jsstring -> jsstring -> Z)
    (p : JSObject jsstring) (output : jsstring) :
  (forall a b, (0 < localeCompare a b)%Z -> (localeCompare b a < 0)%Z) ->
  (forall a b c, (localeCompare a b <= 0)%Z -> (localeCompare b c <= 0)%Z ->
                 (localeCompare a c <= 0)%Z) ->
  normalizeParameters localeCompare p = Normal output ->
  exists encoded sorted,
    mapM encode_entry (Object_entries p) = Normal encoded
    /\ Permutation sorted encoded
    /\ StronglySorted (fun x y => (localeCompare (fst x) (fst y) <= 0)%Z) sorted
    /\ output = join [AMP] (map format_pair sorted).
Proof.
  intros Hflip Htrans H. unfold normalizeParameters in H.
  apply bind_Normal in H as (encoded & Henc & H). inversion H; subst.
  exists encoded, (Array_sort (compare_keys localeCompare) encoded).
  split; [assumption|]. split; [apply Array_sort_Permutation|]. split; [|reflexivity].
  apply (Array_sort_sorted (compare_keys localeCompare)).
  - intros x y. apply Hflip.
  - intros x y z. apply Htrans.
Qed.

(** C3. The pairs are ordered by [localeCompare], not by code unit: with
    a collation that puts ["a"] before ["B"], the keys [a] and [B] come
    out as ["a=1&B=2"] whatever their insertion order, while in byte
    order ["B"] precedes ["a"]. *)
Theorem normalizeParameters_orders_by_localeCompare :
  forall localeCompare,
    (localeCompare (js "a") (js "B") < 0)%Z ->
    (0 < localeCompare (js "B") (js "a"))%Z ->
    normalizeParameters localeCompare [(js "a", js "1"); (js "B", js "2")]
    = Normal (js "a=1&B=2")
    /\ normalizeParameters localeCompare [(js "B", js "2"); (js "a", js "1")]
       = Normal (js "a=1&B=2")
    /\ (code_unit_compare (js "B") (js "a") < 0)%Z.
Proof.
  intros localeCompare Hab Hba.
  assert (Hab' : (0 <? localeCompare (js "a") (js "B"))%Z = false)
    by (apply Z.ltb_ge; lia).
  assert (Hba' : (0 <? localeCompare (js "B") (js "a"))%Z = true)
    by (apply Z.ltb_lt; lia).
  split; [|split].
  - unfold normalizeParameters; simpl. unfold compare_keys; simpl.
    change [97] with (js "a"); change [66] with (js "B").
    rewrite Hab'. reflexivity.
  - unfold normalizeParameters; simpl. unfold compare_keys; simpl.
    change [97] with (js "a"); change [66] with (js "B").
    rewrite Hba'. reflexivity.
  - reflexivity.
Qed.

Lemma normalizeParameters_orders_by_localeCompare_witness :
  normalizeParameters alphabetic_compare [(js "a", js "1"); (js "B", js "2")]
  = Normal (js "a=1&B=2")
  /\ normalizeParameters alphabetic_compare [(js "B", js "2"); (js "a", js "1")]
     = Normal (js "a=1&B=2")
  /\ (code_unit_compare (js "B") (js "a") < 0)%Z.
Proof.
  apply (normalizeParameters_orders_by_localeCompare alphabetic_compare);
    vm_compute; reflexivity.
Defined.

(** ** What is signed for a request with query parameters (C6) *)

Lemma fold_Set_property_CreateDataProperty {V} (l acc : JSObject V) :
  Forall (fun kv => fst kv <> PROTO) l ->
  fold_left (fun o kv => Set_property o (fst kv) (snd kv)) l acc
  = fold_left (fun o kv => CreateDataProperty o (fst kv) (snd kv)) l acc.
Proof.
  intros Hl. revert acc. induction Hl as [|kv l Hkv _ IH]; intros acc; cbn [fold_left].
  - reflexivity.
  - unfold Set_property at 2. apply jsstring_eqb_neq in Hkv. rewrite Hkv. apply IH.
Qed.

Lemma cut_at_no_sep (sep : N) (s : list N) : ~ In sep s -> cut_at sep s = (s, None).
Proof.
  induction s as [|c s IH]; intros Hs; cbn [cut_at]; [reflexivity|].
  destruct (N.eqb_spec c sep) as [->|_]; [exfalso; apply Hs; now left|].
  rewrite IH; [reflexivity|]. intros H. apply Hs. now right.
Qed.

Section SignedQuery.
Variable number : Type.
Variable Number_toString : number -> jsstring.

Local Abbreviation body_of := (buildRequestParameters number Number_toString).
Local Abbreviation sent := (sent_query number Number_toString).
Local Abbreviation url_of := (buildUrl number Number_toString).

Variable this : ZaimApiClient.
Variable endpoint : jsstring.
Variable q : RequestParameters number.

Hypothesis this_baseUrl : baseUrl this = js "https://api.zaim.net".
Hypothesis endpoint_path : ~ In QUESTION endpoint /\ ~ In HASH endpoint.
Hypothesis q_nonempty : q <> [].
Hypothesis q_valid :
  Forall (fun kv => valid_string (fst kv)
                    /\ valid_string (String_of number Number_toString (snd kv))) q.

Lemma entries_valid :
  Forall (fun kv => valid_string (fst kv)
                    /\ valid_string (String_of number Number_toString (snd kv)))
         (Object_entries q).
Proof.
  rewrite Forall_forall in *. intros kv Hkv. apply q_valid.
  eapply Permutation_in; [apply Object_entries_Permutation|assumption].
Qed.

Lemma sent_query_strings :
  sent q = map (fun nv => (toUSVString (fst nv), toUSVString (snd nv)))
               (map (fun kv => (fst kv, String_of number Number_toString (snd kv)))
                    (Object_entries q)).
Proof. unfold sent_query. now rewrite map_map. Qed.

Lemma buildUrl_query :
  url_of this endpoint (Some q)
  = baseUrl this ++ endpoint ++ [QUESTION] ++ URLSearchParams_toString (sent q).
Proof.
  unfold buildUrl.
  assert (Hlen : (0 <? List.length (Object_keys q))%nat = true).
  { apply Nat.ltb_lt. unfold Object_keys. rewrite length_map.
    rewrite (Permutation_length (Object_entries_Permutation q)).
    destruct q; [congruence|cbn; lia]. }
  rewrite Hlen. unfold URLSearchParams_append.
  rewrite (fold_left_append
             (fun kv => (toUSVString (fst kv),
                         toUSVString (String_of number Number_toString (snd kv))))).
  cbn [app]. rewrite <- app_assoc. reflexivity.
Qed.

Lemma sent_query_chars :
  Forall (fun c => c < 128 /\ c <> QUESTION /\ c <> HASH) (URLSearchParams_toString (sent q)).
Proof.
  rewrite sent_query_strings, URLSearchParams_toString_USV.
  2: { apply Forall_map. eapply Forall_impl; [|apply entries_valid]. cbn beta. tauto. }
  apply join_chars; [unfold AMP, QUESTION, HASH; lia|].
  rewrite map_map. apply Forall_map. eapply Forall_impl; [|apply entries_valid].
  intros kv [Hk Hv]. cbn [fst snd].
  assert (H : forall s, valid_string s ->
                        Forall (fun c => c < 128 /\ c <> QUESTION /\ c <> HASH) (urlencoded_string s)).
  { intros s Hs. apply urlencoded_string_chars in Hs. rewrite Forall_forall in *.
    intros c Hc. specialize (Hs c Hc).
    destruct (urlencoded_char_ascii c Hs) as (? & ? & ? & ?). repeat split; try assumption.
    intros ->. discriminate Hs. }
  apply Forall_app. split; [auto|]. constructor; [|cbn [app]; auto].
  unfold EQUALS, QUESTION, HASH. lia.
Qed.

Lemma URLSearchParams_toString_nonempty (l : URLSearchParams) :
  l <> [] -> URLSearchParams_toString l <> [].
Proof.
  destruct l as [|nv l]; [congruence|]. intros _ H.
  unfold URLSearchParams_toString in H. cbn [map] in H.
  destruct (map _ l); cbn [join] in H.
  - apply app_eq_nil in H as [_ H]. discriminate.
  - apply app_eq_nil in H as [_ H]. discriminate.
Qed.

Lemma url_without_query_chars :
  ~ In QUESTION (baseUrl this ++ endpoint) /\ ~ In HASH (baseUrl this ++ endpoint).
Proof.
  rewrite this_baseUrl. split; intros H; apply in_app_or in H as [H|H];
    try (now apply endpoint_path);
    cbn in H; decompose [or] H; try discriminate; assumption.
Qed.

Lemma split_url :
  split QUESTION (url_of this endpoint (Some q))
  = [baseUrl this ++ endpoint; URLSearchParams_toString (sent q)].
Proof.
  rewrite buildUrl_query. rewrite app_assoc. cbn [app].
  rewrite split_app by apply url_without_query_chars.
  f_equal. apply split_no_sep. intros H.
  pose proof sent_query_chars as Hc. rewrite Forall_forall in Hc.
  destruct (Hc _ H) as (_ & Hq & _). congruence.
Qed.

Lemma url_query_sent :
  url_query (url_of this endpoint (Some q)) = Some (URLSearchParams_toString (sent q)).
Proof.
  unfold url_query. rewrite (cut_at_no_sep HASH).
  - rewrite buildUrl_query. rewrite app_assoc. cbn [app fst].
    rewrite cut_at_app by apply url_without_query_chars. reflexivity.
  - rewrite buildUrl_query. rewrite app_assoc. intros H.
    apply in_app_or in H as [H|H]; [now apply url_without_query_chars|].
    cbn [app In] in H. destruct H as [H|H]; [discriminate|].
    pose proof sent_query_chars as Hc. rewrite Forall_forall in Hc.
    destruct (Hc _ H) as (_ & _ & Hh). congruence.
Qed.

Lemma parse_sent_query : URLSearchParams_parse (URLSearchParams_toString (sent q)) = sent q.
Proof.
  rewrite sent_query_strings at 1. rewrite URLSearchParams_toString_USV.
  2: { apply Forall_map. eapply Forall_impl; [|apply entries_valid]. cbn beta. tauto. }
  rewrite URLSearchParams_parse_toString.
  2: { apply Forall_map. eapply Forall_impl; [|apply entries_valid]. cbn beta. tauto. }
  now rewrite sent_query_strings.
Qed.

Lemma sent_query_nonempty : sent q <> [].
Proof.
  unfold sent_query. intros H. apply map_eq_nil in H.
  apply q_nonempty. apply Permutation_nil. rewrite <- H.
  apply Object_entries_Permutation.
Qed.

Lemma extractQueryParams_sent :
  extractQueryParams (url_of this endpoint (Some q))
  = fold_left (fun o nv => Set_property o (fst nv) (snd nv)) (sent q) [].
Proof.
  unfold extractQueryParams, url_queryString. rewrite split_url. cbn [nth_error].
  pose proof (URLSearchParams_toString_nonempty _ sent_query_nonempty) as Hne.
  destruct (URLSearchParams_toString (sent q)) as [|c qs] eqn:E; [congruence|].
  rewrite <- E. now rewrite parse_sent_query.
Qed.

Hypothesis q_keys : NoDup (map fst q).
Hypothesis q_names : Forall (fun kv => isWellFormed (fst kv) = true /\ fst kv <> PROTO) q.

Lemma sent_query_keys : map fst (sent q) = map fst (Object_entries q).
Proof.
  unfold sent_query. rewrite map_map. apply map_ext_in. intros kv Hkv. cbn [fst].
  apply (Permutation_in _ (Object_entries_Permutation q)) in Hkv.
  rewrite Forall_forall in q_valid, q_names.
  apply toUSVString_wellformed; [apply (q_valid kv Hkv) | apply (q_names kv Hkv)].
Qed.

Lemma obj_get_extractQueryParams (k : jsstring) :
  obj_get (extractQueryParams (url_of this endpoint (Some q))) k = obj_get (sent q) k.
Proof.
  assert (Hnd : NoDup (map fst (sent q))).
  { rewrite sent_query_keys. now apply Object_entries_NoDup. }
  rewrite extractQueryParams_sent, fold_Set_property_CreateDataProperty.
  - rewrite obj_get_fold_CreateDataProperty by assumption.
    destruct (obj_get (sent q) k); reflexivity.
  - apply Forall_forall. intros nv Hnv.
    assert (Hin : In (fst nv) (map fst (Object_entries q)))
      by (rewrite <- sent_query_keys; now apply in_map).
    apply in_map_iff in Hin as (kv & <- & Hkv).
    apply (Permutation_in _ (Object_entries_Permutation q)) in Hkv.
    rewrite Forall_forall in q_names. apply (q_names kv Hkv).
Qed.

(** C6, amended. For a client made by the constructor, an endpoint that
    is a path (no ['?'], no ['#']) and query parameters whose names are
    well-formed strings other than ["__proto__"]: the URL handed to the
    signer is the base host and the endpoint, without the query string;
    the URL handed to [fetch] carries the serialized query parameters,
    which parse back to those very pairs; and the signed parameter set
    looks a name up in these pairs first, then in the stringified body
    parameters, then in the six OAuth parameters. *)
Theorem request_signs_sent_query :
  forall env method data,
    sc_url (signerCall this env method (url_of this endpoint (Some q)) (body_of data))
    = baseUrl this ++ endpoint
    /\ url_of this endpoint (Some q)
       = baseUrl this ++ endpoint ++ [QUESTION] ++ URLSearchParams_toString (sent q)
    /\ url_query (url_of this endpoint (Some q)) = Some (URLSearchParams_toString (sent q))
    /\ URLSearchParams_parse (URLSearchParams_toString (sent q)) = sent q
    /\ (forall k,
          obj_get (sc_parameters
                     (signerCall this env method (url_of this endpoint (Some q)) (body_of data))) k
          = match obj_get (sent q) k with
            | Some v => Some v
            | None => match obj_get (body_of data) k with
                      | Some v => Some v
                      | None => obj_get (oauthParams this env) k
                      end
            end)
    /\ covers_sent_query number Number_toString this env method endpoint data q.
Proof.
  intros env method data.
  assert (Hget : forall k,
             obj_get (sc_parameters
                        (signerCall this env method (url_of this endpoint (Some q)) (body_of data))) k
             = match obj_get (sent q) k with
               | Some v => Some v
               | None => match obj_get (body_of data) k with
                         | Some v => Some v
                         | None => obj_get (oauthParams this env) k
                         end
               end).
  { intros k. cbn [signerCall sc_parameters].
    rewrite obj_get_allParams by apply buildRequestParameters_NoDup.
    now rewrite obj_get_extractQueryParams. }
  split; [|split; [|split; [|split; [|split]]]].
  - cbn [signerCall sc_url]. unfold url_baseUrl. now rewrite split_url.
  - apply buildUrl_query.
  - apply url_query_sent.
  - apply parse_sent_query.
  - exact Hget.
  - intros qs Hqs k v Hin. rewrite url_query_sent in Hqs. inversion Hqs; subst qs.
    rewrite parse_sent_query in Hin. rewrite Hget.
    assert (Hnd : NoDup (map fst (sent q))).
    { rewrite sent_query_keys. now apply Object_entries_NoDup. }
    apply (obj_get_Some _ k v Hnd) in Hin. now rewrite Hin.
Qed.
End SignedQuery.

(** C6, as stated, fails when the endpoint already holds a ['?']: of the
    URL [.../v2/home/money?mode=payment?limit=5] the signer is given the
    parameter [mode=payment] and no [limit], while the query of that URL
    is the single pair [mode], [payment?limit=5]. *)
Lemma request_with_query_in_endpoint :
  ~ covers_sent_query N N_toString sample_client sample_env GET
      (js "/v2/home/money?mode=payment") None [(js "limit", PNumber 5)].
Proof.
  intros H.
  specialize (H (js "mode=payment?limit=5") eq_refl (js "mode") (js "payment?limit=5")
                (or_introl eq_refl)).
  vm_compute in H. discriminate H.
Qed.

Lemma request_with_query_in_endpoint_trace :
  buildUrl N N_toString sample_client (js "/v2/home/money?mode=payment")
           (Some [(js "limit", PNumber 5)])
  = js "https://api.zaim.net/v2/home/money?mode=payment?limit=5"
  /\ url_query (js "https://api.zaim.net/v2/home/money?mode=payment?limit=5")
     = Some (js "mode=payment?limit=5")
  /\ URLSearchParams_parse (js "mode=payment?limit=5") = [(js "mode", js "payment?limit=5")]
  /\ obj_get (sc_parameters
                (signerCall sample_client sample_env GET
                   (js "https://api.zaim.net/v2/home/money?mode=payment?limit=5") []))
             (js "limit") = None
  /\ obj_get (sc_parameters
                (signerCall sample_client sample_env GET
                   (js "https://api.zaim.net/v2/home/money?mode=payment?limit=5") []))
             (js "mode") = Some (js "payment").
Proof.
  split; [|split; [|split; [|split]]]; vm_compute; reflexivity.
Qed.

Lemma request_signs_sent_query_witness :
  sc_url (signerCall sample_client sample_env GET
            (buildUrl N N_toString sample_client (js "/v2/home/money")
               (Some [(js "start_date", PString (js "2024-01-01"));
                      (js "end_date", PString (js "2024-01-31"))]))
            (buildRequestParameters N N_toString None))
  = js "https://api.zaim.net/v2/home/money"
  /\ buildUrl N N_toString sample_client (js "/v2/home/money")
       (Some [(js "start_date", PString (js "2024-01-01"));
              (js "end_date", PString (js "2024-01-31"))])
     = js "https://api.zaim.net/v2/home/money?start_date=2024-01-01&end_date=2024-01-31"
  /\ obj_get (sc_parameters
                (signerCall sample_client sample_env GET
                   (buildUrl N N_toString sample_client (js "/v2/home/money")
                      (Some [(js "start_date", PString (js "2024-01-01"));
                             (js "end_date", PString (js "2024-01-31"))]))
                   (buildRequestParameters N N_toString None)))
             (js "end_date") = Some (js "2024-01-31").
Proof.
  destruct (request_signs_sent_query N N_toString sample_client (js "/v2/home/money")
              [(js "start_date", PString (js "2024-01-01"));
               (js "end_date", PString (js "2024-01-31"))]) with
    (env := sample_env) (method := GET) (data := @None (RequestParameters N))
    as (Hurl & Hsent & _ & _ & Hget & _).
  - reflexivity.
  - split; cbn; intros H; decompose [or] H; try discriminate; assumption.
  - discriminate.
  - repeat constructor; cbn [fst snd String_of]; apply valid_string_js.
  - repeat constructor; cbn; intros H; decompose [or] H; try discriminate; assumption.
  - repeat constructor; cbn [fst]; try reflexivity; discriminate.
  - split; [exact Hurl|]. split.
    + etransitivity; [exact Hsent|]. vm_compute. reflexivity.
    + etransitivity; [exact (Hget (js "end_date"))|]. vm_compute. reflexivity.
Defined.

(** ** Response normalization (C7) *)

Section Responses.
Context {number : Type}.
Variable Number_toString : number -> jsstring.
Variable Number_toBoolean : number -> bool.

Local Abbreviation handleResponse := (handleResponse number Number_toString Number_toBoolean).

(** A success status: the body as parsed, or [{}] when parsing failed. *)
Lemma handleResponse_ok (r : Response number) :
  ok r = true ->
  handleResponse r = Normal (match json r with Normal d => d | Throw _ => JObject [] end).
Proof. unfold handleResponse. intros ->. reflexivity. Qed.

(** An error status with a body that failed to parse. *)
Lemma handleResponse_unparsed (r : Response number) (e : thrown) :
  ok r = false -> json r = Throw e ->
  handleResponse r = Throw (api_error (status r) (js "Unknown error")).
Proof. unfold handleResponse. intros -> ->. reflexivity. Qed.

(** An error status with an object body: a non-empty string [message]
    wins, then a non-empty string [error], then ["Unknown error"]. *)
Lemma handleResponse_object (r : Response number) (properties : list (jsstring * JSON number)) :
  ok r = false -> json r = Normal (JObject properties) ->
  (forall m, obj_get properties (js "message") = Some (JString m) -> m <> [] ->
             handleResponse r = Throw (api_error (status r) m))
  /\ (forall e, obj_get properties (js "message") = None ->
                obj_get properties (js "error") = Some (JString e) -> e <> [] ->
                handleResponse r = Throw (api_error (status r) e))
  /\ (obj_get properties (js "message") = None ->
      obj_get properties (js "error") = None ->
      handleResponse r = Throw (api_error (status r) (js "Unknown error"))).
Proof.
  intros Hok Hjson. unfold handleResponse. rewrite Hok, Hjson. simpl.
  unfold errorMessage_of. simpl. split; [|split].
  - intros m -> Hm. destruct m; [congruence|]. reflexivity.
  - intros e -> -> He. destruct e; [congruence|]. reflexivity.
  - intros -> ->. reflexivity.
Qed.

(** C7. An error status whose body is the JSON text [null] does not
    raise the API error: reading [message] of [null] throws a
    [TypeError], which the [catch] block of [request] then reports as a
    network error. *)
Theorem handleResponse_null_body :
  ok (null_body_response (number := number)) = false
  /\ handleResponse null_body_response = Throw null_TypeError
  /\ Throw null_TypeError <> Throw (A := JSON number) (api_error 500 (js "Unknown error"))
  /\ request_catch null_TypeError
     = new_Error (js "Network error occurred: Cannot read properties of null (reading 'message')")
  /\ sample_request (fun _ _ => Normal null_body_response) GET (js "/v2/home/user/verify")
       None None
     = Throw (new_Error
                (js "Network error occurred: Cannot read properties of null (reading 'message')")).
Proof.
  split; [|split; [|split; [|split]]].
  - reflexivity.
  - reflexivity.
  - intros H. inversion H.
  - reflexivity.
  - vm_compute. reflexivity.
Qed.
End Responses.

(** ** Construction of a client (C8) *)

Lemma validateConfig_Normal (c : OAuthConfig) :
  validateConfig c = Normal tt <->
  consumerKey c <> [] /\ consumerSecret c <> [] /\ accessToken c <> []
  /\ accessTokenSecret c <> [].
Proof.
  unfold validateConfig.
  destruct (consumerKey c), (consumerSecret c), (accessToken c), (accessTokenSecret c);
    simpl; split; intros H; try discriminate; try reflexivity;
    try (repeat split; discriminate);
    try (decompose [and] H; congruence).
Qed.

(** C8. The constructor rejects an empty credential and accepts a
    credential made of one space, which is empty after trimming and which
    [TokenStorage.validateConfig] rejects. *)
Theorem new_ZaimApiClient_accepts_blank_credential :
  new_ZaimApiClient empty_config = Throw (new_Error (js "consumerKey is required"))
  /\ trim (consumerKey blank_config) = []
  /\ TokenStorage_validateConfig blank_config = false
  /\ new_ZaimApiClient blank_config
     = Normal {| config := blank_config; baseUrl := js "https://api.zaim.net" |}.
Proof.
  split; [|split; [|split]]; reflexivity.
Qed.

(** ** Error classification in [request] (C9) *)

Lemma includes_network_prefix (message : jsstring) :
  includes API_ERROR_MARKER (js "Network error occurred: " ++ message)
  = includes API_ERROR_MARKER message.
Proof. reflexivity. Qed.

Lemma includes_api_error (status : N) (text : jsstring) :
  includes API_ERROR_MARKER
    (js "Zaim API Error: " ++ N_toString status ++ js " - " ++ text) = true.
Proof. reflexivity. Qed.

Lemma request_catch_api_error (status : N) (text : jsstring) :
  request_catch (api_error status text) = api_error status text.
Proof. reflexivity. Qed.

(** C9, as stated, fails: a transport error whose message contains
    ["Zaim API Error"], here the one raised for the endpoint
    ["Zaim API Error"], is rethrown as it is, not wrapped as a network
    error. *)
Lemma request_rethrows_marked_transport_error :
  sample_request (rejecting_fetch marked_transport_error) GET (js "Zaim API Error") None None
  = Throw marked_transport_error
  /\ sample_request (rejecting_fetch marked_transport_error) GET (js "Zaim API Error") None None
     <> Throw (new_Error (js "Network error occurred: Failed to parse URL from https://api.zaim.netZaim API Error")).
Proof.
  split.
  - vm_compute. reflexivity.
  - vm_compute. intros H. discriminate H.
Qed.

Section Requests.
Variable localeCompare : jsstring -> jsstring -> Z.
Variable toUpperCase : jsstring -> jsstring.
Variable hmac_sha1_base64 : jsstring -> jsstring -> jsstring.
Variable number : Type.
Variable Number_toString : number -> jsstring.
Variable Number_toBoolean : number -> bool.
Variable fetch : jsstring -> RequestInit -> completion (Response number).
Variable this : ZaimApiClient.

Local Abbreviation client_request :=
  (request localeCompare toUpperCase hmac_sha1_base64 number Number_toString Number_toBoolean
           fetch this).
Local Abbreviation client_prepare :=
  (prepare_request localeCompare toUpperCase hmac_sha1_base64 number Number_toString this).
Local Abbreviation client_handleResponse :=
  (handleResponse number Number_toString Number_toBoolean).

(** C9, amended. Once the request is prepared, the outcome of [fetch]
    decides the result: a thrown [Error] whose message does not contain
    ["Zaim API Error"] is re-raised as ["Network error occurred: "]
    followed by that message, one whose message contains it is rethrown
    unchanged, and any other thrown value becomes ["Unknown network error
    occurred"]; an API error raised for a received response is rethrown
    unchanged.  Wrapping never introduces the marker, and every API error
    carries it. *)
Theorem request_error_classification :
  forall env method endpoint data queryParams url options,
    client_prepare env method endpoint data queryParams = Normal (url, options) ->
    client_request env method endpoint data queryParams
    = match fetch url options with
      | Throw (ErrorObject name message) =>
          if includes API_ERROR_MARKER message then Throw (ErrorObject name message)
          else Throw (new_Error (js "Network error occurred: " ++ message))
      | Throw NonError => Throw (new_Error (js "Unknown network error occurred"))
      | Normal response =>
          match client_handleResponse response with
          | Normal body => Normal body
          | Throw error => Throw (request_catch error)
          end
      end
    /\ (forall message,
           includes API_ERROR_MARKER (js "Network error occurred: " ++ message)
           = includes API_ERROR_MARKER message)
    /\ (forall status text,
           includes API_ERROR_MARKER
             (js "Zaim API Error: " ++ N_toString status ++ js " - " ++ text) = true
           /\ request_catch (api_error status text) = api_error status text).
Proof.
  intros env method endpoint data queryParams url options Hprep.
  split; [|split].
  - unfold request, request_try. rewrite Hprep. simpl.
    destruct (fetch url options) as [response|[name message|]]; simpl.
    + destruct (handleResponse _ _ _ response); reflexivity.
    + unfold API_ERROR_MARKER. destruct (includes (js "Zaim API Error") message); reflexivity.
    + reflexivity.
  - intros message. apply includes_network_prefix.
  - intros status text. split; reflexivity.
Qed.
End Requests.

Lemma request_error_classification_witness :
  exists url options,
    sample_prepare_request GET (js "/v2/home/user/verify") None None = Normal (url, options)
    /\ sample_request (rejecting_fetch (new_Error (js "fetch failed"))) GET
         (js "/v2/home/user/verify") None None
       = Throw (new_Error (js "Network error occurred: fetch failed")).
Proof.
  do 2 eexists.
  match goal with |- ?A /\ _ => assert (H : A) by (vm_compute; reflexivity) end.
  split; [exact H|].
  destruct (request_error_classification alphabetic_compare ascii_toUpperCase sample_hmac
              N N_toString N_toBoolean
              (rejecting_fetch (new_Error (js "fetch failed"))) sample_client
              sample_env GET (js "/v2/home/user/verify") None None _ _ H) as [Heq _].
  exact Heq.
Defined.

(* ================================================================== *)
(** * Part III. Further properties of the signer, the client and its callers *)
(* ================================================================== *)

(** ** Separators never occur in encoded text *)

Lemma uri_char_ascii (c : code_unit) :
  uri_char c = true ->
  c < 128 /\ c <> AMP /\ c <> EQUALS /\ c <> QUESTION /\ c <> PLUS /\ c <> DQUOTE.
Proof.
  unfold uri_char, uriUnescaped, is_alnum, is_upper, is_lower, is_digit, mem_unit, uriMark,
    PLUS, PERCENT, AMP, EQUALS, QUESTION, DQUOTE.
  cbn [js list_ascii_of_string map existsb unit_of_ascii N_of_ascii N_of_digits].
  rewrite !orb_true_iff, !in_range_spec, !N.eqb_eq. cbn. lia.
Qed.

Lemma encoded_no_separator (s r : jsstring) :
  valid_string s -> encodeURIComponent s = Normal r ->
  ~ In AMP r /\ ~ In EQUALS r /\ ~ In QUESTION r /\ ~ In PLUS r /\ Forall (fun c => c < 128) r.
Proof.
  intros Hv Hr. destruct (encodeURIComponent_Normal s r Hv Hr) as (_ & _ & Hch).
  rewrite Forall_forall in Hch.
  repeat split; try (intros Hin; destruct (uri_char_ascii _ (Hch _ Hin)) as (? & ? & ? & ? & ? & ?);
                     congruence).
  apply Forall_forall. intros c Hc. now destruct (uri_char_ascii _ (Hch _ Hc)).
Qed.

(** Two texts cut at the first separator are equal part by part. *)
Lemma app_sep_inj (sep : N) (a b a' b' : list N) :
  ~ In sep a -> ~ In sep a' -> a ++ sep :: b = a' ++ sep :: b' -> a = a' /\ b = b'.
Proof.
  intros Ha Ha' H.
  pose proof (cut_at_app sep a b Ha) as H1. pose proof (cut_at_app sep a' b' Ha') as H2.
  rewrite H in H1. rewrite H1 in H2. inversion H2. auto.
Qed.

Lemma join_nonempty (sep : code_unit) (parts : list jsstring) :
  Forall (fun p => p <> []) parts -> parts <> [] -> join [sep] parts <> [].
Proof.
  intros Hne Hparts. destruct parts as [|p parts]; [congruence|].
  inversion Hne as [|? ? Hp _]; subst. destruct parts; cbn [join].
  - assumption.
  - intros H. apply app_eq_nil in H as [H _]. contradiction.
Qed.

(** Joining parts that hold no separator, none of them empty, loses nothing. *)
Lemma join_inj (sep : code_unit) (l1 l2 : list jsstring) :
  Forall (fun p => ~ In sep p /\ p <> []) l1 ->
  Forall (fun p => ~ In sep p /\ p <> []) l2 ->
  join [sep] l1 = join [sep] l2 -> l1 = l2.
Proof.
  intros H1 H2 Hj.
  assert (Hs : forall l, Forall (fun p => ~ In sep p /\ p <> []) l ->
                         Forall (fun p => ~ In sep p) l /\ Forall (fun p => p <> []) l).
  { intros l Hl. split; eapply Forall_impl; try exact Hl; cbn beta; tauto. }
  destruct (Hs l1 H1) as [H1a H1b]. destruct (Hs l2 H2) as [H2a H2b].
  destruct l1 as [|p1 l1], l2 as [|p2 l2]; try reflexivity.
  - exfalso. symmetry in Hj. revert Hj. apply join_nonempty; [assumption|discriminate].
  - exfalso. revert Hj. apply join_nonempty; [assumption|discriminate].
  - rewrite <- (split_join sep (p1 :: l1)), <- (split_join sep (p2 :: l2));
      try assumption; try discriminate. now rewrite Hj.
Qed.

(** ** The normalized string determines the parameters *)

Lemma Forall2_functional {A B} (R : A -> B -> Prop) (l : list A) (r1 r2 : list B) :
  (forall a b b', R a b -> R a b' -> b = b') ->
  Forall2 R l r1 -> Forall2 R l r2 -> r1 = r2.
Proof.
  intros Hf H1. revert r2. induction H1 as [|a b l r1 Hab _ IH]; intros r2 H2;
    inversion H2; subst; [reflexivity|].
  f_equal; [eapply Hf; eassumption|auto].
Qed.

Lemma encode_entry_inj (a a' b : jsstring * jsstring) :
  valid_string (fst a) -> valid_string (snd a) ->
  valid_string (fst a') -> valid_string (snd a') ->
  encode_entry a = Normal b -> encode_entry a' = Normal b -> a = a'.
Proof.
  intros Hk Hv Hk' Hv' H H'.
  apply encode_entry_Normal in H as [H1 H2]. apply encode_entry_Normal in H' as [H1' H2'].
  destruct a, a'. cbn [fst snd] in *. f_equal; eapply encodeURIComponent_inj; eassumption.
Qed.

Lemma format_pair_inj (x y : jsstring * jsstring) :
  ~ In EQUALS (fst x) -> ~ In EQUALS (fst y) -> format_pair x = format_pair y -> x = y.
Proof.
  unfold format_pair. intros Hx Hy H. cbn [app] in H.
  destruct (app_sep_inj EQUALS _ _ _ _ Hx Hy H). destruct x, y. cbn [fst snd] in *. congruence.
Qed.

Lemma map_format_pair_inj (s1 s2 : list (jsstring * jsstring)) :
  Forall (fun kv => ~ In EQUALS (fst kv)) s1 -> Forall (fun kv => ~ In EQUALS (fst kv)) s2 ->
  map format_pair s1 = map format_pair s2 -> s1 = s2.
Proof.
  intros H1. revert s2. induction H1 as [|x s1 Hx _ IH]; intros [|y s2] H2 Hmap;
    try discriminate; [reflexivity|].
  inversion H2 as [|? ? Hy H2']; subst. cbn [map] in Hmap.
  inversion Hmap as [[Hh Ht]]. f_equal; [now apply format_pair_inj|now apply IH].
Qed.

(** The encoded pairs hold no separator of their own. *)
Lemma encoded_entries_clean (l encoded : list (jsstring * jsstring)) :
  entries_valid_strings l ->
  mapM encode_entry l = Normal encoded ->
  Forall (fun kv => ~ In AMP (fst kv) /\ ~ In EQUALS (fst kv) /\ ~ In AMP (snd kv)) encoded
  /\ Forall2 (fun b a => (valid_string (fst a) /\ valid_string (snd a))
                         /\ encode_entry a = Normal b) encoded l.
Proof.
  intros Hl H. apply mapM_Normal in H.
  induction H as [|a b l encoded Hab _ IH]; [split; constructor|].
  inversion Hl as [|? ? [Hk Hv] Hl']; subst. destruct (IH Hl') as [IH1 IH2].
  split; constructor; auto.
  apply encode_entry_Normal in Hab as [H1 H2].
  destruct (encoded_no_separator _ _ Hk H1) as (? & ? & _).
  destruct (encoded_no_separator _ _ Hv H2) as (? & _). auto.
Qed.

(** X1. Two parameter objects that normalize to the same string hold the
    same properties: the normalized string determines the parameter set
    up to the order of creation, whatever the comparator. *)
Theorem normalizeParameters_determines_parameters :
  forall (localeCompare : jsstring -> jsstring -> Z) (p1 p2 : JSObject jsstring)
         (normalized : jsstring),
    entries_valid_strings p1 -> entries_valid_strings p2 ->
    normalizeParameters localeCompare p1 = Normal normalized ->
    normalizeParameters localeCompare p2 = Normal normalized ->
    Permutation p1 p2.
Proof.
  intros lc p1 p2 r Hv1 Hv2 H1 H2. unfold normalizeParameters in H1, H2.
  apply bind_Normal in H1 as (e1 & He1 & H1). apply bind_Normal in H2 as (e2 & He2 & H2).
  inversion H1 as [Hr1]. inversion H2 as [Hr2]. clear H1 H2.
  assert (Hoe : forall p, entries_valid_strings p -> entries_valid_strings (Object_entries p)).
  { intros p Hp. unfold entries_valid_strings in *. rewrite Forall_forall in *.
    intros kv Hkv. apply Hp. eapply Permutation_in; [apply Object_entries_Permutation|assumption]. }
  destruct (encoded_entries_clean _ _ (Hoe _ Hv1) He1) as [Hc1 Hf1].
  destruct (encoded_entries_clean _ _ (Hoe _ Hv2) He2) as [Hc2 Hf2].
  set (s1 := Array_sort (compare_keys lc) e1) in *.
  set (s2 := Array_sort (compare_keys lc) e2) in *.
  assert (Hp1 : Permutation s1 e1) by apply Array_sort_Permutation.
  assert (Hp2 : Permutation s2 e2) by apply Array_sort_Permutation.
  assert (Hs1 : Forall (fun kv => ~ In AMP (fst kv) /\ ~ In EQUALS (fst kv) /\ ~ In AMP (snd kv)) s1).
  { rewrite Forall_forall in *. intros kv Hkv. apply Hc1. eapply Permutation_in; eassumption. }
  assert (Hs2 : Forall (fun kv => ~ In AMP (fst kv) /\ ~ In EQUALS (fst kv) /\ ~ In AMP (snd kv)) s2).
  { rewrite Forall_forall in *. intros kv Hkv. apply Hc2. eapply Permutation_in; eassumption. }
  assert (Hparts : forall s,
             Forall (fun kv => ~ In AMP (fst kv) /\ ~ In EQUALS (fst kv) /\ ~ In AMP (snd kv)) s ->
             Forall (fun p => ~ In AMP p /\ p <> []) (map format_pair s)).
  { intros s Hs. apply Forall_map. eapply Forall_impl; [|exact Hs].
    intros kv (Ha & _ & Hb). unfold format_pair. split.
    - intros Hin. apply in_app_or in Hin as [Hin|Hin]; [auto|].
      cbn [app In] in Hin. destruct Hin as [Hin|Hin]; [discriminate|auto].
    - intros Hnil. apply app_eq_nil in Hnil as [_ Hnil]. discriminate. }
  assert (Hmap : map format_pair s1 = map format_pair s2).
  { apply (join_inj AMP); auto. congruence. }
  assert (Hs : s1 = s2).
  { apply map_format_pair_inj; try assumption;
      eapply Forall_impl; try eassumption; cbn beta; tauto. }
  assert (He : Permutation e1 e2).
  { rewrite <- Hp1, <- Hp2, Hs. reflexivity. }
  destruct (Permutation_Forall2 He Hf1) as (l2' & Hperm & Hf2').
  assert (l2' = Object_entries p2) as ->.
  { apply (Forall2_functional _ _ _ _ (fun b a a' Ha Ha' =>
             encode_entry_inj a a' b (proj1 (proj1 Ha)) (proj2 (proj1 Ha))
                              (proj1 (proj1 Ha')) (proj2 (proj1 Ha')) (proj2 Ha) (proj2 Ha'))
             Hf2' Hf2). }
  rewrite !Object_entries_Permutation in Hperm. exact Hperm.
Qed.

Lemma normalizeParameters_determines_parameters_witness :
  Permutation [(js "b", js "2"); (js "a", js "1")] [(js "a", js "1"); (js "b", js "2")].
Proof.
  apply (normalizeParameters_determines_parameters code_unit_compare _ _ (js "a=1&b=2")).
  - repeat constructor; apply valid_string_js.
  - repeat constructor; apply valid_string_js.
  - reflexivity.
  - reflexivity.
Defined.

(** ** The signing key and the base string keep their parts apart *)

Lemma constructSigningKey_parts (consumerSecret : jsstring) (tokenSecret : option jsstring) :
  constructSigningKey consumerSecret tokenSecret
  = (c <- encodeURIComponent consumerSecret ;;
     t <- encodeURIComponent (secret_or_empty tokenSecret) ;;
     Normal (c ++ [AMP] ++ t)).
Proof. destruct tokenSecret as [[|x t]|]; reflexivity. Qed.

(** X2. The signing key determines both secrets: two pairs of secrets with
    the same key are the same pair (an absent token secret counting as
    the empty one). *)
Theorem constructSigningKey_determines_secrets :
  forall (c1 c2 : jsstring) (t1 t2 : option jsstring) (key : jsstring),
    valid_string c1 -> valid_string c2 ->
    valid_string (secret_or_empty t1) -> valid_string (secret_or_empty t2) ->
    constructSigningKey c1 t1 = Normal key ->
    constructSigningKey c2 t2 = Normal key ->
    c1 = c2 /\ secret_or_empty t1 = secret_or_empty t2.
Proof.
  intros c1 c2 t1 t2 key Hc1 Hc2 Ht1 Ht2 H1 H2.
  rewrite constructSigningKey_parts in H1, H2.
  apply bind_Normal in H1 as (e1 & He1 & H1). apply bind_Normal in H1 as (f1 & Hf1 & H1).
  apply bind_Normal in H2 as (e2 & He2 & H2). apply bind_Normal in H2 as (f2 & Hf2 & H2).
  inversion H1 as [Hk1]. inversion H2 as [Hk2]. rewrite <- Hk2 in Hk1. cbn [app] in Hk1.
  destruct (encoded_no_separator _ _ Hc1 He1) as (Ha1 & _).
  destruct (encoded_no_separator _ _ Hc2 He2) as (Ha2 & _).
  destruct (app_sep_inj AMP _ _ _ _ Ha1 Ha2 Hk1) as [-> ->].
  split; eapply encodeURIComponent_inj; eassumption.
Qed.

Lemma constructSigningKey_determines_secrets_witness :
  js "consumer&secret" = js "consumer&secret"
  /\ secret_or_empty (Some []) = secret_or_empty None.
Proof.
  apply (constructSigningKey_determines_secrets _ _ _ _ (js "consumer%26secret&")).
  - apply valid_string_js.
  - apply valid_string_js.
  - constructor.
  - constructor.
  - reflexivity.
  - reflexivity.
Defined.

(** X3. The base string determines the upper-cased method, the URL and the
    normalized parameters, as long as upper-casing puts no ['&'] into the
    method. *)
Theorem constructBaseString_determines_request :
  forall (toUpperCase : jsstring -> jsstring) (m1 m2 u1 u2 p1 p2 base : jsstring),
    ~ In AMP (toUpperCase m1) -> ~ In AMP (toUpperCase m2) ->
    valid_string u1 -> valid_string u2 -> valid_string p1 -> valid_string p2 ->
    constructBaseString toUpperCase m1 u1 p1 = Normal base ->
    constructBaseString toUpperCase m2 u2 p2 = Normal base ->
    toUpperCase m1 = toUpperCase m2 /\ u1 = u2 /\ p1 = p2.
Proof.
  intros up m1 m2 u1 u2 p1 p2 base Hm1 Hm2 Hu1 Hu2 Hp1 Hp2 H1 H2.
  unfold constructBaseString in H1, H2.
  apply bind_Normal in H1 as (eu1 & Heu1 & H1). apply bind_Normal in H1 as (ep1 & Hep1 & H1).
  apply bind_Normal in H2 as (eu2 & Heu2 & H2). apply bind_Normal in H2 as (ep2 & Hep2 & H2).
  inversion H1 as [Hb1]. inversion H2 as [Hb2]. rewrite <- Hb2 in Hb1.
  cbn [join app] in Hb1.
  destruct (app_sep_inj AMP _ _ _ _ Hm1 Hm2 Hb1) as [Hm Hrest].
  destruct (encoded_no_separator _ _ Hu1 Heu1) as (Ha1 & _).
  destruct (encoded_no_separator _ _ Hu2 Heu2) as (Ha2 & _).
  destruct (app_sep_inj AMP _ _ _ _ Ha1 Ha2 Hrest) as [-> ->].
  split; [assumption|]. split; eapply encodeURIComponent_inj; eassumption.
Qed.

Lemma constructBaseString_determines_request_witness :
  ascii_toUpperCase (js "get") = ascii_toUpperCase (js "GET")
  /\ js "https://api.zaim.net/v2/home/money" = js "https://api.zaim.net/v2/home/money"
  /\ js "limit=5" = js "limit=5".
Proof.
  apply (constructBaseString_determines_request ascii_toUpperCase _ _ _ _ _ _
           (js "GET&https%3A%2F%2Fapi.zaim.net%2Fv2%2Fhome%2Fmoney&limit%3D5")).
  - cbn. intros H. decompose [or] H; try discriminate; assumption.
  - cbn. intros H. decompose [or] H; try discriminate; assumption.
  - apply valid_string_js.
  - apply valid_string_js.
  - apply valid_string_js.
  - apply valid_string_js.
  - reflexivity.
  - reflexivity.
Defined.

(** ** When the signer returns and what it raises *)

Lemma isWellFormed_ascii (s : jsstring) : Forall (fun c => c < 128) s -> isWellFormed s = true.
Proof.
  induction 1 as [|c s Hc _ IH]; [reflexivity|].
  rewrite isWellFormed_cons.
  assert (Ht : is_trailing_surrogate c = false).
  { apply not_true_is_false. unfold is_trailing_surrogate. rewrite in_range_spec. lia. }
  assert (Hl : is_leading_surrogate c = false).
  { apply not_true_is_false. unfold is_leading_surrogate. rewrite in_range_spec. lia. }
  now rewrite Ht, Hl.
Qed.

(** [encodeURIComponent] returns on the well-formed strings and raises
    the URIError on the others. *)
Lemma encodeURIComponent_completion (s : jsstring) :
  valid_string s ->
  if isWellFormed s then exists r, encodeURIComponent s = Normal r
  else encodeURIComponent s = Throw URIError_malformed.
Proof.
  intros Hv. destruct (isWellFormed s) eqn:Hw.
  - now apply encodeURIComponent_wellformed.
  - destruct (encodeURIComponent s) as [r|e] eqn:He.
    + destruct (encodeURIComponent_Normal s r Hv He) as (_ & Hw' & _). congruence.
    + now rewrite (encodeURIComponent_Throw s e He).
Qed.

Lemma mapM_Throw {A B} (f : A -> completion B) (l : list A) (e : thrown) :
  mapM f l = Throw e -> exists a, In a l /\ f a = Throw e.
Proof.
  induction l as [|a l IH]; intros H; [discriminate|].
  cbn [mapM] in H. apply bind_Throw in H as [H|(b & _ & H)].
  - exists a. split; [now left|assumption].
  - apply bind_Throw in H as [H|(bs & _ & H)]; [|discriminate].
    destruct (IH H) as (a' & Hin & Ha'). exists a'. split; [now right|assumption].
Qed.

Lemma normalizeParameters_Throw (localeCompare : jsstring -> jsstring -> Z)
    (p : JSObject jsstring) (e : thrown) :
  normalizeParameters localeCompare p = Throw e -> e = URIError_malformed.
Proof.
  unfold normalizeParameters. intros H.
  apply bind_Throw in H as [H|(r & _ & H)]; [|discriminate].
  apply mapM_Throw in H as (a & _ & H). now apply encode_entry_Throw in H.
Qed.

(** What [normalizeParameters] returns is ASCII text. *)
Lemma normalizeParameters_ascii (localeCompare : jsstring -> jsstring -> Z)
    (p : JSObject jsstring) (normalized : jsstring) :
  entries_valid_strings p ->
  normalizeParameters localeCompare p = Normal normalized ->
  Forall (fun c => c < 128) normalized
  /\ forallb (fun kv => isWellFormed (fst kv) && isWellFormed (snd kv)) p = true.
Proof.
  intros Hv H. unfold normalizeParameters in H.
  apply bind_Normal in H as (encoded & Henc & H). inversion H as [Hn]. clear H Hn.
  assert (Hv' : entries_valid_strings (Object_entries p)).
  { unfold entries_valid_strings in *. rewrite Forall_forall in *. intros kv Hkv. apply Hv.
    eapply Permutation_in; [apply Object_entries_Permutation|assumption]. }
  apply mapM_Normal in Henc.
  assert (Hboth : Forall (fun kv => Forall (fun c => c < 128) (fst kv)
                                    /\ Forall (fun c => c < 128) (snd kv)) encoded
                  /\ Forall (fun kv => isWellFormed (fst kv) && isWellFormed (snd kv) = true)
                            (Object_entries p)).
  { induction Henc as [|a b l r Hab _ IH]; [split; constructor|].
    inversion Hv' as [|? ? [Hk Hval] Hl]; subst. destruct (IH Hl) as [IH1 IH2].
    unfold encode_entry in Hab.
    apply bind_Normal in Hab as (k & Hek & Hab). apply bind_Normal in Hab as (v & Hev & Hab).
    inversion Hab; subst. cbn [fst snd].
    destruct (encodeURIComponent_Normal _ _ Hk Hek) as (_ & Hwk & _).
    destruct (encodeURIComponent_Normal _ _ Hval Hev) as (_ & Hwv & _).
    destruct (encoded_no_separator _ _ Hk Hek) as (_ & _ & _ & _ & Hak).
    destruct (encoded_no_separator _ _ Hval Hev) as (_ & _ & _ & _ & Hav).
    split; constructor; auto. cbn [fst snd]. now rewrite Hwk, Hwv. }
  destruct Hboth as [Hascii Hwf]. split.
  - apply join_chars; [unfold AMP; lia|].
    apply Forall_forall. intros part Hpart. apply in_map_iff in Hpart as (kv & <- & Hkv).
    eapply Permutation_in in Hkv; [|apply Array_sort_Permutation].
    rewrite Forall_forall in Hascii. destruct (Hascii kv Hkv) as [Hk Hval].
    unfold format_pair. apply Forall_app. split; [assumption|].
    cbn [app]. constructor; [unfold EQUALS; lia|assumption].
  - apply forallb_forall. intros kv Hkv. rewrite Forall_forall in Hwf. apply Hwf.
    eapply Permutation_in; [symmetry; apply Object_entries_Permutation|assumption].
Qed.

Lemma constructBaseString_Normal (toUpperCase : jsstring -> jsstring)
    (method url normalizedParams baseString : jsstring) :
  constructBaseString toUpperCase method url normalizedParams = Normal baseString ->
  exists u p, encodeURIComponent url = Normal u /\ encodeURIComponent normalizedParams = Normal p.
Proof.
  unfold constructBaseString. intros H.
  apply bind_Normal in H as (u & Hu & H). apply bind_Normal in H as (p & Hp & _). eauto.
Qed.

(** The signer raises nothing but the URIError. *)
Lemma generateOAuthSignature_Throw (localeCompare : jsstring -> jsstring -> Z)
    (toUpperCase : jsstring -> jsstring) (hmac_sha1_base64 : jsstring -> jsstring -> jsstring)
    (method url : jsstring) (parameters : JSObject jsstring)
    (consumerSecret : jsstring) (tokenSecret : option jsstring) (e : thrown) :
  generateOAuthSignature localeCompare toUpperCase hmac_sha1_base64
    method url parameters consumerSecret tokenSecret = Throw e ->
  e = URIError_malformed.
Proof.
  unfold generateOAuthSignature. rewrite constructSigningKey_parts. unfold constructBaseString.
  intros H.
  apply bind_Throw in H as [H|(n & _ & H)]; [now apply normalizeParameters_Throw in H|].
  apply bind_Throw in H as [H|(b & _ & H)].
  - apply bind_Throw in H as [H|(u & _ & H)]; [now apply encodeURIComponent_Throw in H|].
    apply bind_Throw in H as [H|(p & _ & H)]; [now apply encodeURIComponent_Throw in H|].
    discriminate.
  - apply bind_Throw in H as [H|(k & _ & H)]; [|discriminate].
    apply bind_Throw in H as [H|(c & _ & H)]; [now apply encodeURIComponent_Throw in H|].
    apply bind_Throw in H as [H|(t & _ & H)]; [now apply encodeURIComponent_Throw in H|].
    discriminate.
Qed.

(** On strings without unpaired surrogate the signer returns. *)
Lemma generateOAuthSignature_returns (localeCompare : jsstring -> jsstring -> Z)
    (toUpperCase : jsstring -> jsstring) (hmac_sha1_base64 : jsstring -> jsstring -> jsstring)
    (method url : jsstring) (parameters : JSObject jsstring)
    (consumerSecret : jsstring) (tokenSecret : option jsstring) :
  entries_valid_strings parameters ->
  signer_strings_wellformed url parameters consumerSecret tokenSecret = true ->
  exists normalized baseString signingKey,
    normalizeParameters localeCompare parameters = Normal normalized
    /\ constructBaseString toUpperCase method url normalized = Normal baseString
    /\ constructSigningKey consumerSecret tokenSecret = Normal signingKey
    /\ generateOAuthSignature localeCompare toUpperCase hmac_sha1_base64
         method url parameters consumerSecret tokenSecret
       = Normal (hmac_sha1_base64 signingKey baseString).
Proof.
  intros Hp Hw. unfold signer_strings_wellformed in Hw.
  apply andb_true_iff in Hw as [Hw Hts]. apply andb_true_iff in Hw as [Hw Hcs].
  apply andb_true_iff in Hw as [Hall Hurl].
  destruct (normalizeParameters_returns localeCompare parameters) as [n Hn].
  { apply Forall_forall. intros kv Hkv. rewrite forallb_forall in Hall.
    apply andb_true_iff. now apply Hall. }
  destruct (normalizeParameters_ascii localeCompare parameters n Hp Hn) as [Hascii _].
  destruct (encodeURIComponent_wellformed n (isWellFormed_ascii n Hascii)) as [en Hen].
  destruct (encodeURIComponent_wellformed url Hurl) as [eu Heu].
  destruct (encodeURIComponent_wellformed consumerSecret Hcs) as [ec Hec].
  destruct (encodeURIComponent_wellformed _ Hts) as [et Het].
  exists n. do 2 eexists. unfold generateOAuthSignature.
  rewrite constructSigningKey_parts. unfold constructBaseString.
  rewrite Hn, Hec, Het. cbn [bind]. rewrite Heu, Hen. cbn [bind].
  split; [reflexivity|]. split; [reflexivity|]. split; reflexivity.
Qed.

(** X4. [generateOAuthSignature] returns the HMAC of the signing key and the
    base string when no string it is given has an unpaired surrogate, and
    raises the URIError otherwise, before any HMAC is computed. *)
Theorem generateOAuthSignature_completion :
  forall (localeCompare : jsstring -> jsstring -> Z) (toUpperCase : jsstring -> jsstring)
         (hmac_sha1_base64 : jsstring -> jsstring -> jsstring)
         (method url : jsstring) (parameters : JSObject jsstring)
         (consumerSecret : jsstring) (tokenSecret : option jsstring),
    entries_valid_strings parameters -> valid_string url ->
    valid_string consumerSecret -> valid_string (secret_or_empty tokenSecret) ->
    if signer_strings_wellformed url parameters consumerSecret tokenSecret
    then exists normalized baseString signingKey,
        normalizeParameters localeCompare parameters = Normal normalized
        /\ constructBaseString toUpperCase method url normalized = Normal baseString
        /\ constructSigningKey consumerSecret tokenSecret = Normal signingKey
        /\ generateOAuthSignature localeCompare toUpperCase hmac_sha1_base64
             method url parameters consumerSecret tokenSecret
           = Normal (hmac_sha1_base64 signingKey baseString)
    else generateOAuthSignature localeCompare toUpperCase hmac_sha1_base64
           method url parameters consumerSecret tokenSecret
         = Throw URIError_malformed.
Proof.
  intros lc up hmac method url p cs ts Hp Hurl Hcs Hts.
  destruct (signer_strings_wellformed url p cs ts) eqn:Hw.
  - now apply generateOAuthSignature_returns.
  - destruct (generateOAuthSignature lc up hmac method url p cs ts) as [sig|e] eqn:Hsig.
    + exfalso. unfold generateOAuthSignature in Hsig.
      apply bind_Normal in Hsig as (n & Hn & Hsig).
      apply bind_Normal in Hsig as (b & Hb & Hsig).
      apply bind_Normal in Hsig as (k & Hk & _).
      destruct (normalizeParameters_ascii lc p n Hp Hn) as [_ Hall].
      apply constructBaseString_Normal in Hb as (u & _ & Hu & _).
      rewrite constructSigningKey_parts in Hk.
      apply bind_Normal in Hk as (c & Hc & Hk). apply bind_Normal in Hk as (t & Ht & _).
      destruct (encodeURIComponent_Normal _ _ Hurl Hu) as (_ & Hwu & _).
      destruct (encodeURIComponent_Normal _ _ Hcs Hc) as (_ & Hwc & _).
      destruct (encodeURIComponent_Normal _ _ Hts Ht) as (_ & Hwt & _).
      unfold signer_strings_wellformed in Hw. rewrite Hall, Hwu, Hwc, Hwt in Hw. discriminate.
    + now rewrite (generateOAuthSignature_Throw _ _ _ _ _ _ _ _ _ Hsig).
Qed.

Lemma generateOAuthSignature_completion_witness :
  generateOAuthSignature code_unit_compare ascii_toUpperCase sample_hmac
    (js "get") (js "https://api.zaim.net/v2/home/money")
    [(js "limit", js "5"); (js "mode", [0xD800])] (js "secret") None
  = Throw URIError_malformed.
Proof.
  apply (generateOAuthSignature_completion code_unit_compare ascii_toUpperCase sample_hmac
           (js "get") (js "https://api.zaim.net/v2/home/money")
           [(js "limit", js "5"); (js "mode", [0xD800])] (js "secret") None).
  - repeat constructor; try apply valid_string_js.
  - apply valid_string_js.
  - apply valid_string_js.
  - constructor.
Defined.

(** ** The form body *)

Lemma plus_to_space_id (bs : list N) : ~ In PLUS bs -> plus_to_space bs = bs.
Proof.
  induction bs as [|b bs IH]; intros H; [reflexivity|].
  cbn [plus_to_space map]. fold (plus_to_space bs).
  destruct (N.eqb_spec b PLUS) as [->|_]; [exfalso; apply H; now left|].
  f_equal. apply IH. intros Hin. apply H. now right.
Qed.

(** The urlencoded parser reads an encoded component back. *)
Lemma urlencoded_component_encoded (s r : jsstring) :
  valid_string s -> encodeURIComponent s = Normal r -> urlencoded_component r = s.
Proof.
  intros Hv Hr. unfold urlencoded_component.
  destruct (encoded_no_separator s r Hv Hr) as (_ & _ & _ & Hplus & _).
  destruct (encodeURIComponent_Normal s r Hv Hr) as (Hdec & Hwf & _).
  rewrite plus_to_space_id, Hdec, utf8_decode_encode by assumption.
  now apply toUSVString_wellformed.
Qed.

Lemma form_pair_parse (kv : jsstring * jsstring) (part : jsstring) :
  valid_string (fst kv) -> valid_string (snd kv) ->
  form_pair kv = Normal part ->
  urlencoded_parse_sequence part = kv
  /\ Forall (fun c => c < 128 /\ c <> AMP /\ c <> QUESTION) part
  /\ part <> [].
Proof.
  intros Hk Hv H. unfold form_pair in H.
  apply bind_Normal in H as (k & Hek & H). apply bind_Normal in H as (v & Hev & H).
  inversion H as [Hpart]. clear H Hpart.
  destruct (encoded_no_separator _ _ Hk Hek) as (Hka & Hke & Hkq & _ & Hk128).
  destruct (encoded_no_separator _ _ Hv Hev) as (Hva & _ & Hvq & _ & Hv128).
  split; [|split].
  - unfold urlencoded_parse_sequence. cbn [app]. rewrite cut_at_app by assumption.
    rewrite (urlencoded_component_encoded _ _ Hk Hek), (urlencoded_component_encoded _ _ Hv Hev).
    now destruct kv.
  - apply Forall_app. split.
    + apply Forall_forall. intros c Hc. rewrite Forall_forall in Hk128.
      repeat split; [now apply Hk128|congruence|congruence].
    + cbn [app]. constructor; [unfold EQUALS, AMP, QUESTION; lia|].
      apply Forall_forall. intros c Hc. rewrite Forall_forall in Hv128.
      repeat split; [now apply Hv128|congruence|congruence].
  - intros E. apply app_eq_nil in E as [_ E]. discriminate.
Qed.

(** Encoded pairs joined by ['&'] parse back to the pairs. *)
Lemma form_pairs_parse (l : list (jsstring * jsstring)) (parts : list jsstring) :
  entries_valid_strings l ->
  mapM form_pair l = Normal parts ->
  URLSearchParams_parse (join [AMP] parts) = l
  /\ Forall (fun c => c < 128) (join [AMP] parts).
Proof.
  intros Hv' Hparts.
  apply mapM_Normal in Hparts.
  assert (Hall : map urlencoded_parse_sequence parts = l
                 /\ Forall (Forall (fun c => c < 128 /\ c <> AMP /\ c <> QUESTION)) parts
                 /\ Forall (fun p => p <> []) parts).
  { induction Hparts as [|kv part l parts Hpart _ IH]; [repeat split; constructor|].
    inversion Hv' as [|? ? [Hk Hval] Hl]; subst.
    destruct (IH Hl) as (IH1 & IH2 & IH3).
    destruct (form_pair_parse kv part Hk Hval Hpart) as (Hp1 & Hp2 & Hp3).
    split; [|split]; [cbn [map]; now rewrite Hp1, IH1 | now constructor | now constructor]. }
  destruct Hall as (Hmap & Hchars & Hne).
  assert (Hbody : Forall (fun c => c < 128 /\ c <> QUESTION) (join [AMP] parts)).
  { apply join_chars; [unfold AMP, QUESTION; lia|].
    eapply Forall_impl; [|exact Hchars]. intros p Hp.
    eapply Forall_impl; [|exact Hp]. cbn beta. tauto. }
  assert (Hascii : Forall (fun c => c < 128) (join [AMP] parts)).
  { eapply Forall_impl; [|exact Hbody]. cbn beta. tauto. }
  split; [|exact Hascii].
  unfold URLSearchParams_parse.
  assert (Hinit : match join [AMP] parts with
                  | c :: rest => if c =? QUESTION then rest else join [AMP] parts
                  | [] => []
                  end = join [AMP] parts).
  { destruct (join [AMP] parts) as [|c rest]; [reflexivity|].
    inversion Hbody as [|? ? [_ Hc] _]; subst.
    apply N.eqb_neq in Hc. now rewrite Hc. }
  rewrite Hinit, utf8_encode_ascii by assumption.
  destruct parts as [|p0 parts0]; [exact Hmap|].
  rewrite split_join; [|discriminate|].
  - assert (Hf : filter nonempty (p0 :: parts0) = p0 :: parts0).
    { clear - Hne. induction Hne as [|p l Hp _ IH]; [reflexivity|].
      cbn [filter]. destruct p; [congruence|]. cbn [nonempty]. now rewrite IH. }
    rewrite Hf. exact Hmap.
  - eapply Forall_impl; [|exact Hchars]. intros p Hp Hin.
    rewrite Forall_forall in Hp. destruct (Hp _ Hin) as (_ & Hamp & _). congruence.
Qed.

Lemma Object_entries_valid_strings (p : JSObject jsstring) :
  entries_valid_strings p -> entries_valid_strings (Object_entries p).
Proof.
  unfold entries_valid_strings. rewrite !Forall_forall. intros Hv kv Hkv. apply Hv.
  eapply Permutation_in; [apply Object_entries_Permutation|assumption].
Qed.

(** X5. The body [encodeFormData] builds is ASCII text that the urlencoded
    parser reads back as the very properties of the object, in their
    enumeration order; so two objects with the same body have the same
    properties. *)
Theorem encodeFormData_parses_back :
  forall (params : JSObject jsstring) (body : jsstring),
    entries_valid_strings params ->
    encodeFormData params = Normal body ->
    URLSearchParams_parse body = Object_entries params
    /\ Forall (fun c => c < 128) body
    /\ forall params' : JSObject jsstring,
        entries_valid_strings params' ->
        encodeFormData params' = Normal body ->
        Permutation params params'.
Proof.
  intros params body Hv H. unfold encodeFormData in H.
  apply bind_Normal in H as (parts & Hparts & H). inversion H as [Hbody]. clear H.
  destruct (form_pairs_parse _ _ (Object_entries_valid_strings _ Hv) Hparts) as [Hparse Hascii].
  split; [exact Hparse|]. split; [exact Hascii|].
  intros params' Hv' H'. unfold encodeFormData in H'.
  apply bind_Normal in H' as (parts' & Hparts' & H'). inversion H' as [Hbody'].
  destruct (form_pairs_parse _ _ (Object_entries_valid_strings _ Hv') Hparts') as [Hparse' _].
  rewrite Hbody' in Hparse'. rewrite Hparse in Hparse'.
  rewrite <- (Object_entries_Permutation params), <- (Object_entries_Permutation params').
  now rewrite Hparse'.
Qed.

Lemma encodeFormData_parses_back_witness :
  URLSearchParams_parse (js "amount=1%2B1&place=a%26b%20c")
  = Object_entries [(js "amount", js "1+1"); (js "place", js "a&b c")]
  /\ Forall (fun c => c < 128) (js "amount=1%2B1&place=a%26b%20c")
  /\ forall params' : JSObject jsstring,
      entries_valid_strings params' ->
      encodeFormData params' = Normal (js "amount=1%2B1&place=a%26b%20c") ->
      Permutation [(js "amount", js "1+1"); (js "place", js "a&b c")] params'.
Proof.
  apply (encodeFormData_parses_back [(js "amount", js "1+1"); (js "place", js "a&b c")]).
  - repeat constructor; apply valid_string_js.
  - reflexivity.
Defined.

(** ** The body parameters *)

Lemma obj_get_fold_Set_property {V W} (f : V -> W) (l : JSObject V) (acc : JSObject W)
    (k : jsstring) :
  NoDup (map fst l) ->
  obj_get (fold_left (fun o kv => Set_property o (fst kv) (f (snd kv))) l acc) k
  = if jsstring_eqb k PROTO then obj_get acc k
    else match obj_get l k with Some v => Some (f v) | None => obj_get acc k end.
Proof.
  revert acc. induction l as [|[k' v'] l IH]; intros acc Hnd.
  - cbn [fold_left obj_get]. now destruct (jsstring_eqb k PROTO).
  - inversion Hnd as [|? ? Hnotin Hnd']; subst.
    cbn [fold_left fst snd]. rewrite (IH _ Hnd'). cbn [obj_get].
    unfold Set_property.
    destruct (jsstring_eqb k PROTO) eqn:Hkp.
    + apply jsstring_eqb_eq in Hkp. subst k.
      destruct (jsstring_eqb k' PROTO) eqn:Hk'; [reflexivity|].
      rewrite obj_get_CreateDataProperty.
      destruct (jsstring_eqb PROTO k') eqn:E; [|reflexivity].
      apply jsstring_eqb_eq in E. subst k'. now rewrite jsstring_eqb_refl in Hk'.
    + destruct (jsstring_eqb k k') eqn:Hkk'.
      * apply jsstring_eqb_eq in Hkk'. subst k'. rewrite Hkp.
        assert (Hnone : obj_get l k = None) by now apply obj_get_None.
        rewrite Hnone, obj_get_CreateDataProperty. now rewrite jsstring_eqb_refl.
      * destruct (obj_get l k); [reflexivity|].
        destruct (jsstring_eqb k' PROTO); [reflexivity|].
        rewrite obj_get_CreateDataProperty. now rewrite Hkk'.
Qed.

(** X6. The own properties of the body parameters are the own
    properties of [data] with their values turned into strings, except
    one named ["__proto__"], which is left out and so is neither signed
    nor sent; there is no own property under any other name.  ([obj_get]
    reads own properties: what a name inherits from [Object.prototype] is
    not part of the object that is enumerated, signed and sent.) *)
Theorem buildRequestParameters_lookup :
  forall (number : Type) (Number_toString : number -> jsstring)
         (data : RequestParameters number) (k : jsstring),
    NoDup (map fst data) ->
    obj_get (buildRequestParameters number Number_toString (Some data)) k
    = if jsstring_eqb k PROTO then None
      else option_map (String_of number Number_toString) (obj_get data k).
Proof.
  intros number Number_toString data k Hnd. unfold buildRequestParameters.
  rewrite (obj_get_fold_Set_property (String_of number Number_toString))
    by now apply Object_entries_NoDup.
  rewrite (obj_get_Permutation (Object_entries data) data k)
    by (try apply Object_entries_NoDup; try apply Object_entries_Permutation; assumption).
  cbn [obj_get]. destruct (jsstring_eqb k PROTO); [reflexivity|].
  now destruct (obj_get data k).
Qed.

Lemma buildRequestParameters_lookup_witness :
  obj_get (buildRequestParameters N N_toString
             (Some [(js "amount", PNumber 1000); (js "__proto__", PString (js "x"))]))
          (js "__proto__") = None
  /\ obj_get (buildRequestParameters N N_toString
                (Some [(js "amount", PNumber 1000); (js "__proto__", PString (js "x"))]))
             (js "amount") = Some (js "1000").
Proof.
  split.
  - apply (buildRequestParameters_lookup N N_toString
             [(js "amount", PNumber 1000); (js "__proto__", PString (js "x"))] (js "__proto__")).
    repeat constructor; cbn; intros H; decompose [or] H; try discriminate; assumption.
  - apply (buildRequestParameters_lookup N N_toString
             [(js "amount", PNumber 1000); (js "__proto__", PString (js "x"))] (js "amount")).
    repeat constructor; cbn; intros H; decompose [or] H; try discriminate; assumption.
Defined.

Lemma CreateDataProperty_Forall {V} (P : jsstring * V -> Prop) (o : JSObject V)
    (k : jsstring) (v : V) :
  Forall P o -> P (k, v) -> Forall P (CreateDataProperty o k v).
Proof.
  intros Ho Hkv. induction Ho as [|[k' v'] o Hx Ho IH]; cbn [CreateDataProperty].
  - now constructor.
  - destruct (jsstring_eqb k k') eqn:E.
    + apply jsstring_eqb_eq in E. subst k'. now constructor.
    + now constructor.
Qed.

Lemma fold_Set_property_Forall {V X} (P : jsstring * V -> Prop) (key : X -> jsstring)
    (val : X -> V) (l : list X) (acc : JSObject V) :
  Forall P acc -> Forall (fun x => P (key x, val x)) l ->
  Forall P (fold_left (fun o x => Set_property o (key x) (val x)) l acc).
Proof.
  revert acc. induction l as [|x l IH]; intros acc Hacc Hl; [assumption|].
  inversion Hl; subst. cbn [fold_left]. apply IH; [|assumption].
  unfold Set_property. destruct (jsstring_eqb (key x) PROTO); [assumption|].
  now apply CreateDataProperty_Forall.
Qed.

Section SignedBody.
Variable localeCompare : jsstring -> jsstring -> Z.
Variable toUpperCase : jsstring -> jsstring.
Variable hmac_sha1_base64 : jsstring -> jsstring -> jsstring.
Variable number : Type.
Variable Number_toString : number -> jsstring.
Variable this : ZaimApiClient.

Local Abbreviation body_of := (buildRequestParameters number Number_toString).

Lemma buildRequestParameters_valid (data : RequestParameters number) :
  Forall (fun kv => valid_string (fst kv)
                    /\ valid_string (String_of number Number_toString (snd kv))) data ->
  entries_valid_strings (body_of (Some data)).
Proof.
  intros Hd. unfold buildRequestParameters, entries_valid_strings.
  apply (fold_Set_property_Forall
           (fun kv : jsstring * jsstring => valid_string (fst kv) /\ valid_string (snd kv))
           fst (fun kv => String_of number Number_toString (snd kv))); [constructor|].
  rewrite Forall_forall in *. intros kv Hkv. apply Hd.
  eapply Permutation_in; [apply Object_entries_Permutation|assumption].
Qed.

Lemma extractQueryParams_path (url : jsstring) :
  ~ In QUESTION url -> url_baseUrl url = url /\ extractQueryParams url = [].
Proof.
  intros H. unfold url_baseUrl, extractQueryParams, url_queryString.
  rewrite split_no_sep by assumption. split; reflexivity.
Qed.

(** X7. A request with a body, on a path endpoint and without query
    parameters: the URL is the base host and the endpoint; the body is
    announced as urlencoded and parses back to the stringified body
    parameters; each of them is in the signed parameter set with the
    value that is sent, and the signed set holds nothing besides them and
    the six OAuth parameters. *)
Theorem request_body_is_signed :
  forall (env : CallEnv) (method : HttpMethod) (endpoint : jsstring)
         (data : RequestParameters number) (url : jsstring) (options : RequestInit),
    baseUrl this = js "https://api.zaim.net" ->
    ~ In QUESTION endpoint ->
    Forall (fun kv => valid_string (fst kv)
                      /\ valid_string (String_of number Number_toString (snd kv))) data ->
    sends_body method = true ->
    prepare_request localeCompare toUpperCase hmac_sha1_base64 number Number_toString this
      env method endpoint (Some data) None = Normal (url, options) ->
    url = baseUrl this ++ endpoint
    /\ sc_url (signerCall this env method url (body_of (Some data))) = url
    /\ ri_method options = method
    /\ obj_get (ri_headers options) (js "Content-Type")
       = Some (js "application/x-www-form-urlencoded")
    /\ (exists body,
           ri_body options = Some body
           /\ URLSearchParams_parse body = Object_entries (body_of (Some data))
           /\ forall k v,
               In (k, v) (URLSearchParams_parse body) ->
               obj_get (sc_parameters (signerCall this env method url (body_of (Some data)))) k
               = Some v)
    /\ (forall k,
           obj_get (sc_parameters (signerCall this env method url (body_of (Some data)))) k
           = match obj_get (body_of (Some data)) k with
             | Some v => Some v
             | None => obj_get (oauthParams this env) k
             end).
Proof.
  intros env method endpoint data url options Hbase Hpath Hdata Hsends Hprep.
  unfold prepare_request in Hprep. rewrite Hsends in Hprep.
  apply bind_Normal in Hprep as (authHeader & _ & Hprep).
  apply bind_Normal in Hprep as (requestOptions & Hopts & Hprep).
  apply bind_Normal in Hopts as (body & Hbody & Hopts).
  inversion Hopts as [Ho]. inversion Hprep as [[Hurl Ho']]. clear Hopts Hprep.
  rewrite <- Ho' in *. clear Ho'.
  assert (Hq : ~ In QUESTION (baseUrl this ++ endpoint)).
  { rewrite Hbase. intros Hin. apply in_app_or in Hin as [Hin|Hin]; [|contradiction].
    cbn in Hin. decompose [or] Hin; try discriminate; assumption. }
  destruct (extractQueryParams_path _ Hq) as [Hb Hx].
  assert (Hget : forall k,
             obj_get (sc_parameters (signerCall this env method (baseUrl this ++ endpoint)
                                       (body_of (Some data)))) k
             = match obj_get (body_of (Some data)) k with
               | Some v => Some v
               | None => obj_get (oauthParams this env) k
               end).
  { intros k. cbn [signerCall sc_parameters].
    rewrite obj_get_allParams by apply buildRequestParameters_NoDup.
    now rewrite Hx. }
  unfold encodeFormData in Hbody.
  apply bind_Normal in Hbody as (parts & Hparts & Hbody). inversion Hbody as [Hjoin].
  destruct (form_pairs_parse _ _
              (Object_entries_valid_strings _ (buildRequestParameters_valid data Hdata)) Hparts)
    as [Hparse _].
  rewrite Hjoin in Hparse. clear Hbody.
  cbn [buildUrl]. split; [reflexivity|]. split; [exact Hb|]. rewrite <- Ho. cbn [ri_method ri_headers ri_body].
  split; [reflexivity|]. split; [reflexivity|]. split; [|exact Hget].
  exists body. split; [reflexivity|]. split; [exact Hparse|].
  intros k v Hin. rewrite Hparse in Hin. rewrite Hget.
  assert (Hsome : obj_get (body_of (Some data)) k = Some v).
  { apply obj_get_Some; [apply buildRequestParameters_NoDup|].
    eapply Permutation_in; [apply Object_entries_Permutation|exact Hin]. }
  now rewrite Hsome.
Qed.
End SignedBody.

Lemma request_body_is_signed_witness :
  exists url options,
    sample_prepare_request POST (js "/v2/home/money/payment")
      (Some [(js "amount", PNumber 1000); (js "place", PString (js "a&b c"))]) None
    = Normal (url, options)
    /\ url = js "https://api.zaim.net/v2/home/money/payment"
    /\ ri_body options = Some (js "amount=1000&place=a%26b%20c")
    /\ obj_get (sc_parameters
                  (signerCall sample_client sample_env POST url
                     (buildRequestParameters N N_toString
                        (Some [(js "amount", PNumber 1000);
                               (js "place", PString (js "a&b c"))]))))
               (js "place") = Some (js "a&b c").
Proof.
  eexists. eexists. split; [vm_compute; reflexivity|].
  match goal with
  | |- ?u = _ /\ ri_body ?o = _ /\ _ =>
      destruct (request_body_is_signed alphabetic_compare ascii_toUpperCase sample_hmac
                  N N_toString sample_client sample_env POST (js "/v2/home/money/payment")
                  [(js "amount", PNumber 1000); (js "place", PString (js "a&b c"))]
                  u o eq_refl)
        as (Hurl & _ & _ & _ & (body & Hbody & Hparse & Hsigned) & _)
  end.
  - cbn. intros H. decompose [or] H; try discriminate; assumption.
  - vm_compute. repeat constructor.
  - reflexivity.
  - vm_compute. reflexivity.
  - split; [exact Hurl|]. split; [vm_compute; reflexivity|].
    apply Hsigned. rewrite Hparse. vm_compute. right. left. reflexivity.
Defined.

(** ** Failure before the transport is reached *)

Lemma header_part_Throw (kv : jsstring * jsstring) (e : thrown) :
  header_part kv = Throw e -> e = URIError_malformed.
Proof.
  unfold header_part. intros H.
  apply bind_Throw in H as [H|(v & _ & H)]; [now apply encodeURIComponent_Throw in H|].
  discriminate.
Qed.

Lemma form_pair_Throw (kv : jsstring * jsstring) (e : thrown) :
  form_pair kv = Throw e -> e = URIError_malformed.
Proof.
  unfold form_pair. intros H.
  apply bind_Throw in H as [H|(k & _ & H)]; [now apply encodeURIComponent_Throw in H|].
  apply bind_Throw in H as [H|(v & _ & H)]; [now apply encodeURIComponent_Throw in H|].
  discriminate.
Qed.

Lemma buildAuthorizationHeader_Throw (oauthParams : JSObject jsstring) (e : thrown) :
  buildAuthorizationHeader oauthParams = Throw e -> e = URIError_malformed.
Proof.
  unfold buildAuthorizationHeader. intros H.
  apply bind_Throw in H as [H|(r & _ & H)]; [|discriminate].
  apply mapM_Throw in H as (a & _ & H). now apply header_part_Throw in H.
Qed.

Lemma encodeFormData_Throw (params : JSObject jsstring) (e : thrown) :
  encodeFormData params = Throw e -> e = URIError_malformed.
Proof.
  unfold encodeFormData. intros H.
  apply bind_Throw in H as [H|(r & _ & H)]; [|discriminate].
  apply mapM_Throw in H as (a & _ & H). now apply form_pair_Throw in H.
Qed.

Section PreparationFailure.
Variable localeCompare : jsstring -> jsstring -> Z.
Variable toUpperCase : jsstring -> jsstring.
Variable hmac_sha1_base64 : jsstring -> jsstring -> jsstring.
Variable number : Type.
Variable Number_toString : number -> jsstring.
Variable Number_toBoolean : number -> bool.
Variable this : ZaimApiClient.

Lemma prepare_request_Throw (env : CallEnv) (method : HttpMethod) (endpoint : jsstring)
    (data queryParams : option (RequestParameters number)) (e : thrown) :
  prepare_request localeCompare toUpperCase hmac_sha1_base64 number Number_toString this
    env method endpoint data queryParams = Throw e ->
  e = URIError_malformed.
Proof.
  unfold prepare_request, generateAuthHeader. intros H.
  apply bind_Throw in H as [H|(h & _ & H)].
  - apply bind_Throw in H as [H|(s & _ & H)].
    + now apply generateOAuthSignature_Throw in H.
    + now apply buildAuthorizationHeader_Throw in H.
  - apply bind_Throw in H as [H|(o & _ & H)]; [|discriminate].
    destruct data as [d|]; [|discriminate].
    destruct (sends_body method); [|discriminate].
    apply bind_Throw in H as [H|(b & _ & H)]; [|discriminate].
    now apply encodeFormData_Throw in H.
Qed.

(** X8. Before [fetch] is called nothing but the URIError of an unpaired
    surrogate is raised, and [request] reports it as a network error
    whatever the transport would have done. *)
Theorem request_preparation_failure :
  forall (env : CallEnv) (method : HttpMethod) (endpoint : jsstring)
         (data queryParams : option (RequestParameters number)) (e : thrown),
    prepare_request localeCompare toUpperCase hmac_sha1_base64 number Number_toString this
      env method endpoint data queryParams = Throw e ->
    e = URIError_malformed
    /\ forall fetch : jsstring -> RequestInit -> completion (Response number),
        request localeCompare toUpperCase hmac_sha1_base64 number Number_toString
          Number_toBoolean fetch this env method endpoint data queryParams
        = Throw (new_Error (js "Network error occurred: URI malformed")).
Proof.
  intros env method endpoint data queryParams e H.
  pose proof (prepare_request_Throw _ _ _ _ _ _ H) as ->.
  split; [reflexivity|]. intros fetch. unfold request, request_try. rewrite H. reflexivity.
Qed.
End PreparationFailure.

Lemma request_preparation_failure_witness :
  sample_request (fun _ _ => Normal {| status := 200; json := Normal (JObject []) |})
    POST (js "/v2/home/money/payment") (Some [(js "place", PString lone_surrogate)]) None
  = Throw (new_Error (js "Network error occurred: URI malformed")).
Proof.
  apply (request_preparation_failure alphabetic_compare ascii_toUpperCase sample_hmac
           N N_toString N_toBoolean sample_client sample_env POST (js "/v2/home/money/payment")
           (Some [(js "place", PString lone_surrogate)]) None URIError_malformed).
  vm_compute. reflexivity.
Defined.

(** ** Requests that are always prepared *)

Lemma mapM_returns {A B} (f : A -> completion B) (l : list A) :
  Forall (fun a => exists b, f a = Normal b) l -> exists r, mapM f l = Normal r.
Proof.
  induction 1 as [|a l [b Hb] _ [r IH]]; [now exists []|].
  exists (b :: r). cbn [mapM]. now rewrite Hb, IH.
Qed.

Lemma Object_entries_Forall {V} (P : jsstring * V -> Prop) (o : JSObject V) :
  Forall P o -> Forall P (Object_entries o).
Proof.
  rewrite !Forall_forall. intros H kv Hkv. apply H.
  eapply Permutation_in; [apply Object_entries_Permutation|assumption].
Qed.

Lemma spread_into_Forall {V} (P : jsstring * V -> Prop) (acc src : JSObject V) :
  Forall P acc -> Forall P src -> Forall P (spread_into acc src).
Proof.
  intros Hacc Hsrc. unfold spread_into.
  apply Object_entries_Forall in Hsrc. revert acc Hacc.
  induction Hsrc as [|[k v] l Hkv _ IH]; intros acc Hacc; [assumption|].
  cbn [fold_left fst snd]. apply IH. now apply CreateDataProperty_Forall.
Qed.

Lemma isWellFormed_bytes (s : jsstring) : Forall (fun c => c < 256) s -> isWellFormed s = true.
Proof.
  induction 1 as [|c s Hc _ IH]; [reflexivity|].
  rewrite isWellFormed_cons.
  assert (Ht : is_trailing_surrogate c = false).
  { apply not_true_is_false. unfold is_trailing_surrogate. rewrite in_range_spec. lia. }
  assert (Hl : is_leading_surrogate c = false).
  { apply not_true_is_false. unfold is_leading_surrogate. rewrite in_range_spec. lia. }
  now rewrite Ht, Hl.
Qed.

Lemma usv_string_js (s : string) : usv_string (js s).
Proof.
  split; [apply valid_string_js|]. apply isWellFormed_bytes.
  unfold js. apply Forall_map. apply Forall_forall. intros a _.
  unfold unit_of_ascii. pose proof (N_ascii_bounded a). lia.
Qed.

Lemma usv_entries_wellformed (p : JSObject jsstring) :
  Forall (fun kv => usv_string (fst kv) /\ usv_string (snd kv)) p ->
  entries_valid_strings p
  /\ forallb (fun kv => isWellFormed (fst kv) && isWellFormed (snd kv)) p = true.
Proof.
  intros H. split.
  - eapply Forall_impl; [|exact H]. unfold usv_string. cbn beta. tauto.
  - apply forallb_forall. rewrite Forall_forall in H. intros kv Hkv.
    destruct (H kv Hkv) as [[_ Hk] [_ Hv]]. now rewrite Hk, Hv.
Qed.

Lemma encodeFormData_returns (params : JSObject jsstring) :
  Forall (fun kv => usv_string (fst kv) /\ usv_string (snd kv)) params ->
  exists body, encodeFormData params = Normal body.
Proof.
  intros H. unfold encodeFormData.
  destruct (mapM_returns form_pair (Object_entries params)) as [parts Hparts].
  { apply Object_entries_Forall in H. eapply Forall_impl; [|exact H].
    intros kv [[_ Hk] [_ Hv]]. unfold form_pair.
    destruct (encodeURIComponent_wellformed _ Hk) as [k ->].
    destruct (encodeURIComponent_wellformed _ Hv) as [v ->]. cbn [bind]. eauto. }
  rewrite Hparts. cbn [bind]. eauto.
Qed.

Lemma buildAuthorizationHeader_returns (oauthParams : JSObject jsstring) :
  Forall (fun kv => usv_string (fst kv) /\ usv_string (snd kv)) oauthParams ->
  exists header, buildAuthorizationHeader oauthParams = Normal header.
Proof.
  intros H. unfold buildAuthorizationHeader.
  destruct (mapM_returns header_part (Object_entries oauthParams)) as [parts Hparts].
  { apply Object_entries_Forall in H. eapply Forall_impl; [|exact H].
    intros kv [_ [_ Hv]]. unfold header_part.
    destruct (encodeURIComponent_wellformed _ Hv) as [v ->]. cbn [bind]. eauto. }
  rewrite Hparts. cbn [bind]. eauto.
Qed.

Section PreparedRequests.
Variable localeCompare : jsstring -> jsstring -> Z.
Variable toUpperCase : jsstring -> jsstring.
Variable hmac_sha1_base64 : jsstring -> jsstring -> jsstring.
Variable number : Type.
Variable Number_toString : number -> jsstring.
Variable this : ZaimApiClient.
Variable env : CallEnv.

Local Abbreviation body_of := (buildRequestParameters number Number_toString).
Local Abbreviation usv_entry :=
  (fun kv : jsstring * jsstring => usv_string (fst kv) /\ usv_string (snd kv)).
Local Abbreviation usv_parameter :=
  (fun kv : jsstring * param_value number =>
     usv_string (fst kv) /\ usv_string (String_of number Number_toString (snd kv))).
Local Abbreviation usv_parameters :=
  (fun o : option (RequestParameters number) =>
     match o with Some p => Forall usv_parameter p | None => True end).

Hypothesis hmac_usv : forall key data, usv_string (hmac_sha1_base64 key data).
Hypothesis this_baseUrl : baseUrl this = js "https://api.zaim.net".
Hypothesis config_usv :
  usv_string (consumerKey (config this)) /\ usv_string (consumerSecret (config this))
  /\ usv_string (accessToken (config this)) /\ usv_string (accessTokenSecret (config this)).
Hypothesis env_usv : usv_string (nonce env) /\ usv_string (timestamp env).

Lemma oauthParams_usv : Forall usv_entry (oauthParams this env).
Proof.
  destruct config_usv as (Hck & _ & Hat & _). destruct env_usv as [Hn Ht].
  unfold oauthParams. repeat constructor; cbn [fst snd]; try apply usv_string_js;
    try apply valid_string_js; try apply Hck; try apply Hat; try apply Hn; try apply Ht.
Qed.

Lemma buildRequestParameters_usv (data : option (RequestParameters number)) :
  usv_parameters data -> Forall usv_entry (body_of data).
Proof.
  destruct data as [d|]; [|constructor]. intros Hd. unfold buildRequestParameters.
  apply (fold_Set_property_Forall usv_entry fst
           (fun kv => String_of number Number_toString (snd kv))); [constructor|].
  now apply Object_entries_Forall.
Qed.

Lemma sent_query_usv (q : RequestParameters number) :
  Forall usv_parameter q ->
  sent_query number Number_toString q
  = map (fun kv => (fst kv, String_of number Number_toString (snd kv))) (Object_entries q).
Proof.
  intros Hq. unfold sent_query. apply map_ext_in. intros kv Hkv.
  apply Object_entries_Forall in Hq. rewrite Forall_forall in Hq.
  destruct (Hq kv Hkv) as [[Hk1 Hk2] [Hv1 Hv2]].
  now rewrite !toUSVString_wellformed.
Qed.

Lemma extractQueryParams_usv (endpoint : jsstring)
    (queryParams : option (RequestParameters number)) :
  ~ In QUESTION endpoint -> ~ In HASH endpoint ->
  usv_parameters queryParams ->
  url_baseUrl (buildUrl number Number_toString this endpoint queryParams)
  = baseUrl this ++ endpoint
  /\ Forall usv_entry
            (extractQueryParams (buildUrl number Number_toString this endpoint queryParams)).
Proof.
  intros Hq Hh Husv.
  assert (Hpath : ~ In QUESTION (baseUrl this ++ endpoint)).
  { rewrite this_baseUrl. intros Hin. apply in_app_or in Hin as [Hin|Hin]; [|contradiction].
    cbn in Hin. decompose [or] Hin; try discriminate; assumption. }
  assert (Hnone : url_baseUrl (baseUrl this ++ endpoint) = baseUrl this ++ endpoint
                  /\ Forall usv_entry (extractQueryParams (baseUrl this ++ endpoint))).
  { destruct (extractQueryParams_path _ Hpath) as [-> ->]. split; [reflexivity|constructor]. }
  destruct queryParams as [q|]; [|exact Hnone].
  destruct q as [|kv0 q0] eqn:Eq; [exact Hnone|]. rewrite <- Eq in *.
  assert (Hne : q <> []) by (rewrite Eq; discriminate).
  assert (Hvalid : Forall (fun kv => valid_string (fst kv)
                                     /\ valid_string (String_of number Number_toString (snd kv)))
                          q).
  { eapply Forall_impl; [|exact Husv]. unfold usv_string. cbn beta. tauto. }
  split.
  - unfold url_baseUrl.
    rewrite (split_url number Number_toString this endpoint q this_baseUrl (conj Hq Hh) Hne Hvalid).
    reflexivity.
  - rewrite (extractQueryParams_sent number Number_toString this endpoint q this_baseUrl
               (conj Hq Hh) Hne Hvalid).
    rewrite sent_query_usv by assumption.
    apply (fold_Set_property_Forall usv_entry fst snd); [constructor|].
    apply Forall_map. apply Object_entries_Forall. exact Husv.
Qed.

(** X9. For a client with the base URL of the constructor, on an
    endpoint that has no ['?'], no ['#'] and no unpaired surrogate, with
    credentials, nonce, timestamp, names and values free of unpaired
    surrogates, and an HMAC that yields such strings, the request is
    always prepared: [fetch] is reached, with the method asked for, and
    with a body exactly when [data] is given for a [POST] or a [PUT]. *)
Theorem prepare_request_returns :
  forall (method : HttpMethod) (endpoint : jsstring)
         (data queryParams : option (RequestParameters number)),
    usv_string endpoint -> ~ In QUESTION endpoint -> ~ In HASH endpoint ->
    usv_parameters data -> usv_parameters queryParams ->
    exists url options,
      prepare_request localeCompare toUpperCase hmac_sha1_base64 number Number_toString this
        env method endpoint data queryParams = Normal (url, options)
      /\ url = buildUrl number Number_toString this endpoint queryParams
      /\ ri_method options = method
      /\ (ri_body options <> None
          <-> data <> None /\ sends_body method = true).
Proof.
  intros method endpoint data queryParams Hep Hq Hh Hdata Hquery.
  destruct (extractQueryParams_usv endpoint queryParams Hq Hh Hquery) as [Hbase Hextract].
  pose proof (buildRequestParameters_usv data Hdata) as Hbody.
  set (url := buildUrl number Number_toString this endpoint queryParams) in *.
  assert (Hall : Forall usv_entry (allParams this env url (body_of data))).
  { unfold allParams. repeat apply spread_into_Forall; try assumption; [constructor|].
    apply oauthParams_usv. }
  destruct (usv_entries_wellformed _ Hall) as [Hvalid Hwf].
  destruct config_usv as (_ & [_ Hcs] & _ & [_ Hts]).
  assert (Hurl : isWellFormed (baseUrl this ++ endpoint) = true).
  { rewrite this_baseUrl. destruct Hep as [_ Hep]. cbn. exact Hep. }
  destruct (generateOAuthSignature_returns localeCompare toUpperCase hmac_sha1_base64
              (HttpMethod_string method) (url_baseUrl url) (allParams this env url (body_of data))
              (consumerSecret (config this)) (Some (accessTokenSecret (config this))) Hvalid)
    as (n & b & k & _ & _ & _ & Hsig).
  { unfold signer_strings_wellformed. rewrite Hwf, Hbase, Hurl, Hcs. cbn [andb secret_or_empty].
    exact Hts. }
  destruct (buildAuthorizationHeader_returns
              (oauthParamsWithSignature this env (hmac_sha1_base64 k b))) as [header Hheader].
  { unfold oauthParamsWithSignature. apply CreateDataProperty_Forall.
    - apply spread_into_Forall; [constructor|apply oauthParams_usv].
    - split; [apply usv_string_js|apply hmac_usv]. }
  assert (Hauth : generateAuthHeader localeCompare toUpperCase hmac_sha1_base64 this env method
                    url (body_of data) = Normal header).
  { unfold generateAuthHeader. cbn [signerCall sc_method sc_url sc_parameters
                                     sc_consumerSecret sc_tokenSecret].
    rewrite Hsig. cbn [bind]. exact Hheader. }
  exists url. unfold prepare_request. fold url. rewrite Hauth. cbn [bind].
  destruct data as [d|].
  - destruct (sends_body method) eqn:Hsends.
    + destruct (encodeFormData_returns _ Hbody) as [body ->]. cbn [bind].
      eexists. split; [reflexivity|]. split; [reflexivity|]. split; [reflexivity|].
      cbn [ri_body]. split; [intros _; split; [discriminate|reflexivity]|discriminate].
    + cbn [bind]. eexists. split; [reflexivity|]. split; [reflexivity|]. split; [reflexivity|].
      cbn [ri_body]. split; [congruence|]. intros [_ H]. discriminate.
  - cbn [bind]. eexists. split; [reflexivity|]. split; [reflexivity|]. split; [reflexivity|].
    cbn [ri_body]. split; [congruence|]. intros [H _]. congruence.
Qed.
End PreparedRequests.

Lemma prepare_request_returns_witness :
  exists url options,
    sample_prepare_request GET (js "/v2/home/money") None (Some [(js "limit", PNumber 5)])
    = Normal (url, options)
    /\ url = buildUrl N N_toString sample_client (js "/v2/home/money")
               (Some [(js "limit", PNumber 5)])
    /\ ri_method options = GET
    /\ (ri_body options <> None <-> None (A := RequestParameters N) <> None
                                    /\ sends_body GET = true).
Proof.
  apply (prepare_request_returns alphabetic_compare ascii_toUpperCase sample_hmac N N_toString
           sample_client sample_env).
  - intros key data. apply usv_string_js.
  - reflexivity.
  - repeat split; try apply valid_string_js; reflexivity.
  - repeat split; try apply valid_string_js; reflexivity.
  - apply usv_string_js.
  - cbn. intros H. decompose [or] H; try discriminate; assumption.
  - cbn. intros H. decompose [or] H; try discriminate; assumption.
  - exact I.
  - repeat constructor; try apply valid_string_js; try reflexivity.
Defined.

(** ** The Authorization header *)





Section AuthorizationHeader.
Variable localeCompare : jsstring -> jsstring -> Z.
Variable toUpperCase : jsstring -> jsstring.
Variable hmac_sha1_base64 : jsstring -> jsstring -> jsstring.
Variable this : ZaimApiClient.
Variable env : CallEnv.

Hypothesis hmac_valid : forall key data, valid_string (hmac_sha1_base64 key data).
Hypothesis config_valid :
  valid_string (consumerKey (config this)) /\ valid_string (accessToken (config this)).
Hypothesis env_valid : valid_string (nonce env) /\ valid_string (timestamp env).

End AuthorizationHeader.


(** ** String.prototype.trim *)

Lemma trimStart_head (s : jsstring) (c : code_unit) (r : jsstring) :
  trimStart s = c :: r -> is_white_space c = false.
Proof.
  induction s as [|x s IH]; cbn [trimStart]; [discriminate|].
  destruct (is_white_space x) eqn:Hx; [assumption|]. intros H. inversion H; subst. exact Hx.
Qed.

Lemma trimStart_fixed (s : jsstring) :
  match s with [] => True | c :: _ => is_white_space c = false end -> trimStart s = s.
Proof. destruct s as [|c s]; [reflexivity|]. cbn [trimStart]. now intros ->. Qed.

Lemma trimStart_idempotent (s : jsstring) : trimStart (trimStart s) = trimStart s.
Proof.
  apply trimStart_fixed. destruct (trimStart s) as [|c r] eqn:E; [exact I|].
  now apply trimStart_head in E.
Qed.

Lemma trimStart_suffix (s : jsstring) :
  exists p, s = p ++ trimStart s /\ forallb is_white_space p = true.
Proof.
  induction s as [|x s (p & Hp & Hw)]; [now exists []|].
  cbn [trimStart]. destruct (is_white_space x) eqn:Hx.
  - exists (x :: p). cbn [app forallb]. rewrite Hx, Hw. split; [now f_equal|reflexivity].
  - now exists [].
Qed.

(** What [trim] returns neither starts nor ends with white space. *)
Lemma trim_ends (s : jsstring) :
  match trim s with [] => True | c :: _ => is_white_space c = false end
  /\ match rev (trim s) with [] => True | c :: _ => is_white_space c = false end.
Proof.
  unfold trim. rewrite rev_involutive.
  set (t := trimStart s). set (u := trimStart (rev t)).
  assert (Hu : match u with [] => True | c :: _ => is_white_space c = false end).
  { destruct u as [|c r] eqn:E; [exact I|]. now apply trimStart_head in E. }
  split; [|exact Hu].
  destruct (trimStart_suffix (rev t)) as (p & Hp & _). fold u in Hp.
  assert (Ht : t = rev u ++ rev p).
  { rewrite <- (rev_involutive t), Hp. apply rev_app_distr. }
  destruct (rev u) as [|c r] eqn:E; [exact I|].
  unfold t in Ht. cbn [app] in Ht. now apply trimStart_head in Ht.
Qed.

Lemma trim_fixed (s : jsstring) :
  match s with [] => True | c :: _ => is_white_space c = false end ->
  match rev s with [] => True | c :: _ => is_white_space c = false end ->
  trim s = s.
Proof.
  intros H1 H2. unfold trim. rewrite (trimStart_fixed s H1), (trimStart_fixed (rev s) H2).
  apply rev_involutive.
Qed.

Lemma trim_idempotent (s : jsstring) : trim (trim s) = trim s.
Proof. destruct (trim_ends s). now apply trim_fixed. Qed.

(** ** TokenStorage *)

Lemma env_var_present (value : option jsstring) :
  env_var_missing value = false ->
  exists v, value = Some v /\ nonempty v = true /\ nonempty (trim v) = true.
Proof.
  destruct value as [v|]; [|discriminate]. cbn [env_var_missing]. intros H.
  apply orb_false_iff in H as [H1 H2]. apply negb_false_iff in H1, H2. eauto.
Qed.

Lemma getRequiredEnvVar_cases (process_env : JSObject jsstring) (varName : jsstring) :
  getRequiredEnvVar process_env varName
  = if env_var_missing (obj_get process_env varName)
    then Throw (new_Error (js "Missing required environment variable: " ++ varName))
    else Normal (trim (env_value process_env varName)).
Proof. reflexivity. Qed.

(** The client made from the environment, in closed form. *)
Lemma createZaimApiClient_cases (process_env : JSObject jsstring) :
  createZaimApiClient process_env
  = match filter (fun varName => env_var_missing (obj_get process_env varName))
                 REQUIRED_ENV_VARS with
    | [] =>
        Normal {| config :=
                    {| consumerKey := trim (env_value process_env (js "ZAIM_CONSUMER_KEY"));
                       consumerSecret := trim (env_value process_env (js "ZAIM_CONSUMER_SECRET"));
                       accessToken := trim (env_value process_env (js "ZAIM_ACCESS_TOKEN"));
                       accessTokenSecret :=
                         trim (env_value process_env (js "ZAIM_ACCESS_TOKEN_SECRET")) |};
                  baseUrl := js "https://api.zaim.net" |}
    | varName :: _ =>
        Throw (new_Error (js "Missing required environment variable: " ++ varName))
    end.
Proof.
  unfold createZaimApiClient, getOAuthConfig, REQUIRED_ENV_VARS.
  rewrite !getRequiredEnvVar_cases. cbn [filter].
  destruct (env_var_missing (obj_get process_env (js "ZAIM_CONSUMER_KEY"))) eqn:H1;
    [reflexivity|].
  destruct (env_var_missing (obj_get process_env (js "ZAIM_CONSUMER_SECRET"))) eqn:H2;
    [reflexivity|].
  destruct (env_var_missing (obj_get process_env (js "ZAIM_ACCESS_TOKEN"))) eqn:H3;
    [reflexivity|].
  destruct (env_var_missing (obj_get process_env (js "ZAIM_ACCESS_TOKEN_SECRET"))) eqn:H4;
    [reflexivity|].
  cbn [bind]. unfold new_ZaimApiClient, validateConfig, env_value.
  destruct (env_var_present _ H1) as (v1 & E1 & _ & T1).
  destruct (env_var_present _ H2) as (v2 & E2 & _ & T2).
  destruct (env_var_present _ H3) as (v3 & E3 & _ & T3).
  destruct (env_var_present _ H4) as (v4 & E4 & _ & T4).
  rewrite E1, E2, E3, E4.
  cbn [consumerKey consumerSecret accessToken accessTokenSecret].
  rewrite T1, T2, T3, T4. reflexivity.
Qed.

(** X11. [checkEnvironment] foretells [createZaimApiClient]: the environment
    is reported valid exactly when the client is made; the variables
    reported missing are the required ones that are unset, empty or
    blank, in the order of the list; and the error of the factory names
    the first of them. *)
Theorem checkEnvironment_foretells_createZaimApiClient :
  forall process_env : JSObject jsstring,
    (isValid (checkEnvironment process_env) = true
     <-> exists client, createZaimApiClient process_env = Normal client)
    /\ (isValid (checkEnvironment process_env) = true
        <-> missingVars (checkEnvironment process_env) = [])
    /\ missingVars (checkEnvironment process_env)
       = filter (fun varName => env_var_missing (obj_get process_env varName))
                getRequiredEnvVars
    /\ (forall varName rest,
           missingVars (checkEnvironment process_env) = varName :: rest ->
           createZaimApiClient process_env
           = Throw (new_Error (js "Missing required environment variable: " ++ varName))
           /\ message (checkEnvironment process_env)
              = js "Missing required environment variables: "
                ++ join (js ", ") (varName :: rest)).
Proof.
  intros process_env. rewrite createZaimApiClient_cases. unfold checkEnvironment, getRequiredEnvVars.
  destruct (filter _ REQUIRED_ENV_VARS) as [|v rest] eqn:E; cbn [isValid missingVars message].
  - split; [split; [eauto|reflexivity]|]. split; [tauto|]. split; [reflexivity|discriminate].
  - split; [split; [discriminate|intros [c Hc]; discriminate]|].
    split; [split; discriminate|]. split; [reflexivity|].
    intros v' rest' H. inversion H; subst. split; reflexivity.
Qed.

(** X12. The credentials of a client made from the environment are the
    values of the four variables with surrounding white space removed;
    none of them is empty or starts or ends with white space, so the
    stricter [TokenStorage.validateConfig] accepts them. *)
Theorem createZaimApiClient_credentials :
  forall (process_env : JSObject jsstring) (client : ZaimApiClient),
    createZaimApiClient process_env = Normal client ->
    baseUrl client = js "https://api.zaim.net"
    /\ consumerKey (config client) = trim (env_value process_env (js "ZAIM_CONSUMER_KEY"))
    /\ consumerSecret (config client)
       = trim (env_value process_env (js "ZAIM_CONSUMER_SECRET"))
    /\ accessToken (config client) = trim (env_value process_env (js "ZAIM_ACCESS_TOKEN"))
    /\ accessTokenSecret (config client)
       = trim (env_value process_env (js "ZAIM_ACCESS_TOKEN_SECRET"))
    /\ Forall (fun credential => credential <> [] /\ trim credential = credential)
              [consumerKey (config client); consumerSecret (config client);
               accessToken (config client); accessTokenSecret (config client)]
    /\ TokenStorage_validateConfig (config client) = true.
Proof.
  intros process_env client H. rewrite createZaimApiClient_cases in H.
  destruct (filter _ REQUIRED_ENV_VARS) as [|v rest] eqn:E; [|discriminate].
  inversion H as [Hclient]. clear H Hclient. cbn [config baseUrl consumerKey consumerSecret
                                                    accessToken accessTokenSecret].
  assert (Hall : forall varName, In varName REQUIRED_ENV_VARS ->
                   nonempty (trim (env_value process_env varName)) = true).
  { intros varName Hin.
    destruct (env_var_missing (obj_get process_env varName)) eqn:Hm.
    - exfalso. assert (Hf : In varName []); [|destruct Hf].
      rewrite <- E. apply filter_In. split; assumption.
    - unfold env_value. now destruct (env_var_present _ Hm) as (v & -> & _ & Hv). }
  assert (H1 := Hall (js "ZAIM_CONSUMER_KEY") ltac:(cbn; tauto)).
  assert (H2 := Hall (js "ZAIM_CONSUMER_SECRET") ltac:(cbn; tauto)).
  assert (H3 := Hall (js "ZAIM_ACCESS_TOKEN") ltac:(cbn; tauto)).
  assert (H4 := Hall (js "ZAIM_ACCESS_TOKEN_SECRET") ltac:(cbn; tauto)).
  repeat (split; [reflexivity|]). split.
  - repeat (apply Forall_cons; [split; [|apply trim_idempotent]|]); try apply Forall_nil.
    + intros Hn. rewrite Hn in H1. discriminate.
    + intros Hn. rewrite Hn in H2. discriminate.
    + intros Hn. rewrite Hn in H3. discriminate.
    + intros Hn. rewrite Hn in H4. discriminate.
  - unfold TokenStorage_validateConfig.
    cbn [consumerKey consumerSecret accessToken accessTokenSecret].
    rewrite !trim_idempotent, H1, H2, H3, H4. reflexivity.
Qed.

Lemma createZaimApiClient_credentials_witness :
  exists client,
    createZaimApiClient
      [(js "ZAIM_CONSUMER_KEY", js " key "); (js "ZAIM_CONSUMER_SECRET", js "secret");
       (js "ZAIM_ACCESS_TOKEN", js "token"); (js "ZAIM_ACCESS_TOKEN_SECRET", js "token_secret ")]
    = Normal client
    /\ consumerKey (config client) = js "key"
    /\ TokenStorage_validateConfig (config client) = true.
Proof.
  eexists. split; [vm_compute; reflexivity|].
  match goal with
  | |- consumerKey (config ?c) = _ /\ _ =>
      destruct (createZaimApiClient_credentials
                  [(js "ZAIM_CONSUMER_KEY", js " key "); (js "ZAIM_CONSUMER_SECRET", js "secret");
                   (js "ZAIM_ACCESS_TOKEN", js "token");
                   (js "ZAIM_ACCESS_TOKEN_SECRET", js "token_secret ")] c)
        as (_ & Hkey & _ & _ & _ & _ & Hvalid)
  end.
  - vm_compute. reflexivity.
  - split; [rewrite Hkey; vm_compute; reflexivity|exact Hvalid].
Defined.

(** ** getMoneyRecordsTool *)

Section MoneyRecords.
Variable localeCompare : jsstring -> jsstring -> Z.
Variable toUpperCase : jsstring -> jsstring.
Variable hmac_sha1_base64 : jsstring -> jsstring -> jsstring.
Variable number : Type.
Variable Number_toString : number -> jsstring.
Variable Number_toBoolean : number -> bool.

Local Abbreviation tool :=
  (getMoneyRecordsTool localeCompare toUpperCase hmac_sha1_base64 number Number_toString
     Number_toBoolean).
Local Abbreviation client_get :=
  (get localeCompare toUpperCase hmac_sha1_base64 number Number_toString Number_toBoolean).

Lemma invalid_money_response_false (response : JSON number) :
  invalid_money_response number Number_toBoolean response = false
  <-> exists properties records,
      response = JObject properties
      /\ obj_get properties (js "money") = Some (JArray records).
Proof.
  unfold invalid_money_response, money_array. split.
  - intros H. apply orb_false_iff in H as [H Hm]. apply orb_false_iff in H as [_ Ht].
    destruct response as [| | | | |properties]; try discriminate.
    destruct (obj_get properties (js "money")) as [[| | | |records|]|] eqn:E;
      try discriminate.
    eauto.
  - intros (properties & records & -> & Hm). rewrite Hm. reflexivity.
Qed.

(** X13. The result of the tool counts its records, has none when it
    reports failure, and reports success exactly when the client is made
    from the environment and the request returns an object whose
    [money] is an array, which is then the list of records. *)
Theorem getMoneyRecordsTool_outcome :
  forall (fetch : jsstring -> RequestInit -> completion (Response number))
         (process_env : JSObject jsstring) (env : CallEnv)
         (input : GetMoneyRecordsInput number),
    out_count (tool fetch process_env env input)
    = N.of_nat (List.length (out_records (tool fetch process_env env input)))
    /\ (out_success (tool fetch process_env env input) = false ->
        out_records (tool fetch process_env env input) = [])
    /\ (out_success (tool fetch process_env env input) = true
        <-> exists client properties,
            createZaimApiClient process_env = Normal client
            /\ client_get fetch client env (js "/v2/home/money")
                 (Some (getMoneyRecords_params number Number_toBoolean input))
               = Normal (JObject properties)
            /\ obj_get properties (js "money")
               = Some (JArray (out_records (tool fetch process_env env input)))).
Proof.
  intros fetch process_env env input. unfold getMoneyRecordsTool.
  destruct (createZaimApiClient process_env) as [client|e] eqn:Hclient; cbn [bind].
  - destruct (client_get fetch client env (js "/v2/home/money")
                (Some (getMoneyRecords_params number Number_toBoolean input)))
      as [response|e] eqn:Hget.
    + destruct (invalid_money_response number Number_toBoolean response) eqn:Hinv.
      * cbn [out_count out_records out_success].
        split; [reflexivity|]. split; [reflexivity|]. split; [discriminate|].
        intros (c & properties & Hc & Hr & Hm). inversion Hc; subst c.
        rewrite Hget in Hr. inversion Hr; subst response.
        assert (Hf : invalid_money_response number Number_toBoolean (JObject properties) = false)
          by (apply invalid_money_response_false; eauto).
        congruence.
      * apply invalid_money_response_false in Hinv as (properties & records & -> & Hm).
        unfold money_array. rewrite Hm. cbn [out_count out_records out_success].
        split; [reflexivity|]. split; [discriminate|]. split; [|reflexivity].
        intros _. exists client, properties. repeat split; assumption.
    + cbn [out_count out_records out_success].
      split; [reflexivity|]. split; [reflexivity|]. split; [discriminate|].
      intros (c & properties & Hc & Hr & _). inversion Hc; subst c.
      rewrite Hget in Hr. discriminate.
  - cbn [out_count out_records out_success].
    split; [reflexivity|]. split; [reflexivity|]. split; [discriminate|].
    intros (c & properties & Hc & _). discriminate.
Qed.

(** X14. With a required variable missing the tool reports the failure and
    names the first missing variable; the transport is not used. *)
Theorem getMoneyRecordsTool_missing_environment :
  forall (process_env : JSObject jsstring) (varName : jsstring) (rest : list jsstring),
    missingVars (checkEnvironment process_env) = varName :: rest ->
    forall (fetch : jsstring -> RequestInit -> completion (Response number)) (env : CallEnv)
           (input : GetMoneyRecordsInput number),
      tool fetch process_env env input
      = {| out_records := []; out_count := 0; out_success := false;
           out_message := jsu "記録の取得に失敗しました: "
                          ++ js "Missing required environment variable: " ++ varName |}.
Proof.
  intros process_env varName rest Hmissing fetch env input.
  unfold getMoneyRecordsTool. rewrite createZaimApiClient_cases.
  unfold checkEnvironment in Hmissing.
  destruct (filter _ REQUIRED_ENV_VARS) as [|v l] eqn:E; [discriminate|].
  cbn [missingVars] in Hmissing. inversion Hmissing; subst. reflexivity.
Qed.
End MoneyRecords.

Lemma getMoneyRecordsTool_missing_environment_witness :
  getMoneyRecordsTool alphabetic_compare ascii_toUpperCase sample_hmac N N_toString N_toBoolean
    (fun _ _ => Normal {| status := 200; json := Normal (JObject [(js "money", JArray [])]) |})
    [(js "ZAIM_CONSUMER_KEY", js "key"); (js "ZAIM_ACCESS_TOKEN", js "   ")]
    sample_env sample_input
  = {| out_records := []; out_count := 0; out_success := false;
       out_message := jsu "記録の取得に失敗しました: "
                      ++ js "Missing required environment variable: ZAIM_CONSUMER_SECRET" |}.
Proof.
  apply (getMoneyRecordsTool_missing_environment alphabetic_compare ascii_toUpperCase sample_hmac
           N N_toString N_toBoolean
           [(js "ZAIM_CONSUMER_KEY", js "key"); (js "ZAIM_ACCESS_TOKEN", js "   ")]
           (js "ZAIM_CONSUMER_SECRET")
           [js "ZAIM_ACCESS_TOKEN"; js "ZAIM_ACCESS_TOKEN_SECRET"]).
  vm_compute. reflexivity.
Defined.

(** ** The query of getMoneyRecordsTool *)

Lemma Set_property_Forall {V} (P : jsstring * V -> Prop) (o : JSObject V)
    (k : jsstring) (v : V) :
  Forall P o -> P (k, v) -> Forall P (Set_property o k v).
Proof.
  intros Ho Hkv. unfold Set_property. destruct (jsstring_eqb k PROTO); [assumption|].
  now apply CreateDataProperty_Forall.
Qed.

Section PathRequests.
Variable number : Type.
Variable Number_toString : number -> jsstring.
Variable this : ZaimApiClient.
Variable endpoint : jsstring.
Variable q : RequestParameters number.

Hypothesis this_baseUrl : baseUrl this = js "https://api.zaim.net".
Hypothesis endpoint_path : ~ In QUESTION endpoint /\ ~ In HASH endpoint.
Hypothesis q_valid :
  Forall (fun kv => valid_string (fst kv)
                    /\ valid_string (String_of number Number_toString (snd kv))) q.
Hypothesis q_keys : NoDup (map fst q).
Hypothesis q_names : Forall (fun kv => isWellFormed (fst kv) = true /\ fst kv <> PROTO) q.

(** On a path endpoint the signature covers the query that is sent,
    be it empty or not. *)
Lemma covers_sent_query_path (env : CallEnv) (method : HttpMethod)
    (data : option (RequestParameters number)) :
  covers_sent_query number Number_toString this env method endpoint data q.
Proof.
  intros qs Hqs k v Hin.
  destruct q as [|kv0 q0] eqn:Eq.
  - exfalso. cbn [buildUrl Object_keys Object_entries filter fold_right app map List.length
                  Nat.ltb Nat.leb] in Hqs.
    destruct (url_without_query_chars this endpoint this_baseUrl endpoint_path) as [Hq Hh].
    unfold url_query in Hqs. rewrite (cut_at_no_sep HASH) in Hqs by assumption.
    cbn [fst] in Hqs. rewrite (cut_at_no_sep QUESTION) in Hqs by assumption. discriminate.
  - rewrite <- Eq in *.
    assert (Hne : q <> []) by (rewrite Eq; discriminate).
    rewrite (url_query_sent number Number_toString this endpoint q) in Hqs by assumption.
    inversion Hqs; subst qs.
    rewrite (parse_sent_query number Number_toString endpoint q) in Hin by assumption.
    cbn [signerCall sc_parameters].
    rewrite obj_get_allParams by apply buildRequestParameters_NoDup.
    rewrite (obj_get_extractQueryParams number Number_toString this endpoint q) by assumption.
    assert (Hnd : NoDup (map fst (sent_query number Number_toString q))).
    { rewrite (sent_query_keys number Number_toString q) by assumption.
      now apply Object_entries_NoDup. }
    apply (obj_get_Some _ k v Hnd) in Hin. now rewrite Hin.
Qed.
End PathRequests.

Lemma createZaimApiClient_baseUrl (process_env : JSObject jsstring) (client : ZaimApiClient) :
  createZaimApiClient process_env = Normal client -> baseUrl client = js "https://api.zaim.net".
Proof.
  rewrite createZaimApiClient_cases.
  destruct (filter _ REQUIRED_ENV_VARS); [|discriminate]. intros H. now inversion H.
Qed.

Section MoneyRecordsQuery.
Variable number : Type.
Variable Number_toString : number -> jsstring.
Variable Number_toBoolean : number -> bool.

Local Abbreviation params_of := (getMoneyRecords_params number Number_toBoolean).

Lemma add_string_param_Forall (P : jsstring * param_value number -> Prop) (name : jsstring)
    (value : option jsstring) (params : RequestParameters number) :
  Forall P params ->
  (forall c v, value = Some (c :: v) -> P (name, PString (c :: v))) ->
  Forall P (add_string_param number name value params).
Proof.
  intros Hp Hv. unfold add_string_param. destruct value as [[|c v]|]; try assumption.
  apply Set_property_Forall; auto.
Qed.

Lemma add_number_param_Forall (P : jsstring * param_value number -> Prop) (name : jsstring)
    (value : option number) (params : RequestParameters number) :
  Forall P params ->
  (forall n, value = Some n -> Number_toBoolean n = true -> P (name, PNumber n)) ->
  Forall P (add_number_param number Number_toBoolean name value params).
Proof.
  intros Hp Hv. unfold add_number_param. destruct value as [n|]; [|assumption].
  destruct (Number_toBoolean n) eqn:Hn; [|assumption].
  apply Set_property_Forall; auto.
Qed.

Lemma getMoneyRecords_params_NoDup (input : GetMoneyRecordsInput number) :
  NoDup (map fst (params_of input)).
Proof.
  unfold getMoneyRecords_params, add_number_param, add_string_param.
  repeat match goal with
         | |- context [match ?x with _ => _ end] => destruct x
         end;
    repeat apply Set_property_NoDup; constructor.
Qed.

(** X15. The filters the tool sends are among its six names, each at most
    once, and none of them is falsy: an empty string or a number such as
    [0] is left out of the query.  For a client made from the environment
    the signature covers every one that is sent. *)
Theorem getMoneyRecordsTool_query_is_signed :
  forall (process_env : JSObject jsstring) (client : ZaimApiClient) (env : CallEnv)
         (input : GetMoneyRecordsInput number),
    createZaimApiClient process_env = Normal client ->
    (forall n, valid_string (Number_toString n)) ->
    (forall s, in_start_date input = Some s -> valid_string s) ->
    (forall s, in_end_date input = Some s -> valid_string s) ->
    NoDup (map fst (params_of input))
    /\ Forall (fun kv =>
                 In (fst kv) [js "mode"; js "start_date"; js "end_date";
                              js "category_id"; js "limit"; js "page"]
                 /\ match snd kv with
                    | PString s => s <> []
                    | PNumber n => Number_toBoolean n = true
                    | PBoolean _ => False
                    end)
              (params_of input)
    /\ covers_sent_query number Number_toString client env GET (js "/v2/home/money") None
         (params_of input).
Proof.
  intros process_env client env input Hclient Hnum Hstart Hend.
  assert (Hinv : Forall (fun kv =>
                   (In (fst kv) [js "mode"; js "start_date"; js "end_date";
                                 js "category_id"; js "limit"; js "page"]
                    /\ match snd kv with
                       | PString s => s <> []
                       | PNumber n => Number_toBoolean n = true
                       | PBoolean _ => False
                       end)
                   /\ valid_string (String_of number Number_toString (snd kv)))
                 (params_of input)).
  { unfold getMoneyRecords_params.
    repeat (first [apply add_number_param_Forall | apply add_string_param_Forall]);
      try apply Forall_nil.
    all: try (intros n _ Hn; split; [split; [cbn; tauto|exact Hn]|apply Hnum]).
    - intros c v Hv. split; [split; [cbn; tauto|discriminate]|].
      cbn [snd String_of]. destruct (in_mode input) as [m|]; [|discriminate].
      inversion Hv as [Hm]. destruct m; apply valid_string_js.
    - intros c v Hv. split; [split; [cbn; tauto|discriminate]|]. now apply Hstart.
    - intros c v Hv. split; [split; [cbn; tauto|discriminate]|]. now apply Hend. }
  split; [apply getMoneyRecords_params_NoDup|]. split.
  - eapply Forall_impl; [|exact Hinv]. cbn beta. tauto.
  - pose proof (createZaimApiClient_baseUrl process_env client Hclient) as Hbase.
    apply covers_sent_query_path.
    + exact Hbase.
    + split; cbn; intros H; decompose [or] H; try discriminate; assumption.
    + eapply Forall_impl; [|exact Hinv]. intros kv [[Hin _] Hv]. split; [|exact Hv].
      cbn [In] in Hin. decompose [or] Hin; try contradiction;
        match goal with H : _ = fst kv |- _ => rewrite <- H end; apply valid_string_js.
    + apply getMoneyRecords_params_NoDup.
    + eapply Forall_impl; [|exact Hinv]. intros kv [[Hin _] _].
      cbn [In] in Hin. decompose [or] Hin; try contradiction;
        match goal with H : _ = fst kv |- _ => rewrite <- H end;
        (split; [reflexivity|discriminate]).
Qed.
End MoneyRecordsQuery.

Lemma decimal_digits_valid (fuel : nat) (n : N) : valid_string (decimal_digits fuel n).
Proof.
  revert n. induction fuel as [|fuel IH]; intros n; cbn [decimal_digits]; [constructor|].
  destruct (N.ltb_spec n 10) as [Hn|_].
  - constructor; [lia|constructor].
  - apply Forall_app. split; [apply IH|].
    constructor; [|constructor]. pose proof (N.mod_lt n 10). lia.
Qed.

Lemma getMoneyRecordsTool_query_is_signed_witness :
  NoDup (map fst (getMoneyRecords_params N N_toBoolean sample_input))
  /\ Forall (fun kv =>
               In (fst kv) [js "mode"; js "start_date"; js "end_date";
                            js "category_id"; js "limit"; js "page"]
               /\ match snd kv with
                  | PString s => s <> []
                  | PNumber n => N_toBoolean n = true
                  | PBoolean _ => False
                  end)
            (getMoneyRecords_params N N_toBoolean sample_input)
  /\ covers_sent_query N N_toString sample_client sample_env GET (js "/v2/home/money") None
       (getMoneyRecords_params N N_toBoolean sample_input).
Proof.
  apply (getMoneyRecordsTool_query_is_signed N N_toString N_toBoolean sample_process_env
           sample_client sample_env sample_input).
  - vm_compute. reflexivity.
  - intros n. apply decimal_digits_valid.
  - intros s Hs. inversion Hs. apply valid_string_js.
  - intros s Hs. inversion Hs. constructor.
Defined.

(** ** What [request] returns *)

Section ReturnedValues.
Variable localeCompare : jsstring -> jsstring -> Z.
Variable toUpperCase : jsstring -> jsstring.
Variable hmac_sha1_base64 : jsstring -> jsstring -> jsstring.
Variable number : Type.
Variable Number_toString : number -> jsstring.
Variable Number_toBoolean : number -> bool.
Variable fetch : jsstring -> RequestInit -> completion (Response number).
Variable this : ZaimApiClient.

Lemma handleResponse_Normal (response : Response number) (value : JSON number) :
  handleResponse number Number_toString Number_toBoolean response = Normal value
  <-> ok response = true
      /\ value = match json response with Normal data => data | Throw _ => JObject [] end.
Proof.
  unfold handleResponse. destruct (ok response); cbn [negb].
  - split; [intros H; inversion H; auto|intros [_ ->]; reflexivity].
  - split; [|intros [H _]; discriminate]. intros H. exfalso.
    apply bind_Normal in H as (m & _ & H). apply bind_Normal in H as (t & _ & H). discriminate.
Qed.

(** X16. [request] returns a value only for a response with a status from
    200 to 299, and the value is then the parsed body, or the empty
    object when the body is not JSON; for every other status it throws,
    whatever the body holds. *)
Theorem request_returns_iff_ok :
  forall (env : CallEnv) (method : HttpMethod) (endpoint : jsstring)
         (data queryParams : option (RequestParameters number)) (value : JSON number),
    request localeCompare toUpperCase hmac_sha1_base64 number Number_toString Number_toBoolean
      fetch this env method endpoint data queryParams = Normal value
    <-> exists url options response,
        prepare_request localeCompare toUpperCase hmac_sha1_base64 number Number_toString this
          env method endpoint data queryParams = Normal (url, options)
        /\ fetch url options = Normal response
        /\ 200 <= status response <= 299
        /\ value = match json response with Normal data => data | Throw _ => JObject [] end.
Proof.
  intros env method endpoint data queryParams value. unfold request, request_try.
  destruct (prepare_request _ _ _ _ _ _ env method endpoint data queryParams)
    as [[url options]|e] eqn:Hprep; cbn [bind fst snd].
  - destruct (fetch url options) as [response|e] eqn:Hfetch; cbn [bind].
    + destruct (handleResponse number Number_toString Number_toBoolean response)
        as [v|e] eqn:Hresp.
      * apply handleResponse_Normal in Hresp as [Hok ->].
        unfold ok in Hok. apply in_range_spec in Hok.
        split.
        -- intros H. inversion H. exists url, options, response. auto.
        -- intros (u & o & r & Hu & Hr & _ & ->). inversion Hu; subst u o.
           rewrite Hfetch in Hr. inversion Hr; subst r. reflexivity.
      * split; [discriminate|].
        intros (u & o & r & Hu & Hr & Hs & Hv). exfalso. inversion Hu; subst u o.
        rewrite Hfetch in Hr. inversion Hr; subst r.
        assert (Hn : handleResponse number Number_toString Number_toBoolean response
                     = Normal value).
        { apply handleResponse_Normal. split; [|exact Hv].
          unfold ok. now apply in_range_spec. }
        congruence.
    + split; [discriminate|]. intros (u & o & r & Hu & Hr & _). inversion Hu; subst u o.
      rewrite Hfetch in Hr. discriminate.
  - split; [discriminate|]. intros (u & o & r & Hu & _). discriminate.
Qed.
End ReturnedValues.

(** ** The record tools *)

Section ToolOutcomes.
Variable localeCompare : jsstring -> jsstring -> Z.
Variable toUpperCase : jsstring -> jsstring.
Variable hmac_sha1_base64 : jsstring -> jsstring -> jsstring.
Variable number : Type.
Variable Number_toString : number -> jsstring.
Variable Number_toBoolean : number -> bool.
Variable fetch : jsstring -> RequestInit -> completion (Response number).

Local Abbreviation truthy := (ToBoolean number Number_toBoolean).
Local Abbreviation client_get :=
  (get localeCompare toUpperCase hmac_sha1_base64 number Number_toString Number_toBoolean fetch).
Local Abbreviation client_post :=
  (post localeCompare toUpperCase hmac_sha1_base64 number Number_toString Number_toBoolean fetch).
Local Abbreviation client_delete :=
  (delete localeCompare toUpperCase hmac_sha1_base64 number Number_toString Number_toBoolean
     fetch).
Local Abbreviation payment_tool :=
  (createPaymentTool localeCompare toUpperCase hmac_sha1_base64 number Number_toString
     Number_toBoolean fetch).
Local Abbreviation delete_tool :=
  (deleteMoneyRecordTool localeCompare toUpperCase hmac_sha1_base64 number Number_toString
     Number_toBoolean fetch).
Local Abbreviation auth_tool :=
  (checkAuthStatusTool localeCompare toUpperCase hmac_sha1_base64 number Number_toString
     Number_toBoolean fetch).

(** The property test of the tools never throws, and passes only on an
    object with a truthy property of that name. *)
Lemma lacks_property_cases (response : JSON number) (name : jsstring) :
  lacks_property number Number_toBoolean response name
  = Normal match response with
           | JObject properties => negb (truthy (obj_get properties name))
           | _ => true
           end.
Proof.
  unfold lacks_property. destruct response as [|b|n|s|items|properties]; cbn;
    try reflexivity.
  - now rewrite orb_true_r.
  - now rewrite orb_true_r.
  - now rewrite orb_true_r.
Qed.

Lemma truthy_Some (value : option (JSON number)) :
  truthy value = true -> exists v, value = Some v.
Proof. destruct value; [eauto|discriminate]. Qed.

(** X17. [createPaymentTool] reports success exactly when the client is
    made and the POST returns an object with a truthy [money]; the record
    is then [money], or its first element when it is an array, so an
    empty array gives success without a record.  On failure the record is
    [null]. *)
Theorem createPaymentTool_outcome :
  forall (process_env : JSObject jsstring) (env : CallEnv)
         (input : CreatePaymentInput number),
    (cr_success (payment_tool process_env env input) = true
     <-> exists client properties money,
         createZaimApiClient process_env = Normal client
         /\ client_post client env (js "/v2/home/money/payment")
              (Some (createPayment_body number input)) = Normal (JObject properties)
         /\ obj_get properties (js "money") = Some money
         /\ truthy (Some money) = true
         /\ cr_record (payment_tool process_env env input) = first_or_self number money)
    /\ (cr_success (payment_tool process_env env input) = false ->
        cr_record (payment_tool process_env env input) = Some JNull)
    /\ (forall client properties,
           createZaimApiClient process_env = Normal client ->
           client_post client env (js "/v2/home/money/payment")
             (Some (createPayment_body number input)) = Normal (JObject properties) ->
           obj_get properties (js "money") = Some (JArray []) ->
           cr_success (payment_tool process_env env input) = true
           /\ cr_record (payment_tool process_env env input) = None).
Proof.
  intros process_env env input. unfold createPaymentTool.
  destruct (createZaimApiClient process_env) as [client|e] eqn:Hclient; cbn [bind].
  2: { cbn [cr_success cr_record]. split; [split; [discriminate|]|split; [reflexivity|]].
       - intros (c & p & m & Hc & _). discriminate.
       - intros c p Hc. discriminate. }
  destruct (client_post client env (js "/v2/home/money/payment")
              (Some (createPayment_body number input))) as [response|e] eqn:Hpost; cbn [bind].
  2: { cbn [cr_success cr_record]. split; [split; [discriminate|]|split; [reflexivity|]].
       - intros (c & p & m & Hc & Hp & _). inversion Hc; subst c. rewrite Hpost in Hp.
         discriminate.
       - intros c p Hc Hp. inversion Hc; subst c. rewrite Hpost in Hp. discriminate. }
  rewrite lacks_property_cases. cbn [bind].
  destruct response as [|b|n|s|items|properties];
    try (cbn [cr_success cr_record]; split; [split; [discriminate|]|split; [reflexivity|]];
         [intros (c & p & m & Hc & Hp & _); inversion Hc; subst c; rewrite Hpost in Hp;
          discriminate
         |intros c p Hc Hp; inversion Hc; subst c; rewrite Hpost in Hp; discriminate]).
  destruct (truthy (obj_get properties (js "money"))) eqn:Hm; cbn [negb].
  - destruct (truthy_Some _ Hm) as [money Hmoney]. rewrite Hmoney in *.
    cbn [GetV bind]. rewrite Hmoney. cbn [cr_success cr_record].
    split; [split|split; [discriminate|]].
    + intros _. exists client, properties, money. repeat split; assumption.
    + reflexivity.
    + intros c p Hc Hp Hempty. inversion Hc; subst c. rewrite Hpost in Hp.
      inversion Hp; subst p. rewrite Hmoney in Hempty. inversion Hempty; subst money.
      split; reflexivity.
  - cbn [cr_success cr_record]. split; [split; [discriminate|]|split; [reflexivity|]].
    + intros (c & p & m & Hc & Hp & Hmoney & Ht & _). inversion Hc; subst c.
      rewrite Hpost in Hp. inversion Hp; subst p. rewrite Hmoney in Hm. congruence.
    + intros c p Hc Hp Hempty. inversion Hc; subst c. rewrite Hpost in Hp.
      inversion Hp; subst p. rewrite Hempty in Hm. discriminate.
Qed.

(** X19. [deleteMoneyRecordTool] reports success exactly when the client is
    made and the DELETE returns an object with a truthy [money], which is
    then the deleted record; on failure the record is [null]. *)
Theorem deleteMoneyRecordTool_outcome :
  forall (process_env : JSObject jsstring) (env : CallEnv)
         (input : DeleteMoneyRecordInput number),
    (del_success (delete_tool process_env env input) = true
     <-> exists client properties money,
         createZaimApiClient process_env = Normal client
         /\ client_delete client env
              (js "/v2/home/money/" ++ RecordMode_string (del_mode input) ++ js "/"
               ++ Number_toString (del_id input))
            = Normal (JObject properties)
         /\ obj_get properties (js "money") = Some money
         /\ truthy (Some money) = true
         /\ deleted_record (delete_tool process_env env input) = Some money)
    /\ (del_success (delete_tool process_env env input) = false ->
        deleted_record (delete_tool process_env env input) = Some JNull).
Proof.
  intros process_env env input. unfold deleteMoneyRecordTool, deleteMoneyRecord_endpoint.
  destruct (createZaimApiClient process_env) as [client|e] eqn:Hclient; cbn [bind].
  2: { cbn [del_success deleted_record]. split; [split; [discriminate|]|reflexivity].
       intros (c & p & m & Hc & _). discriminate. }
  destruct (client_delete client env _) as [response|e] eqn:Hdel; cbn [bind].
  2: { cbn [del_success deleted_record]. split; [split; [discriminate|]|reflexivity].
       intros (c & p & m & Hc & Hp & _). inversion Hc; subst c. rewrite Hdel in Hp.
       discriminate. }
  rewrite lacks_property_cases. cbn [bind].
  destruct response as [|b|n|s|items|properties];
    try (cbn [del_success deleted_record]; split; [split; [discriminate|]|reflexivity];
         intros (c & p & m & Hc & Hp & _); inversion Hc; subst c; rewrite Hdel in Hp;
         discriminate).
  destruct (truthy (obj_get properties (js "money"))) eqn:Hm; cbn [negb].
  - destruct (truthy_Some _ Hm) as [money Hmoney]. rewrite Hmoney in *.
    cbn [GetV bind]. rewrite Hmoney. cbn [del_success deleted_record].
    split; [split; [|reflexivity]|discriminate].
    intros _. exists client, properties, money. repeat split; assumption.
  - cbn [del_success deleted_record]. split; [split; [discriminate|]|reflexivity].
    intros (c & p & m & Hc & Hp & Hmoney & Ht & _). inversion Hc; subst c.
    rewrite Hdel in Hp. inversion Hp; subst p. rewrite Hmoney in Hm. congruence.
Qed.

(** X21. [checkAuthStatusTool] reports an authenticated user exactly when
    the client is made and the GET of [/v2/home/user/verify] returns an
    object whose [me] is an object with a truthy [id] and a truthy
    [name]; the user then carries these two and the [login], or the empty
    string when the login is missing or falsy.  Otherwise there is no
    user. *)
Theorem checkAuthStatusTool_outcome :
  forall (process_env : JSObject jsstring) (env : CallEnv),
    (isAuthenticated (auth_tool process_env env) = true
     <-> exists client properties me id name,
         createZaimApiClient process_env = Normal client
         /\ client_get client env (js "/v2/home/user/verify") None = Normal (JObject properties)
         /\ obj_get properties (js "me") = Some (JObject me)
         /\ obj_get me (js "id") = Some id /\ truthy (Some id) = true
         /\ obj_get me (js "name") = Some name /\ truthy (Some name) = true
         /\ auth_user (auth_tool process_env env)
            = Some {| user_id := Some id;
                      user_login := if truthy (obj_get me (js "login"))
                                    then obj_get me (js "login") else Some (JString []);
                      user_name := Some name |})
    /\ (isAuthenticated (auth_tool process_env env) = false ->
        auth_user (auth_tool process_env env) = None).
Proof.
  intros process_env env. unfold checkAuthStatusTool.
  destruct (createZaimApiClient process_env) as [client|e] eqn:Hclient; cbn [bind].
  2: { cbn [isAuthenticated auth_user]. split; [split; [discriminate|]|reflexivity].
       intros (c & p & m & i & n & Hc & _). discriminate. }
  destruct (client_get client env (js "/v2/home/user/verify") None) as [response|e] eqn:Hget;
    cbn [bind].
  2: { cbn [isAuthenticated auth_user]. split; [split; [discriminate|]|reflexivity].
       intros (c & p & m & i & n & Hc & Hp & _). inversion Hc; subst c. rewrite Hget in Hp.
       discriminate. }
  rewrite lacks_property_cases. cbn [bind].
  assert (Hno : forall o : CheckAuthStatusOutput number,
             isAuthenticated o = false -> auth_user o = None ->
             (forall c p m i n,
                 Normal client = Normal c ->
                 client_get c env (js "/v2/home/user/verify") None = Normal (JObject p) ->
                 obj_get p (js "me") = Some (JObject m) ->
                 obj_get m (js "id") = Some i -> truthy (Some i) = true ->
                 obj_get m (js "name") = Some n -> truthy (Some n) = true -> False) ->
             (isAuthenticated o = true
              <-> exists c p m i n,
                 Normal client = Normal c
                 /\ client_get c env (js "/v2/home/user/verify") None = Normal (JObject p)
                 /\ obj_get p (js "me") = Some (JObject m)
                 /\ obj_get m (js "id") = Some i /\ truthy (Some i) = true
                 /\ obj_get m (js "name") = Some n /\ truthy (Some n) = true
                 /\ auth_user o
                    = Some {| user_id := Some i;
                              user_login := if truthy (obj_get m (js "login"))
                                            then obj_get m (js "login") else Some (JString []);
                              user_name := Some n |})
             /\ (isAuthenticated o = false -> auth_user o = None)).
  { intros o Ho Hu Hnone. split; [split; [congruence|]|auto].
    intros (c & p & m & i & n & Hc & Hp & Hm & Hi & Hti & Hn & Htn & _).
    exfalso. eapply Hnone; eassumption. }
  assert (Hone : forall c p, Normal client = Normal c ->
                   client_get c env (js "/v2/home/user/verify") None = Normal (JObject p) ->
                   response = JObject p).
  { intros c p Hc Hp. inversion Hc; subst c. rewrite Hget in Hp.
    now inversion Hp. }
  destruct response as [|b|n|s|items|properties];
    try ((match goal with |- (isAuthenticated ?o = true <-> _) /\ _ => apply (Hno o) end; [reflexivity|reflexivity|]);
         intros c p m i n' Hc Hp; specialize (Hone c p Hc Hp); discriminate).
  destruct (truthy (obj_get properties (js "me"))) eqn:Hme; cbn [negb].
  2: { (match goal with |- (isAuthenticated ?o = true <-> _) /\ _ => apply (Hno o) end; [reflexivity|reflexivity|]). intros c p m i n Hc Hp Hm.
       specialize (Hone c p Hc Hp). inversion Hone; subst p. rewrite Hm in Hme. discriminate. }
  destruct (truthy_Some _ Hme) as [userData HuserData]. rewrite HuserData in *.
  cbn [GetV bind]. rewrite HuserData.
  destruct userData as [|b|n|s|items|me];
    try discriminate;
    try (cbn [GetV bind ToBoolean negb orb]; (match goal with |- (isAuthenticated ?o = true <-> _) /\ _ => apply (Hno o) end; [reflexivity|reflexivity|]);
         intros c p m i n' Hc Hp Hm; specialize (Hone c p Hc Hp); inversion Hone; subst p;
         rewrite HuserData in Hm; discriminate).
  cbn [GetV bind].
  destruct (truthy (obj_get me (js "id"))) eqn:Hid.
  2: { cbn [bind negb orb]. (match goal with |- (isAuthenticated ?o = true <-> _) /\ _ => apply (Hno o) end; [reflexivity|reflexivity|]).
       intros c p m i n Hc Hp Hm Hi Hti. specialize (Hone c p Hc Hp). inversion Hone; subst p.
       rewrite HuserData in Hm. inversion Hm; subst m. rewrite Hi in Hid. congruence. }
  cbn [bind negb orb].
  destruct (truthy (obj_get me (js "name"))) eqn:Hname; cbn [negb].
  2: { (match goal with |- (isAuthenticated ?o = true <-> _) /\ _ => apply (Hno o) end; [reflexivity|reflexivity|]).
       intros c p m i n Hc Hp Hm Hi Hti Hn Htn. specialize (Hone c p Hc Hp).
       inversion Hone; subst p. rewrite HuserData in Hm. inversion Hm; subst m.
       rewrite Hn in Hname. congruence. }
  cbn [bind isAuthenticated auth_user].
  destruct (truthy_Some _ Hid) as [id Hid']. destruct (truthy_Some _ Hname) as [name Hname'].
  split; [split; [|reflexivity]|discriminate].
  intros _. exists client, properties, me, id, name.
  rewrite Hid', Hname' in *. repeat split; try assumption; reflexivity.
Qed.
End ToolOutcomes.

Section ToolRequests.
Variable localeCompare : jsstring -> jsstring -> Z.
Variable toUpperCase : jsstring -> jsstring.
Variable hmac_sha1_base64 : jsstring -> jsstring -> jsstring.
Variable number : Type.
Variable Number_toString : number -> jsstring.

Local Abbreviation sent_value :=
  (fun (input : CreatePaymentInput number) (name : jsstring) =>
     obj_get (buildRequestParameters number Number_toString
                (Some (createPayment_body number input))) name).

(** X18. What [createPaymentTool] posts: the amount, the date and the
    category always, each optional field exactly when it is defined, with
    its value turned into a string, be it [0] or the empty string; and
    nothing under another name. *)
Theorem createPaymentTool_body :
  forall input : CreatePaymentInput number,
    sent_value input (js "amount") = Some (Number_toString (pay_amount number input))
    /\ sent_value input (js "date") = Some (pay_date number input)
    /\ sent_value input (js "category_id")
       = Some (Number_toString (pay_category_id number input))
    /\ sent_value input (js "genre_id")
       = option_map Number_toString (pay_genre_id number input)
    /\ sent_value input (js "from_account_id")
       = option_map Number_toString (pay_from_account_id number input)
    /\ sent_value input (js "place") = pay_place number input
    /\ sent_value input (js "comment") = pay_comment number input
    /\ sent_value input (js "name") = pay_name number input
    /\ Forall (fun kv => In (fst kv) [js "amount"; js "date"; js "category_id"; js "genre_id";
                                      js "from_account_id"; js "place"; js "comment";
                                      js "name"])
              (buildRequestParameters number Number_toString
                 (Some (createPayment_body number input))).
Proof.
  intros [amount date category [genre|] [account|] [place|] [comment|] [name|]];
    repeat split; try (vm_compute; reflexivity);
    vm_compute; repeat (apply Forall_cons; [tauto|]); apply Forall_nil.
Qed.

(** X20. The request of [deleteMoneyRecordTool], for a client made from the
    environment and an id that prints without ['?']: the URL that is
    fetched is the host followed by [/v2/home/money/<mode>/<id>], the
    signature is computed over this very URL and over the six OAuth
    parameters only, and whenever the request is prepared it is a
    [DELETE] of that URL without a body. *)
Theorem deleteMoneyRecordTool_request :
  forall (process_env : JSObject jsstring) (client : ZaimApiClient) (env : CallEnv)
         (input : DeleteMoneyRecordInput number),
    createZaimApiClient process_env = Normal client ->
    ~ In QUESTION (Number_toString (del_id input)) ->
    let endpoint := deleteMoneyRecord_endpoint number Number_toString input in
    let url := js "https://api.zaim.net/v2/home/money/" ++ RecordMode_string (del_mode input)
               ++ js "/" ++ Number_toString (del_id input) in
    buildUrl number Number_toString client endpoint None = url
    /\ sc_url (signerCall client env DELETE url (buildRequestParameters number Number_toString None))
       = url
    /\ (forall k,
           obj_get (sc_parameters
                      (signerCall client env DELETE url
                         (buildRequestParameters number Number_toString None))) k
           = obj_get (oauthParams client env) k)
    /\ (forall call,
           prepare_request localeCompare toUpperCase hmac_sha1_base64 number Number_toString
             client env DELETE endpoint None None = Normal call ->
           fst call = url /\ ri_method (snd call) = DELETE /\ ri_body (snd call) = None).
Proof.
  intros process_env client env input Hclient Hid endpoint url.
  pose proof (createZaimApiClient_baseUrl process_env client Hclient) as Hbase.
  assert (Hurl : buildUrl number Number_toString client endpoint None = url).
  { unfold buildUrl, endpoint, deleteMoneyRecord_endpoint, url. rewrite Hbase. reflexivity. }
  assert (Hpath : ~ In QUESTION url).
  { unfold url. intros Hin. apply in_app_or in Hin as [Hin|Hin].
    - cbn in Hin. decompose [or] Hin; try discriminate; assumption.
    - apply in_app_or in Hin as [Hin|Hin].
      + destruct (del_mode input); cbn in Hin; decompose [or] Hin; try discriminate; assumption.
      + cbn [js list_ascii_of_string map app In] in Hin. destruct Hin as [Hin|Hin];
          [discriminate|contradiction]. }
  destruct (extractQueryParams_path url Hpath) as [Hb Hx].
  split; [exact Hurl|]. split; [exact Hb|]. split.
  - intros k. cbn [signerCall sc_parameters buildRequestParameters].
    rewrite obj_get_allParams by constructor. rewrite Hx. reflexivity.
  - intros call Hcall. unfold prepare_request in Hcall. rewrite Hurl in Hcall.
    apply bind_Normal in Hcall as (header & _ & Hcall). cbn [bind] in Hcall.
    inversion Hcall. repeat split.
Qed.
End ToolRequests.

Lemma deleteMoneyRecordTool_request_witness :
  buildUrl N N_toString sample_client
    (deleteMoneyRecord_endpoint N N_toString {| del_id := 42; del_mode := income |}) None
  = js "https://api.zaim.net/v2/home/money/income/42".
Proof.
  apply (deleteMoneyRecordTool_request alphabetic_compare ascii_toUpperCase sample_hmac
           N N_toString sample_process_env sample_client sample_env
           {| del_id := 42; del_mode := income |}).
  - vm_compute. reflexivity.
  - vm_compute. intros H. decompose [or] H; try discriminate; assumption.
Defined.

(** ** The signature and the order of the parameters *)

(** X22. The signature does not depend on the order in which the properties
    of the parameter object were created, for a [localeCompare] that is a
    consistent comparator telling encoded names apart. *)
Theorem generateOAuthSignature_insertion_order :
  forall (localeCompare : jsstring -> jsstring -> Z) (toUpperCase : jsstring -> jsstring)
         (hmac_sha1_base64 : jsstring -> jsstring -> jsstring),
    (forall a b, (0 < localeCompare a b)%Z -> (localeCompare b a < 0)%Z) ->
    (forall a b c, (localeCompare a b <= 0)%Z -> (localeCompare b c <= 0)%Z ->
                   (localeCompare a c <= 0)%Z) ->
    (forall a b, Forall (fun c => uri_char c = true) a -> Forall (fun c => uri_char c = true) b ->
                 (localeCompare a b <= 0)%Z -> (localeCompare b a <= 0)%Z -> a = b) ->
    forall (method url : jsstring) (p1 p2 : JSObject jsstring)
           (consumerSecret : jsstring) (tokenSecret : option jsstring),
      NoDup (map fst p1) ->
      Forall (fun kv => valid_string (fst kv)) p1 ->
      Permutation p1 p2 ->
      generateOAuthSignature localeCompare toUpperCase hmac_sha1_base64
        method url p1 consumerSecret tokenSecret
      = generateOAuthSignature localeCompare toUpperCase hmac_sha1_base64
          method url p2 consumerSecret tokenSecret.
Proof.
  intros lc up hmac Hflip Htrans Hties method url p1 p2 cs ts Hnd Hvalid Hperm.
  unfold generateOAuthSignature.
  now rewrite (normalizeParameters_Permutation lc Hflip Htrans Hties p1 p2 Hnd Hvalid Hperm).
Qed.

Lemma generateOAuthSignature_insertion_order_witness :
  generateOAuthSignature code_unit_compare ascii_toUpperCase sample_hmac
    (js "get") (js "https://api.zaim.net/v2/home/money")
    [(js "oauth_nonce", js "n"); (js "limit", js "5")] (js "secret") None
  = generateOAuthSignature code_unit_compare ascii_toUpperCase sample_hmac
      (js "get") (js "https://api.zaim.net/v2/home/money")
      [(js "limit", js "5"); (js "oauth_nonce", js "n")] (js "secret") None.
Proof.
  apply (generateOAuthSignature_insertion_order code_unit_compare ascii_toUpperCase sample_hmac).
  - apply code_unit_compare_flip.
  - apply code_unit_compare_trans.
  - intros a b _ _. apply code_unit_compare_ties.
  - repeat constructor; cbn; intros H; decompose [or] H; try discriminate; assumption.
  - repeat constructor; apply valid_string_js.
  - apply perm_swap.
Defined.

(** ** The two checks of a configuration *)

(** X23. What [TokenStorage.validateConfig] accepts, the constructor of the
    client accepts: the check of [TokenStorage] holds exactly when no
    credential is empty once trimmed, and the client is then made with
    the configuration as given. *)
Theorem TokenStorage_validateConfig_accepted :
  forall c : OAuthConfig,
    (TokenStorage_validateConfig c = true
     <-> trim (consumerKey c) <> [] /\ trim (consumerSecret c) <> []
         /\ trim (accessToken c) <> [] /\ trim (accessTokenSecret c) <> [])
    /\ (TokenStorage_validateConfig c = true ->
        new_ZaimApiClient c = Normal {| config := c; baseUrl := js "https://api.zaim.net" |}).
Proof.
  intros [ck cs at_ ats]. unfold TokenStorage_validateConfig, new_ZaimApiClient, validateConfig.
  cbn [consumerKey consumerSecret accessToken accessTokenSecret].
  assert (Hne : forall s : jsstring, nonempty s = true <-> s <> []).
  { intros [|x s]; cbn; split; congruence. }
  assert (Ht : forall s : jsstring, trim s <> [] -> s <> []).
  { intros s H E. subst s. now apply H. }
  split; [split|].
  - intros H. repeat (apply andb_true_iff in H as [H ?]).
    repeat split; now apply Hne.
  - intros (H1 & H2 & H3 & H4).
    repeat (apply andb_true_iff; split); apply Hne; auto.
  - intros H. repeat (apply andb_true_iff in H as [H ?]).
    repeat match goal with
           | E : nonempty ?s = true |- _ => rewrite E; clear E
           end.
    reflexivity.
Qed.

(* ================================================================== *)
(** * Part IV. The encoding of the signer against RFC 3986, and the header *)
(* ================================================================== *)

(** ** [encodeURIComponent] and the percent-encoding of RFC 3986 *)

Lemma rfc3986_unreserved_ascii (c : code_unit) : rfc3986_unreserved c = true -> c < 128.
Proof.
  intros H. apply (uriUnescaped_ascii c). rewrite uriUnescaped_rfc3986, H. reflexivity.
Qed.

(** Away from the five marks the code's encoder is the encoder of
    RFC 3986. *)
Lemma encodeURIComponent_rfc3986 (s : jsstring) :
  isWellFormed s = true -> has_no_mark s = true ->
  encodeURIComponent s = Normal (rfc3986_percent_encode s).
Proof.
  unfold rfc3986_percent_encode, has_no_mark.
  induction s as [| c | c d s IH1 IH2] using list_ind2; intros Hw Hm.
  - reflexivity.
  - rewrite isWellFormed_cons in Hw. rewrite encodeURIComponent_cons, scalar_values_cons.
    cbn [forallb] in Hm. apply andb_true_iff in Hm as [Hc _]. apply negb_true_iff in Hc.
    rewrite uriUnescaped_rfc3986. fold five_marks. rewrite Hc, orb_false_r.
    destruct (rfc3986_unreserved c) eqn:Hu.
    + assert (Hun : uriUnescaped c = true)
        by (rewrite uriUnescaped_rfc3986, Hu; reflexivity).
      destruct (uriUnescaped_not_surrogate c Hun) as [-> ->].
      cbn [encodeURIComponent bind scalar_values flat_map]. now rewrite Hu.
    + destruct (is_trailing_surrogate c); [discriminate|].
      destruct (is_leading_surrogate c); [discriminate|].
      cbn [encodeURIComponent bind scalar_values flat_map]. now rewrite Hu.
  - rewrite isWellFormed_cons in Hw. rewrite encodeURIComponent_cons, scalar_values_cons.
    cbn [forallb] in Hm. apply andb_true_iff in Hm as [Hc Hm'].
    assert (Hm'' : forallb (fun c => negb (mem_unit c five_marks)) s = true).
    { cbn [forallb] in Hm'. now apply andb_true_iff in Hm' as [_ ?]. }
    apply negb_true_iff in Hc.
    rewrite uriUnescaped_rfc3986. fold five_marks. rewrite Hc, orb_false_r.
    destruct (rfc3986_unreserved c) eqn:Hu.
    + assert (Hun : uriUnescaped c = true)
        by (rewrite uriUnescaped_rfc3986, Hu; reflexivity).
      destruct (uriUnescaped_not_surrogate c Hun) as [Ht Hl]. rewrite Ht, Hl in *.
      rewrite (IH2 Hw Hm'). cbn [bind flat_map]. now rewrite Hu.
    + destruct (is_trailing_surrogate c) eqn:Ht; [discriminate|].
      destruct (is_leading_surrogate c) eqn:Hl.
      * apply andb_true_iff in Hw as [Hd Hw]. rewrite Hd.
        rewrite (IH1 Hw Hm''). cbn [bind flat_map].
        apply in_range_spec in Hl. apply in_range_spec in Hd.
        destruct (rfc3986_unreserved ((c - 0xD800) * 0x400 + (d - 0xDC00) + 0x10000)) eqn:Hp;
          [|reflexivity].
        apply rfc3986_unreserved_ascii in Hp. lia.
      * rewrite (IH2 Hw Hm'). cbn [bind flat_map]. now rewrite Hu.
Qed.

(** Percent-decoding and UTF-8 decoding an encoded text gives the text
    back. *)
Lemma encodeURIComponent_decodes (s r : jsstring) :
  valid_string s -> encodeURIComponent s = Normal r ->
  utf8_decode (percent_decode r) = s /\ ~ In AMP r.
Proof.
  intros Hv Hr.
  destruct (encodeURIComponent_Normal s r Hv Hr) as (Hdec & Hwf & _).
  destruct (encoded_no_separator s r Hv Hr) as (Hamp & _).
  split; [|exact Hamp].
  rewrite Hdec, utf8_decode_encode by assumption. now apply toUSVString_wellformed.
Qed.

(** ** The signing key (C4) *)

(** C4. What [constructSigningKey] returns is the encoded consumer
    secret, ['&'], and the encoded token secret (nothing for an absent or
    empty one); neither part holds a ['&'] and each decodes back to its
    secret.  The encoding is that of RFC 3986 on secrets without the marks
    [! * ' ( )], and the examples of the specification come out as
    stated; but the five marks are left unescaped: the consumer secret
    ["!*'()"] gives ["!*'()&"], where RFC 3986 requires
    ["%21%2A%27%28%29&"]. *)
Theorem constructSigningKey_keeps_five_marks :
  (forall (consumerSecret : jsstring) (tokenSecret : option jsstring) (key : jsstring),
      valid_string consumerSecret -> valid_string (secret_or_empty tokenSecret) ->
      constructSigningKey consumerSecret tokenSecret = Normal key ->
      exists c t,
        key = c ++ [AMP] ++ t
        /\ ~ In AMP c /\ ~ In AMP t
        /\ utf8_decode (percent_decode c) = consumerSecret
        /\ utf8_decode (percent_decode t) = secret_or_empty tokenSecret)
  /\ (forall (consumerSecret : jsstring) (tokenSecret : option jsstring),
         isWellFormed consumerSecret = true ->
         isWellFormed (secret_or_empty tokenSecret) = true ->
         has_no_mark consumerSecret = true ->
         has_no_mark (secret_or_empty tokenSecret) = true ->
         constructSigningKey consumerSecret tokenSecret
         = Normal (rfc3986_percent_encode consumerSecret ++ [AMP]
                   ++ rfc3986_percent_encode (secret_or_empty tokenSecret)))
  /\ constructSigningKey (js "secret") None = Normal (js "secret&")
  /\ constructSigningKey (js "consumer&secret") (Some (js "token=secret"))
     = Normal (js "consumer%26secret&token%3Dsecret")
  /\ constructSigningKey [0xE9; 0x3042; 0xD83D; 0xDE00] (Some (js "a b"))
     = Normal (js "%C3%A9%E3%81%82%F0%9F%98%80&a%20b")
  /\ constructSigningKey (js "!*'()") None = Normal (js "!*'()&")
  /\ rfc3986_percent_encode (js "!*'()") ++ [AMP] ++ rfc3986_percent_encode []
     = js "%21%2A%27%28%29&".
Proof.
  split; [|split; [|repeat split; reflexivity]].
  - intros cs ts key Hcs Hts H. rewrite constructSigningKey_parts in H.
    apply bind_Normal in H as (c & Hc & H). apply bind_Normal in H as (t & Ht & H).
    inversion H as [Hkey]. exists c, t.
    destruct (encodeURIComponent_decodes _ _ Hcs Hc) as [Hdc Hac].
    destruct (encodeURIComponent_decodes _ _ Hts Ht) as [Hdt Hat].
    repeat split; assumption.
  - intros cs ts Hwc Hwt Hmc Hmt. rewrite constructSigningKey_parts.
    rewrite (encodeURIComponent_rfc3986 cs Hwc Hmc).
    rewrite (encodeURIComponent_rfc3986 _ Hwt Hmt). reflexivity.
Qed.

Lemma constructSigningKey_keeps_five_marks_witness :
  constructSigningKey (js "consumer&secret") (Some (js "token=secret"))
  = Normal (rfc3986_percent_encode (js "consumer&secret") ++ [AMP]
            ++ rfc3986_percent_encode (js "token=secret")).
Proof.
  apply (proj1 (proj2 constructSigningKey_keeps_five_marks)
           (js "consumer&secret") (Some (js "token=secret"))); reflexivity.
Defined.

(** ** The base string (C5) *)

(** C5. What [constructBaseString] returns is the upper-cased method,
    the encoded URL and the encoded parameter string, joined by ['&'];
    neither encoded part holds a ['&'] and each decodes back to what was
    given.  The encoding is that of RFC 3986 on text without the marks
    [! * ' ( )], and where upper-casing leaves ["GET"] alone the example
    of the specification comes out as stated; but the five marks are left
    unescaped: in the URL [https://api.example.com/v2/home/money(1)!] the
    text ["(1)!"] stays, where RFC 3986 requires ["%281%29%21"], and so do
    the apostrophe, the parentheses and the exclamation mark of the
    parameter string ["place=Joe's%20(cafe)!"], which [normalizeParameters]
    returns for the place ["Joe's (cafe)!"]. *)
Theorem constructBaseString_keeps_five_marks :
  forall toUpperCase : jsstring -> jsstring,
    (forall method url normalizedParams baseString : jsstring,
        valid_string url -> valid_string normalizedParams ->
        constructBaseString toUpperCase method url normalizedParams = Normal baseString ->
        exists u p,
          baseString = toUpperCase method ++ [AMP] ++ u ++ [AMP] ++ p
          /\ ~ In AMP u /\ ~ In AMP p
          /\ utf8_decode (percent_decode u) = url
          /\ utf8_decode (percent_decode p) = normalizedParams)
    /\ (forall method url normalizedParams : jsstring,
           isWellFormed url = true -> isWellFormed normalizedParams = true ->
           has_no_mark url = true -> has_no_mark normalizedParams = true ->
           constructBaseString toUpperCase method url normalizedParams
           = Normal (toUpperCase method ++ [AMP] ++ rfc3986_percent_encode url ++ [AMP]
                     ++ rfc3986_percent_encode normalizedParams))
    /\ (toUpperCase (js "GET") = js "GET" ->
        constructBaseString toUpperCase (js "GET")
          (js "https://api.example.com/v2/home/user/verify")
          (js "oauth_consumer_key=test_key")
        = Normal (js "GET&https%3A%2F%2Fapi.example.com%2Fv2%2Fhome%2Fuser%2Fverify&oauth_consumer_key%3Dtest_key"))
    /\ (forall method : jsstring,
           constructBaseString toUpperCase method
             (js "https://api.example.com/v2/home/money(1)!") (js "a=b")
           = Normal (toUpperCase method
                     ++ js "&https%3A%2F%2Fapi.example.com%2Fv2%2Fhome%2Fmoney(1)!&a%3Db"))
    /\ rfc3986_percent_encode (js "https://api.example.com/v2/home/money(1)!")
       = js "https%3A%2F%2Fapi.example.com%2Fv2%2Fhome%2Fmoney%281%29%21"
    /\ (forall method : jsstring,
           constructBaseString toUpperCase method
             (js "https://api.zaim.net/v2/home/money/payment") (js "place=Joe's%20(cafe)!")
           = Normal (toUpperCase method
                     ++ js "&https%3A%2F%2Fapi.zaim.net%2Fv2%2Fhome%2Fmoney%2Fpayment&place%3DJoe's%2520(cafe)!"))
    /\ rfc3986_percent_encode (js "place=Joe's%20(cafe)!")
       = js "place%3DJoe%27s%2520%28cafe%29%21".
Proof.
  intros up. split; [|split; [|split; [|split; [|split; [|split]]]]].
  - intros method url np base Hurl Hnp H. unfold constructBaseString in H.
    apply bind_Normal in H as (u & Hu & H). apply bind_Normal in H as (p & Hp & H).
    inversion H as [Hbase]. exists u, p.
    destruct (encodeURIComponent_decodes _ _ Hurl Hu) as [Hdu Hau].
    destruct (encodeURIComponent_decodes _ _ Hnp Hp) as [Hdp Hap].
    repeat split; assumption.
  - intros method url np Hwu Hwp Hmu Hmp. unfold constructBaseString.
    rewrite (encodeURIComponent_rfc3986 url Hwu Hmu).
    rewrite (encodeURIComponent_rfc3986 np Hwp Hmp). reflexivity.
  - intros Hget. unfold constructBaseString. rewrite Hget. reflexivity.
  - intros method. reflexivity.
  - reflexivity.
  - intros method. reflexivity.
  - reflexivity.
Qed.

Lemma constructBaseString_keeps_five_marks_witness :
  constructBaseString ascii_toUpperCase (js "GET")
    (js "https://api.example.com/v2/home/user/verify") (js "oauth_consumer_key=test_key")
  = Normal (js "GET&https%3A%2F%2Fapi.example.com%2Fv2%2Fhome%2Fuser%2Fverify&oauth_consumer_key%3Dtest_key").
Proof.
  apply (proj1 (proj2 (proj2 (constructBaseString_keeps_five_marks ascii_toUpperCase)))).
  reflexivity.
Defined.

(** ** The signed parameter set and the header (C10) *)


Section SignedParameters.
Variable localeCompare : jsstring -> jsstring -> Z.
Variable toUpperCase : jsstring -> jsstring.
Variable hmac_sha1_base64 : jsstring -> jsstring -> jsstring.
Variable number : Type.
Variable Number_toString : number -> jsstring.
Variable this : ZaimApiClient.

Local Abbreviation body_of := (buildRequestParameters number Number_toString).
Local Abbreviation quoted := (fun value : jsstring => [DQUOTE] ++ value ++ [DQUOTE]).
Local Abbreviation carries :=
  (fun encoded value : jsstring =>
     encodeURIComponent value = Normal encoded
     /\ (valid_string value -> utf8_decode (percent_decode encoded) = value)).

End SignedParameters.

